(** * A morphing Christmas-tree scene: the model of [src/App.tsx]

    The application keeps a formation of points that morphs between a tree
    and a scattered cloud, driven by hand gestures.  This file embeds the
    parts of [App.tsx] with algorithmic content and proves (or refutes) the
    properties stated about them.

    Conventions of the embedding.
    - A JavaScript [number] that carries a measure (a coordinate, an angle, a
      time stamp, the morph value) is a real number of type [R]; rounding of
      IEEE doubles is not modelled, and [Math.sin], [Math.cos], [Math.acos],
      [Math.sqrt], [Math.PI] are the functions and the constant of the
      Standard Library's real analysis.  A [number] that only counts (the
      debounce counter, a loop index, a photo index) is a [nat].
    - Mutable objects held in React refs are records that every callback
      takes and returns; a callback that calls a React state setter returns
      the list of calls as well.
    - [Math.random()] draws from an explicit generator state. *)

From Stdlib Require Import Reals Lra Lia List.
From stdpp Require Import gmap strings.
Import ListNotations.

Open Scope R_scope.
Set Warnings "-register-all".

(** Comparisons of numbers are decided, as [<], [>] and [===] do. *)
#[global] Instance R_eq_dec : EqDecision R := Req_dec_T.
#[global] Instance Rlt_decision (a b : R) : Decision (a < b) := Rlt_dec a b.
#[global] Instance Rgt_decision (a b : R) : Decision (a > b) := Rgt_dec a b.

(** ** Constants (lines 13-18) *)

Definition SCATTER_CENTER_Y : R := 0.2.

Module SCATTER_CONFIG.
Definition CORE_RATIO : R := 0.8.
Definition CORE_RADIUS : R := 3.2.
Definition OUTER_RADIUS : R := 16.0.
End SCATTER_CONFIG.

(** ** The part of [Math] the program calls *)

Module Math.

Definition PI : R := Rtrigo1.PI.
Definition abs : R -> R := Rabs.
Definition max : R -> R -> R := Rmax.
Definition min : R -> R -> R := Rmin.

(** [Math.pow] is only called with the exponents 3 and 2. *)
Definition pow (b : R) (e : nat) : R := b ^ e.

(** [Math.cbrt]: the real cube root, odd and zero at zero. *)
Definition cbrt (a : R) : R :=
  match total_order_T a 0 with
  | inleft (left _) => - Rpower (- a) (/ 3)
  | inleft (right _) => 0
  | inright _ => Rpower a (/ 3)
  end.

End Math.

(** ** [THREE.Vector3], the methods the program calls *)

Module Vector3.

Record t : Type := mk { x : R; y : R; z : R }.

Definition add (a b : t) : t := mk (x a + x b) (y a + y b) (z a + z b).

Definition subVectors (a b : t) : t := mk (x a - x b) (y a - y b) (z a - z b).

Definition multiplyScalar (a : t) (s : R) : t := mk (x a * s) (y a * s) (z a * s).

(** [addScaledVector(v, s)]: [this += v * s]. *)
Definition addScaledVector (a v : t) (s : R) : t :=
  mk (x a + x v * s) (y a + y v * s) (z a + z v * s).

Definition length (a : t) : R := sqrt (x a * x a + y a * y a + z a * z a).

(** [normalize()] is [divideScalar(this.length() || 1)]: the zero vector
    stays the zero vector. *)
Definition normalize (a : t) : t :=
  let l := length a in
  let d := if decide (l = 0) then 1 else l in
  mk (x a / d) (y a / d) (z a / d).

Definition distanceTo (a b : t) : R := length (subVectors a b).

(** [lerpVectors(v1, v2, alpha)]: [v1 + (v2 - v1) * alpha] per component. *)
Definition lerpVectors (v1 v2 : t) (alpha : R) : t :=
  mk (x v1 + (x v2 - x v1) * alpha)
     (y v1 + (y v2 - y v1) * alpha)
     (z v1 + (z v2 - z v1) * alpha).

(** The dot product, for the statements about [length]. *)
Definition dot (a b : t) : R := x a * x b + y a * y b + z a * z b.

End Vector3.

Abbreviation Vector3 := Vector3.t.

(** ** The cubic ease-in-out, as [MorphingInstances.update] (line 179) and
       [animate] (line 442) inline it *)

Definition eased (morphVal : R) : R :=
  if decide (morphVal < 0.5)
  then 4.0 * morphVal * morphVal * morphVal
  else 1.0 - Math.pow (-2.0 * morphVal + 2.0) 3 / 2.0.

(** ** Gesture control: [predictWebcam] (lines 636-672) *)

Module Gesture.

Inductive GestureType : Type := FIST | OPEN_PALM | V_SIGN | INDEX_UP | UNKNOWN.

#[global] Instance GestureType_eq_dec : EqDecision GestureType.
Proof. solve_decision. Defined.

(** [gestureState.current] (lines 262-267). *)
Record GestureState : Type := mkGestureState {
  lastRawGesture : GestureType;
  debounceCount : nat;
  currentStableGesture : GestureType;
  lastActionTime : R
}.

(** The two fields of [dragRef.current] that [predictWebcam] writes. *)
Record DragTargets : Type := mkDragTargets {
  yawTarget : R;
  pitchTarget : R
}.

(** Everything [predictWebcam] reads and writes.  [focusActive] is
    [focusStateRef.current.active]; [debugGesture] is [None] for the
    initial ['--']. *)
Record Control : Type := mkControl {
  gestureState : GestureState;
  handTrackingRef : option (R * R);
  dragRef : DragTargets;
  focusActive : bool;
  isHandRotating : bool;
  debugGesture : option GestureType
}.

(** The React setter with a consequence outside this callback. *)
Inductive Action : Type := SetTargetMorph (v : R).

(** What the landmark detector returns for one hand: the class
    [classifyGesture] gives its landmarks, and landmark 0, the wrist. *)
Record Hand : Type := mkHand { rawGesture : GestureType; wrist : R * R }.

(** One video frame that reaches [detectForVideo]: the time stamp
    [performance.now()] and the hand, if one was detected. *)
Record Frame : Type := mkFrame { now : R; landmarks : option Hand }.

Definition initialGestureState : GestureState :=
  mkGestureState UNKNOWN 0 UNKNOWN 0.

Definition initialControl : Control :=
  mkControl initialGestureState None (mkDragTargets 0 0) false false None.

(** Lines 648-654: wrist motion with a dead zone drives the orbit targets. *)
Definition deadZone (d : R) : R :=
  if decide (Math.abs d < 0.003) then 0 else d.

Definition trackWrist (w : R * R) (c : Control) : Control :=
  let c' :=
    match handTrackingRef c with
    | Some prev =>
        let dx := deadZone (fst w - fst prev) in
        let dy := deadZone (snd w - snd prev) in
        if decide (dx <> 0 \/ dy <> 0) then
          mkControl (gestureState c) (handTrackingRef c)
            (mkDragTargets
               (yawTarget (dragRef c) + dx * Math.PI * 1.25)
               (Math.max (-0.6)
                  (Math.min 0.6 (pitchTarget (dragRef c) + dy * Math.PI * 0.6))))
            (focusActive c) true (debugGesture c)
        else
          mkControl (gestureState c) (handTrackingRef c) (dragRef c)
                    (focusActive c) false (debugGesture c)
    | None => c
    end in
  mkControl (gestureState c') (Some w) (dragRef c')
            (focusActive c') (isHandRotating c') (debugGesture c').

(** Line 656: the debounce counter. *)
Definition debounce (raw : GestureType) (st : GestureState) : GestureState :=
  if decide (raw = lastRawGesture st /\ raw <> UNKNOWN)
  then mkGestureState (lastRawGesture st) (S (debounceCount st))
                      (currentStableGesture st) (lastActionTime st)
  else mkGestureState raw 0 (currentStableGesture st) (lastActionTime st).

(** Lines 660-664: the cooldown-gated actions. *)
Definition dispatch (raw : GestureType) (now : R) (st : GestureState)
  : GestureState * list Action :=
  if decide (now - lastActionTime st > 800) then
    match raw with
    | FIST =>
        (mkGestureState (lastRawGesture st) (debounceCount st)
                        (currentStableGesture st) now, [SetTargetMorph 0])
    | OPEN_PALM =>
        (mkGestureState (lastRawGesture st) (debounceCount st)
                        (currentStableGesture st) now, [SetTargetMorph 1])
    | _ => (st, [])
    end
  else (st, []).

(** Lines 657-665: the commit of the stable class. *)
Definition commit (raw : GestureType) (now : R) (c : Control)
  : Control * list Action :=
  let st := gestureState c in
  if (8 <=? debounceCount st)%nat then
    let st1 := mkGestureState (lastRawGesture st) (debounceCount st)
                              raw (lastActionTime st) in
    let '(st2, acts) := dispatch raw now st1 in
    (mkControl st2 (handTrackingRef c) (dragRef c)
               (bool_decide (raw = INDEX_UP)) (isHandRotating c) (Some raw),
     acts)
  else (c, []).

(** Lines 645-668, for one frame. *)
Definition predictWebcam (f : Frame) (c : Control) : Control * list Action :=
  match landmarks f with
  | Some h =>
      let c1 := trackWrist (wrist h) c in
      let c2 := mkControl (debounce (rawGesture h) (gestureState c1))
                          (handTrackingRef c1) (dragRef c1)
                          (focusActive c1) (isHandRotating c1) (debugGesture c1) in
      commit (rawGesture h) (now f) c2
  | None =>
      (mkControl (gestureState c) None (dragRef c) false false (debugGesture c), [])
  end.

(** The callback re-registers itself with [requestAnimationFrame] (line
    671): a run is the fold of [predictWebcam] over the frames, with the
    actions in the order they were called. *)
Fixpoint run (fs : list Frame) (c : Control) : Control * list Action :=
  match fs with
  | [] => (c, [])
  | f :: fs' =>
      let '(c1, a1) := predictWebcam f c in
      let '(c2, a2) := run fs' c1 in
      (c2, a1 ++ a2)
  end.

(** A frame in which a hand shows class [g]. *)
Definition held (g : GestureType) (t : R) (w : R * R) : Frame :=
  mkFrame t (Some (mkHand g w)).

(** What a frame with a hand does to the gesture state. *)
Definition afterDebounce (g : GestureType) (c : Control) : GestureState :=
  debounce g (gestureState c).

(** Frames that all show the class [g], at any times and wrist positions. *)
Definition heldFrames (g : GestureType) (tws : list (R * (R * R))) : list Frame :=
  map (fun tw => held g (fst tw) (snd tw)) tws.

(** Nine frames from a camera at about 30 frames per second, the hand still. *)
Definition nineFrames : list (R * (R * R)) :=
  [(1000, (0.5, 0.5)); (1033, (0.5, 0.5)); (1066, (0.5, 0.5));
   (1100, (0.5, 0.5)); (1133, (0.5, 0.5)); (1166, (0.5, 0.5));
   (1200, (0.5, 0.5)); (1233, (0.5, 0.5)); (1266, (0.5, 0.5))].

(** A hand that has shown FIST for eight frames, the last action long ago. *)
Definition fistHeld : Control :=
  mkControl (mkGestureState FIST 7 UNKNOWN 0) (Some (0.5, 0.5))
            (mkDragTargets 0 0) false false None.

(** A hand whose wrist was last seen at the origin. *)
Definition wristAtOrigin : Control :=
  mkControl initialGestureState (Some (0, 0)) (mkDragTargets 0 0) false false None.

End Gesture.

(** ** [Math.random()] as an effect *)

Module Random.

(** The generator: the sequence of numbers it will return and how many were
    taken.  [Math.random()] returns a number in [[0, 1)]. *)
Record Gen : Type := mkGen { draws : nat -> R; cursor : nat }.

Definition valid (g : Gen) : Prop := forall n, 0 <= draws g n < 1.

Definition M (A : Type) : Type := Gen -> A * Gen.

Definition ret {A} (a : A) : M A := fun g => (a, g).

Definition bind {A B} (m : M A) (k : A -> M B) : M B :=
  fun g => let '(a, g') := m g in k a g'.

Definition random : M R :=
  fun g => (draws g (cursor g), mkGen (draws g) (S (cursor g))).

End Random.

Notation "x <-$ m ;; k" := (Random.bind m (fun x => k))
  (at level 100, m at next level, right associativity, only parsing).

(** ** The scatter formation: [getIsotropicScatterPos] (lines 136-161) *)

Record ScatterPoint : Type := mkScatterPoint { pos : Vector3; isHalo : bool }.

Definition scatterCenter : Vector3 := Vector3.mk 0 SCATTER_CENTER_Y 0.

Definition getIsotropicScatterPos (isCoreOverride : option bool)
  : Random.M ScatterPoint :=
  isCore <-$ match isCoreOverride with
             | Some b => Random.ret b
             | None => c <-$ Random.random ;;
                       Random.ret (bool_decide (c < SCATTER_CONFIG.CORE_RATIO))
             end ;;
  let center := scatterCenter in
  u <-$ Random.random ;;
  v <-$ Random.random ;;
  let theta := 2 * Math.PI * u in
  let phi := acos (2 * v - 1) in
  let dir := Vector3.mk (sin phi * cos theta) (sin phi * sin theta) (cos phi) in
  if isCore then
    w <-$ Random.random ;;
    let r := SCATTER_CONFIG.CORE_RADIUS * Math.cbrt w in
    Random.ret (mkScatterPoint (Vector3.add (Vector3.multiplyScalar dir r) center)
                               (negb isCore))
  else
    let R_min := SCATTER_CONFIG.CORE_RADIUS * 1.05 in
    let R_max := SCATTER_CONFIG.OUTER_RADIUS in
    w <-$ Random.random ;;
    let r := Math.cbrt (w * (Math.pow R_max 3 - Math.pow R_min 3) + Math.pow R_min 3) in
    let p := Vector3.add (Vector3.multiplyScalar dir r) center in
    j <-$ Random.random ;;
    if decide (j < 0.3) then
      s <-$ Random.random ;;
      let seed := s * 100 in
      let px := Vector3.x p + 0.15 * sin (Vector3.y p * 1.7 + seed) in
      let pz := Vector3.z p + 0.15 * cos (px * 1.7 + seed) in
      Random.ret (mkScatterPoint (Vector3.mk px (Vector3.y p) pz) (negb isCore))
    else
      Random.ret (mkScatterPoint p (negb isCore)).

(** The draw that decides whether a halo point is jittered (line 154): the
    fourth of the call when [isCoreOverride] is given, the fifth when the
    call draws [isCore] itself. *)
Definition jitterDraw (isCoreOverride : option bool) (g : Random.Gen) : R :=
  Random.draws g (Random.cursor g + match isCoreOverride with
                                    | Some _ => 3
                                    | None => 4
                                    end).

(** Names for the parts of [getIsotropicScatterPos]: the direction (lines
    142-144), the core position (lines 147-148), the halo position before
    the jitter (lines 150-153) and the jitter (lines 155-157). *)
Definition scatterDir (u v : R) : Vector3 :=
  let theta := 2 * Math.PI * u in
  let phi := acos (2 * v - 1) in
  Vector3.mk (sin phi * cos theta) (sin phi * sin theta) (cos phi).

Definition corePos (u v w : R) : Vector3 :=
  Vector3.add
    (Vector3.multiplyScalar (scatterDir u v) (SCATTER_CONFIG.CORE_RADIUS * Math.cbrt w))
    scatterCenter.

Definition shellPos (u v w : R) : Vector3 :=
  Vector3.add
    (Vector3.multiplyScalar (scatterDir u v)
       (Math.cbrt (w * (Math.pow SCATTER_CONFIG.OUTER_RADIUS 3
                        - Math.pow (SCATTER_CONFIG.CORE_RADIUS * 1.05) 3)
                   + Math.pow (SCATTER_CONFIG.CORE_RADIUS * 1.05) 3)))
    scatterCenter.

Definition jitter (p : Vector3) (seed : R) : Vector3 :=
  let px := Vector3.x p + 0.15 * sin (Vector3.y p * 1.7 + seed) in
  Vector3.mk px (Vector3.y p) (Vector3.z p + 0.15 * cos (px * 1.7 + seed)).

(** A generator whose draws are all one half. *)
Definition halves : Random.Gen := Random.mkGen (fun _ => 1 / 2) 0.

(** Draws that put a halo point on the inner shell radius along x and then
    jitter it towards the centre. *)
Definition inwardJitter : Random.Gen :=
  Random.mkGen (fun n => match n with
                         | 0%nat => 0
                         | 1%nat => 1 / 2
                         | 2%nat => 0
                         | 3%nat => 0
                         | _ => (3 * (PI / 2) - 0.34) / 100
                         end) 0.

(** ** The instance morph engine: [MorphingInstances] (lines 163-205) *)

Module MorphingInstances.

(** [count] is [mesh.count]. *)
Record t : Type := mk {
  count : nat;
  treePositions : list Vector3;
  scatterPositions : list Vector3;
  haloFlags : list bool
}.

(** What [dummy] holds when [updateMatrix()] composes the matrix that
    [setMatrixAt(i, _)] stores: its position and the two Euler angles the
    loop sets (the third angle and the scale keep their defaults). *)
Record Transform : Type := mkTransform {
  position : Vector3;
  rotation_x : R;
  rotation_y : R
}.

(** The body of the loop (lines 182-201) at index [i].  Reading
    [treePositions[i]] or [scatterPositions[i]] past the end gives
    [undefined], and [lerpVectors] then throws: [None].  A missing halo
    flag is [undefined], which the test takes as false. *)
Definition updateAt (m : t) (morphVal time : R) (i : nat) : option Transform :=
  let e := eased morphVal in
  let center := scatterCenter in
  match treePositions m !! i, scatterPositions m !! i with
  | Some t, Some s =>
      let isOuter := default false (haloFlags m !! i) in
      let p0 := Vector3.lerpVectors t s e in
      let p1 :=
        if decide (morphVal > 0.01) then
          if isOuter then
            let noiseX := sin (time * 0.4 + INR i * 0.1) in
            let noiseY := cos (time * 0.3 + INR i * 0.2) in
            Vector3.mk (Vector3.x p0 + noiseX * 0.02 * e)
                       (Vector3.y p0 + noiseY * 0.02 * e)
                       (Vector3.z p0)
          else
            let dir := Vector3.normalize (Vector3.subVectors s center) in
            let noise := sin (time * 2.0 + INR i * 0.1) in
            Vector3.addScaledVector p0 dir (0.05 * e * noise)
        else p0 in
      Some (mkTransform p1 (INR i * 0.1) (INR i * 0.2))
  | _, _ => None
  end.

(** [update(morphVal, time)]: the matrices written, by instance index. *)
Definition update (m : t) (morphVal time : R) : option (list Transform) :=
  mapM (updateAt m morphVal time) (seq 0 (count m)).

(** A manager as [createGroup] and the ribbon loop build it (lines
    348-396): one entry of each array per instance. *)
Definition wellFormed (m : t) : Prop :=
  List.length (treePositions m) = count m /\
  List.length (scatterPositions m) = count m /\
  List.length (haloFlags m) = count m.

End MorphingInstances.

(** Managers of one instance. *)
Definition oneHalo : MorphingInstances.t :=
  MorphingInstances.mk 1 [Vector3.mk 0 1 0] [Vector3.mk 5 0.2 0] [true].

Definition oneCore : MorphingInstances.t :=
  MorphingInstances.mk 1 [Vector3.mk 0 1 0] [Vector3.mk 2 0.2 0] [false].

(** ** The vertex stage of the particle field: [bodyVertexShader]
       (lines 34-93), up to the object-space position [mixedPos] *)

Module BodyVertexShader.

(** The per-vertex inputs that [mixedPos] depends on. *)
Record Attributes : Type := mkAttributes {
  position : Vector3;
  aScatterPosition : Vector3;
  aSeed : R;
  aHalo : R
}.

(** GLSL [pow(b, 3.0)] is used where [b >= 0]. *)
Definition easeInOutCubic (x : R) : R :=
  if decide (x < 0.5)
  then 4.0 * x * x * x
  else 1.0 - Math.pow (-2.0 * x + 2.0) 3 / 2.0.

(** GLSL [mix(x, y, a)] is [x * (1 - a) + y * a] per component. *)
Definition mix (a b : Vector3) (t : R) : Vector3 :=
  Vector3.mk (Vector3.x a * (1 - t) + Vector3.x b * t)
             (Vector3.y a * (1 - t) + Vector3.y b * t)
             (Vector3.z a * (1 - t) + Vector3.z b * t).

(** GLSL [normalize(v)] is [v / length(v)]. *)
Definition normalize (v : Vector3) : Vector3 :=
  Vector3.mk (Vector3.x v / Vector3.length v)
             (Vector3.y v / Vector3.length v)
             (Vector3.z v / Vector3.length v).

(** [main] (lines 53-77): the value of [mixedPos] at line 79. *)
Definition main (uMorph uTime : R) (a : Attributes) : Vector3 :=
  let easedMorph := easeInOutCubic uMorph in
  let mixedPos := mix (position a) (aScatterPosition a) easedMorph in
  let mixedPos :=
    if decide (uMorph < 0.99) then
      let breathe := sin (uTime * 1.2 + Vector3.y mixedPos * 0.5) * 0.02
                     * (1.0 - easedMorph) in
      Vector3.mk (Vector3.x mixedPos + breathe) (Vector3.y mixedPos)
                 (Vector3.z mixedPos + breathe)
    else mixedPos in
  if decide (uMorph > 0.01) then
    let center := Vector3.mk 0.0 SCATTER_CENTER_Y 0.0 in
    if decide (aHalo a > 0.5) then
      let noiseX := sin (uTime * 0.4 + aSeed a * 12.0) in
      let noiseY := cos (uTime * 0.3 + aSeed a * 25.0) in
      let noiseZ := sin (uTime * 0.2 + Vector3.x mixedPos) in
      let drift := Vector3.multiplyScalar
                     (Vector3.mk noiseX (noiseY * 0.5) noiseZ) 0.4 in
      Vector3.add mixedPos (Vector3.multiplyScalar drift easedMorph)
    else
      let dir := normalize (Vector3.subVectors mixedPos center) in
      let dir := if decide (Vector3.length (Vector3.subVectors mixedPos center) < 0.001)
                 then Vector3.mk 0.0 1.0 0.0 else dir in
      let pulse := sin (uTime * 1.5 + aSeed a * 10.0 + Vector3.y mixedPos) in
      Vector3.add mixedPos
        (Vector3.multiplyScalar dir (0.05 * pulse * easedMorph))
  else mixedPos.

(** The attributes the geometry stores for a formation point (lines
    560-567): the halo flag is uploaded as [1.0] or [0.0]. *)
Definition attributesOf (t s : Vector3) (halo : bool) (seed : R) : Attributes :=
  mkAttributes t s seed (if halo then 1.0 else 0.0).

End BodyVertexShader.

(** ** The morph value: the smoothing step of [animate] (lines 413-414) *)

Definition smoothMorph (target currentMorph : R) : R :=
  if decide (Math.abs (target - currentMorph) > 0.001)
  then currentMorph + (target - currentMorph) * 0.05
  else target.

(** [currentMorph] after [n] ticks with the same [target]. *)
Fixpoint ticks (n : nat) (target currentMorph : R) : R :=
  match n with
  | O => currentMorph
  | S n' => ticks n' target (smoothMorph target currentMorph)
  end.

(** ** Photo focus: the selection in [animate] (lines 426-439) *)

Module Focus.

(** [focusStateRef.current]; [id] is [None] for [null]. *)
Record FocusState : Type := mkFocusState { active : bool; id : option nat }.

(** A photo slot as this step sees it: its [idx] (an array index, line
    511) and what [mesh.getWorldPosition] returns on this tick. *)
Record PhotoData : Type := mkPhotoData { idx : nat; worldPosition : Vector3 }.

(** The running minimum of the [forEach] (lines 427-435).  [bestDist] is
    [None] for [Infinity], [bestId] is [None] for [-1]. *)
Record Best : Type := mkBest { bestDist : option R; bestId : option nat }.

Definition visit (camPos : Vector3) (b : Best) (p : PhotoData) : Best :=
  let d := Vector3.distanceTo (worldPosition p) camPos in
  match bestDist b with
  | None => mkBest (Some d) (Some (idx p))
  | Some bd => if decide (d < bd) then mkBest (Some d) (Some (idx p)) else b
  end.

Definition nearest (camPos : Vector3) (photos : list PhotoData) : Best :=
  fold_left (visit camPos) photos (mkBest None None).

(** Lines 426-439.  [camera] is [cameraRef.current], with its position. *)
Definition animateFocus (camera : option Vector3) (photos : list PhotoData)
           (fs : FocusState) : FocusState :=
  match active fs, id fs, photos, camera with
  | true, None, _ :: _, Some camPos =>
      match bestId (nearest camPos photos) with
      | Some b => mkFocusState (active fs) (Some b)
      | None => fs
      end
  | false, _, _, _ => mkFocusState (active fs) None
  | _, _, _, _ => fs
  end.

(** One render tick as the focus state sees it: since the last tick the
    gesture callback may have written [active] ([Some a]) or not
    ([None]); then [animate] runs with the current photos. *)
Record Tick : Type := mkTick {
  activeWrite : option bool;
  camera : option Vector3;
  photos : list PhotoData
}.

Definition tick (t : Tick) (fs : FocusState) : FocusState :=
  animateFocus (camera t) (photos t)
    (mkFocusState (default (active fs) (activeWrite t)) (id fs)).

Definition run (ts : list Tick) (fs : FocusState) : FocusState :=
  fold_left (fun s t => tick t s) ts fs.


(** The distance that [visit] compares. *)
Definition dist (camPos : Vector3) (p : PhotoData) : R :=
  Vector3.distanceTo (worldPosition p) camPos.

(** What the running minimum holds after the photos [seen]. *)
Definition bestOf (camPos : Vector3) (seen : list PhotoData) (b : Best) : Prop :=
  match seen with
  | [] => b = mkBest None None
  | _ => exists p, p ∈ seen /\ b = mkBest (Some (dist camPos p)) (Some (idx p)) /\
                   forall q, q ∈ seen -> dist camPos p <= dist camPos q
  end.

(** Two photo slots and the camera where line 320 puts it. *)
Definition twoPhotos : list PhotoData :=
  [mkPhotoData 0 (Vector3.mk 0 0 0); mkPhotoData 1 (Vector3.mk 0 0 10)].

Definition cameraPosition : Vector3 := Vector3.mk 0 1.5 22.

End Focus.

(** ** Selective bloom: [darken], [restore] and the two render passes
       (lines 324-326, 402-404, 474-475) *)

Module Bloom.

Definition BLOOM_LAYER : Z := 1.

(** [THREE.Layers]: a 32-bit mask. *)
Module Layers.
Definition set (channel : Z) : Z := Z.land (Z.shiftl 1 channel) (2 ^ 32 - 1).
Definition enable (mask channel : Z) : Z :=
  Z.lor mask (Z.land (Z.shiftl 1 channel) (2 ^ 32 - 1)).
Definition test (mask other : Z) : bool := negb (Z.land mask other =? 0)%Z.
End Layers.

Definition bloomLayer : Z := Layers.set BLOOM_LAYER.

Section Scene.

(** A material is a reference to an object; [darkMaterial] is one of
    them. *)
Context {Material : Type} (darkMaterial : Material).

(** The fields of an [Object3D] that the traversals touch.  Only an
    object with [isMesh] has its [material] read. *)
Record Props : Type := mkProps {
  uuid : string;
  isMesh : bool;
  layers : Z;
  material : Material
}.

Inductive Object3D : Type :=
| Node (own : Props) (children : list Object3D).

(** [traverse(callback)]: the callback on the object, then on every
    child in order.  The callbacks here write to the visited object's
    own fields and to [materials], the object used as a map from uuid to
    material. *)
Fixpoint traverse (callback : Props -> gmap string Material -> Props * gmap string Material)
         (o : Object3D) (m : gmap string Material)
  : Object3D * gmap string Material :=
  match o with
  | Node p cs =>
      let '(p', m1) := callback p m in
      let '(cs', m2) :=
        (fix each (l : list Object3D) (m : gmap string Material) :=
           match l with
           | [] => ([], m)
           | c :: l' =>
               let '(c', m') := traverse callback c m in
               let '(l'', m'') := each l' m' in
               (c' :: l'', m'')
           end) cs m1 in
      (Node p' cs', m2)
  end.

Definition darken (o : Props) (materials : gmap string Material)
  : Props * gmap string Material :=
  if isMesh o && negb (Layers.test (layers o) bloomLayer)
  then (mkProps (uuid o) (isMesh o) (layers o) darkMaterial,
        <[uuid o := material o]> materials)
  else (o, materials).

Definition restore (o : Props) (materials : gmap string Material)
  : Props * gmap string Material :=
  match materials !! uuid o with
  | Some m => (mkProps (uuid o) (isMesh o) (layers o) m,
               delete (uuid o) materials)
  | None => (o, materials)
  end.

(** The objects of a scene in traversal order. *)
Fixpoint objects (o : Object3D) : list Props :=
  match o with
  | Node p cs => p :: flat_map objects cs
  end.

(** What a render pass is given: each object with the material it has at
    that moment. *)
Definition rendered (scene : Object3D) : list (string * Material) :=
  map (fun p => (uuid p, material p)) (objects scene).

Record Frame : Type := mkFrame {
  sceneAfter : Object3D;
  materialsAfter : gmap string Material;
  bloomPassInput : list (string * Material);
  finalPassInput : list (string * Material)
}.

(** Lines 474-475: [scene.traverse(darken); bloomComposer.render();
    scene.traverse(restore); finalComposer.render()]. *)
Definition renderFrame (scene : Object3D) (materials : gmap string Material) : Frame :=
  let '(s1, m1) := traverse darken scene materials in
  let bloomIn := rendered s1 in
  let '(s2, m2) := traverse restore s1 m1 in
  let finalIn := rendered s2 in
  mkFrame s2 m2 bloomIn finalIn.

(** Induction over a scene graph: a property holds of a node when it holds
    of all its children. *)
Fixpoint Object3D_forall_ind (P : Object3D -> Prop)
         (step : forall p cs, Forall P cs -> P (Node p cs))
         (o : Object3D) : P o :=
  match o with
  | Node p cs =>
      step p cs
        ((fix all (l : list (Object3D)) : Forall P l :=
            match l with
            | [] => Forall_nil_2 P
            | c :: l' => Forall_cons_2 P c l' (Object3D_forall_ind P step c) (all l')
            end) cs)
  end.

(** The children loop of [traverse]. *)
Fixpoint traverseAll (callback : Props -> gmap string Material
                                 -> Props * gmap string Material)
         (l : list (Object3D)) (m : gmap string Material)
  : list (Object3D) * gmap string Material :=
  match l with
  | [] => ([], m)
  | c :: l' =>
      let '(c', m') := traverse callback c m in
      let '(l'', m'') := traverseAll callback l' m' in
      (c' :: l'', m'')
  end.

(** The test of [darken] (line 403). *)
Definition darkens (p : Props) : bool :=
  isMesh p && negb (Layers.test (layers p) bloomLayer).

Definition darkened (p : Props) : Props :=
  if darkens p then mkProps (uuid p) (isMesh p) (layers p) darkMaterial else p.

Definition recorded (m : gmap string Material) (p : Props) : gmap string Material :=
  if darkens p then <[uuid p := material p]> m else m.

Definition forgotten (m : gmap string Material) (p : Props) : gmap string Material :=
  delete (uuid p) m.

Fixpoint mapObjects (f : Props -> Props) (o : Object3D)
  : Object3D :=
  match o with
  | Node p cs => Node (f p) (map (mapObjects f) cs)
  end.

(** A map that holds, for the objects [l], exactly the records of the
    darkened ones. *)
Definition holds (l : list Props) (m : gmap string Material) : Prop :=
  forall q, q ∈ l -> m !! uuid q = if darkens q then Some (material q) else None.

End Scene.

Arguments Props : clear implicits.
Arguments Object3D : clear implicits.
Arguments Frame : clear implicits.

(** A scene: the root group with an ornament mesh on the default layer and
    the ribbon mesh, which is also on the bloom layer. *)
Definition sampleScene : Object3D string :=
  Node (mkProps "root" false 1 "none")
    [Node (mkProps "ornament" true 1 "red") [];
     Node (mkProps "ribbon" true (Layers.enable 1 BLOOM_LAYER) "gold") []].

End Bloom.

(** ** Gesture classification: [classifyGesture] (lines 613-621) and the
       hand it yields (lines 646-647) *)

Module Classify.

Import Gesture.

(** A [NormalizedLandmark]; [classifyGesture] reads [x] and [y] only. *)
Record NormalizedLandmark : Type := mkLandmark { x : R; y : R; z : R }.

(** [dist(i, j)] (line 614).  An index past the end reads [undefined], whose
    [.x] throws: [None]. *)
Definition dist (landmarks : list NormalizedLandmark) (i j : nat) : option R :=
  match landmarks !! i, landmarks !! j with
  | Some a, Some b =>
      Some (sqrt (Math.pow (x a - x b) 2 + Math.pow (y a - y b) 2))
  | _, _ => None
  end.

(** One entry of [isExtended] (line 615): the tip [tip] is more than 1.1
    times as far from the wrist as the joint [joint]. *)
Definition extended (landmarks : list NormalizedLandmark) (tip joint : nat)
  : option bool :=
  match dist landmarks 0 tip, dist landmarks 0 joint with
  | Some dt, Some dj => Some (bool_decide (dt > dj * 1.1))
  | _, _ => None
  end.

(** Lines 616-620, on the five entries of [isExtended]. *)
Definition classifyFlags (e0 e1 e2 e3 e4 : bool) : GestureType :=
  if negb e1 && negb e2 && negb e3 && negb e4 then FIST
  else if e1 && e2 && e3 && e4 then OPEN_PALM
  else if e1 && e2 && negb e3 && negb e4 then V_SIGN
  else if e1 && negb e2 && negb e3 && negb e4 then INDEX_UP
  else UNKNOWN.

Definition classifyGesture (landmarks : list NormalizedLandmark)
  : option GestureType :=
  match extended landmarks 4 3, extended landmarks 8 6, extended landmarks 12 10,
        extended landmarks 16 14, extended landmarks 20 18 with
  | Some e0, Some e1, Some e2, Some e3, Some e4 =>
      Some (classifyFlags e0 e1 e2 e3 e4)
  | _, _, _, _, _ => None
  end.

(** Lines 645-647: what [predictWebcam] takes from a detection result whose
    first hand has the landmarks [landmarks]. *)
Definition handOf (landmarks : list NormalizedLandmark) : option Hand :=
  match classifyGesture landmarks, landmarks !! 0%nat with
  | Some g, Some w => Some (mkHand g (x w, y w))
  | _, _ => None
  end.

(** The hand moved by [(a, b)] and scaled by [k] about the origin, as a hand
    nearer to or farther from the camera is. *)
Definition similar (k a b : R) (p : NormalizedLandmark) : NormalizedLandmark :=
  mkLandmark (k * x p + a) (k * y p + b) (z p).

(** The landmarks that decide the class: the wrist, and the joint and the
    tip of the index, middle, ring and little finger. *)
Definition deciding : list nat := [0; 6; 8; 10; 12; 14; 16; 18; 20]%nat.

End Classify.

Module Frames.

Import Gesture.

(** A frame in which no hand was detected (line 668). *)
Definition lost (t : R) : Frame := mkFrame t None.

(** The frames of a run in which a hand was detected. *)
Definition withHand (fs : list Frame) : list Frame :=
  filter (fun f => is_Some (landmarks f)) fs.

(** A hand of 21 coinciding landmarks, and the same hand with the thumb tip
    elsewhere. *)
Definition closedHand : list Classify.NormalizedLandmark :=
  replicate 21 (Classify.mkLandmark 0.5 0.5 0).

Definition thumbOut : list Classify.NormalizedLandmark :=
  <[4%nat := Classify.mkLandmark 0.9 0.1 0]> closedHand.

(** Two committing FIST frames half a second apart. *)
Definition twoFists : list Frame :=
  [held FIST 1000 (0.5, 0.5); held FIST 1500 (0.5, 0.5)].

End Frames.

(** ** The component's control state and its callbacks: the pointer
       handlers (lines 585-603), the target effect (line 611), the video
       callback, and the control part of [animate] (lines 411-439) *)

Module App.

(** The refs and state that the callbacks share.  [control] holds what
    [predictWebcam] writes, among it the two orbit targets of
    [dragRef.current]; [isDragging], [lastX], [lastY], [rotationY] and
    [rotationX] are the other fields of [dragRef.current] in use;
    [targetMorph] is the React state of line 225, [stateRefTarget] is
    [canvas.stateRef.target], [currentMorph] the variable of line 399 and
    [focusId] is [focusStateRef.current.id]. *)
Record State : Type := mkState {
  control : Gesture.Control;
  isDragging : bool;
  lastX : R;
  lastY : R;
  rotationY : R;
  rotationX : R;
  targetMorph : R;
  stateRefTarget : R;
  currentMorph : R;
  focusId : option nat
}.

Definition initial : State :=
  mkState Gesture.initialControl false 0 0 0 0 0 0 0 None.

(** What the handlers read of a pointer event; [onButton] is
    [e.target.closest('button')] being an element. *)
Record PointerEvent : Type := mkPointerEvent {
  clientX : R;
  clientY : R;
  onButton : bool
}.

Definition withDrag (d : Gesture.DragTargets) (c : Gesture.Control) : Gesture.Control :=
  Gesture.mkControl (Gesture.gestureState c) (Gesture.handTrackingRef c) d
                    (Gesture.focusActive c) (Gesture.isHandRotating c)
                    (Gesture.debugGesture c).

(** Lines 585-591. *)
Definition handlePointerDown (e : PointerEvent) (s : State) : State :=
  if onButton e then s
  else mkState (control s) true (clientX e) (clientY e) (rotationY s) (rotationX s)
               (targetMorph s) (stateRefTarget s) (currentMorph s) (focusId s).

(** Lines 592-599. *)
Definition handlePointerMove (e : PointerEvent) (s : State) : State :=
  if negb (isDragging s) then s
  else
    let d := Gesture.dragRef (control s) in
    let yaw := Gesture.yawTarget d + (clientX e - lastX s) * 0.005 in
    let pitch := Gesture.pitchTarget d + (clientY e - lastY s) * 0.005 in
    let pitch := Math.max (-0.6) (Math.min 0.6 pitch) in
    mkState (withDrag (Gesture.mkDragTargets yaw pitch) (control s))
            (isDragging s) (clientX e) (clientY e) (rotationY s) (rotationX s)
            (targetMorph s) (stateRefTarget s) (currentMorph s) (focusId s).

(** Lines 600-603; also the handler of [onPointerLeave] (line 680). *)
Definition handlePointerUp (s : State) : State :=
  mkState (control s) false (lastX s) (lastY s) (rotationY s) (rotationX s)
          (targetMorph s) (stateRefTarget s) (currentMorph s) (focusId s).

(** [setTargetMorph(v)] for each dispatched action, in order. *)
Definition applyActions (acts : list Gesture.Action) (target : R) : R :=
  fold_left (fun _ a => match a with Gesture.SetTargetMorph v => v end) acts target.

(** The video callback on the shared state. *)
Definition onVideoFrame (f : Gesture.Frame) (s : State) : State :=
  let '(c, acts) := Gesture.predictWebcam f (control s) in
  mkState c (isDragging s) (lastX s) (lastY s) (rotationY s) (rotationX s)
          (applyActions acts (targetMorph s)) (stateRefTarget s) (currentMorph s)
          (focusId s).

(** Line 611: the effect that copies [targetMorph] to the canvas. *)
Definition targetEffect (s : State) : State :=
  mkState (control s) (isDragging s) (lastX s) (lastY s) (rotationY s) (rotationX s)
          (targetMorph s) (targetMorph s) (currentMorph s) (focusId s).

(** The smoothing of an orbit angle (lines 417-418). *)
Definition smoothRotation (target rotation : R) : R :=
  rotation + (target - rotation) * 0.1.

(** Lines 411-439 of [animate]: the morph value, the orbit angles and the
    focused identity. *)
Definition animate (camera : option Vector3) (photos : list Focus.PhotoData)
           (s : State) : State :=
  let d := Gesture.dragRef (control s) in
  mkState (control s) (isDragging s) (lastX s) (lastY s)
          (smoothRotation (Gesture.yawTarget d) (rotationY s))
          (smoothRotation (Gesture.pitchTarget d) (rotationX s))
          (targetMorph s) (stateRefTarget s)
          (smoothMorph (stateRefTarget s) (currentMorph s))
          (Focus.id (Focus.animateFocus camera photos
                       (Focus.mkFocusState (Gesture.focusActive (control s)) (focusId s)))).

(** Line 419: the rotation given to the root group at elapsed time [time]. *)
Definition rootRotationY (time : R) (s : State) : R :=
  rotationY s + time * 0.05.

(** The callbacks run one at a time, in any order. *)
Inductive Event : Type :=
| PointerDown (e : PointerEvent)
| PointerMove (e : PointerEvent)
| PointerUp
| VideoFrame (f : Gesture.Frame)
| TargetEffect
| AnimationFrame (camera : option Vector3) (photos : list Focus.PhotoData).

Definition step (ev : Event) (s : State) : State :=
  match ev with
  | PointerDown e => handlePointerDown e s
  | PointerMove e => handlePointerMove e s
  | PointerUp => handlePointerUp s
  | VideoFrame f => onVideoFrame f s
  | TargetEffect => targetEffect s
  | AnimationFrame camera photos => animate camera photos s
  end.

Definition run (evs : list Event) (s : State) : State :=
  fold_left (fun s ev => step ev s) evs s.

(** [n] render ticks with the same camera and photos. *)
Definition frames (n : nat) (camera : option Vector3) (photos : list Focus.PhotoData)
  : list Event :=
  replicate n (AnimationFrame camera photos).

(** The orbit angle after [n] ticks towards a fixed target. *)
Fixpoint rotationTicks (n : nat) (target rotation : R) : R :=
  match n with
  | O => rotation
  | S n' => rotationTicks n' target (smoothRotation target rotation)
  end.

(** The events under which a focused photo stays focused: everything but a
    video frame that loses the hand or shows another class. *)
Definition keepsPointing (ev : Event) : Prop :=
  match ev with
  | VideoFrame f =>
      exists t w, f = Gesture.held Gesture.INDEX_UP t w
  | _ => True
  end.

(** A hand that has shown INDEX_UP for eight frames, with photos loaded. *)
Definition pointing : State :=
  mkState (Gesture.mkControl (Gesture.mkGestureState Gesture.INDEX_UP 7 Gesture.UNKNOWN 0)
             (Some (0.5, 0.5)) (Gesture.mkDragTargets 0 0) false false None)
          false 0 0 0 0 0 0 0 None.

(** What every reachable state satisfies. *)
Definition invariant (s : State) : Prop :=
  -0.6 <= Gesture.pitchTarget (Gesture.dragRef (control s)) <= 0.6 /\
  -0.6 <= rotationX s <= 0.6 /\
  (targetMorph s = 0 \/ targetMorph s = 1) /\
  (stateRefTarget s = 0 \/ stateRefTarget s = 1) /\
  0 <= currentMorph s <= 1.

End App.

(** ** The formations: [createGroup] (lines 348-369), the ribbon (lines
       376-396) and the photo slots of [handlePhotoUpload] (lines 494-539) *)

Module Formation.

Definition treeHeight : R := 12.
Definition treeBaseWidth : R := 4.2.
Definition treeBottomY : R := -5.0.

(** [for (let i = start; i < start + n; i++) body(i)], collecting what each
    round pushes. *)
Fixpoint forLoop {A : Type} (n : nat) (body : nat -> Random.M A) (start : nat)
  : Random.M (list A) :=
  match n with
  | O => Random.ret []
  | S n' =>
      a <-$ body start ;;
      rest <-$ forLoop n' body (S start) ;;
      Random.ret (a :: rest)
  end.

(** One instance: its tree position and its scatter point. *)
Record Instance : Type := mkInstance { tree : Vector3; scatter : ScatterPoint }.

(** The manager that holds the instances pushed by a loop. *)
Definition managerOf (l : list Instance) : MorphingInstances.t :=
  MorphingInstances.mk (List.length l) (tree <$> l)
    (pos <$> (scatter <$> l)) (isHalo <$> (scatter <$> l)).

(** The body of the loop of [createGroup] (lines 354-362). *)
Definition ornament (i : nat) : Random.M Instance :=
  hPercent <-$ Random.random ;;
  let ty := treeBottomY + hPercent * treeHeight in
  w <-$ Random.random ;;
  let r := (1 - hPercent) * treeBaseWidth * (0.92 + 0.1 * w) in
  a <-$ Random.random ;;
  let theta := a * Math.PI * 2 in
  c <-$ Random.random ;;
  let isCore := bool_decide (c < 0.70) in
  sp <-$ getIsotropicScatterPos (Some isCore) ;;
  Random.ret (mkInstance (Vector3.mk (r * cos theta) ty (r * sin theta)) sp).

(** [createGroup(color, count)]: the manager it returns. *)
Definition createGroup (count : nat) : Random.M MorphingInstances.t :=
  l <-$ forLoop count ornament 0 ;;
  Random.ret (managerOf l).

Definition ribbonCount : nat := 1000.

(** The tree position of ribbon instance [i] (lines 382-386). *)
Definition ribbonTree (i : nat) : Vector3 :=
  let t := INR i / INR ribbonCount in
  let ty := treeBottomY + t * treeHeight in
  let r := (1 - t) * treeBaseWidth * 1.06 in
  let theta := t * Math.PI * 2 * 9.5 in
  Vector3.mk (r * cos theta) ty (r * sin theta).

(** The body of the ribbon loop (lines 382-390). *)
Definition ribbonInstance (i : nat) : Random.M Instance :=
  c <-$ Random.random ;;
  let isCore := bool_decide (c < 0.60) in
  sp <-$ getIsotropicScatterPos (Some isCore) ;;
  Random.ret (mkInstance (ribbonTree i) sp).

Definition ribbonManager : Random.M MorphingInstances.t :=
  l <-$ forLoop ribbonCount ribbonInstance 0 ;;
  Random.ret (managerOf l).

(** [files.slice(0, 12)] (line 496), on the number of chosen files. *)
Definition acceptedFiles (chosen : nat) : nat := Nat.min chosen 12.

(** A photo slot as the load callback builds it (lines 513-536), for file
    [idx] of [files] accepted files whose image has the aspect ratio
    [aspect]. *)
Record PhotoSlot : Type := mkPhotoSlot {
  treePos : Vector3;
  scatterPos : Vector3;
  idx : nat;
  baseScale : Vector3
}.

Definition photoSlot (files idx : nat) (aspect : R) : Random.M PhotoSlot :=
  let scaleVec := Vector3.mk (0.65 * aspect) 0.65 1 in
  let t := INR idx / INR files in
  let ty := treeBottomY + t * treeHeight in
  let tr := (1 - t) * treeBaseWidth * 1.2 in
  let theta := t * Math.PI * 2 * 9.5 in
  let treePos := Vector3.mk (tr * cos theta) ty (tr * sin theta) in
  let rMin := SCATTER_CONFIG.CORE_RADIUS * 1.25 in
  let rMax := SCATTER_CONFIG.OUTER_RADIUS in
  d <-$ Random.random ;;
  let sr := Math.cbrt (d * (Math.pow rMax 3 - Math.pow rMin 3) + Math.pow rMin 3) in
  u <-$ Random.random ;;
  v <-$ Random.random ;;
  let sTheta := 2 * Math.PI * u in
  let sPhi := acos (2 * v - 1) in
  let scatterPos := Vector3.mk (sr * sin sPhi * cos sTheta)
                               (sr * sin sPhi * sin sTheta + SCATTER_CENTER_Y)
                               (sr * cos sPhi) in
  Random.ret (mkPhotoSlot treePos scatterPos idx scaleVec).

(** The distance of a point from the axis of the tree. *)
Definition axisDistance (p : Vector3) : R :=
  sqrt (Vector3.x p * Vector3.x p + Vector3.z p * Vector3.z p).

(** The radius of the cone of base width [width] at height [ty]. *)
Definition coneRadius (width ty : R) : R :=
  (1 - (ty - treeBottomY) / treeHeight) * width.

(** What holds of an ornament: it hangs on the tree between the cone of
    base width [0.92 * 4.2] and that of base width [1.02 * 4.2], and its
    scatter point is within the radius that its halo flag stands for. *)
Definition ornamentOk (a : Instance) : Prop :=
  treeBottomY <= Vector3.y (tree a) <= treeBottomY + treeHeight /\
  coneRadius (treeBaseWidth * 0.92) (Vector3.y (tree a))
  <= axisDistance (tree a)
  <= coneRadius (treeBaseWidth * 1.02) (Vector3.y (tree a)) /\
  (isHalo (scatter a) = false ->
   Vector3.distanceTo (pos (scatter a)) scatterCenter <= SCATTER_CONFIG.CORE_RADIUS) /\
  (isHalo (scatter a) = true ->
   1.05 * SCATTER_CONFIG.CORE_RADIUS - 0.15 * sqrt 2
   <= Vector3.distanceTo (pos (scatter a)) scatterCenter
   <= SCATTER_CONFIG.OUTER_RADIUS + 0.15 * sqrt 2).

End Formation.

(** ** The photo store: [handlePhotoUpload] and its load callbacks (lines
       494-539), as they write [photoDataRef.current] *)

Module Upload.

(** The callback that [loader.load] is given for one file (lines 507-536).
    It has captured [idx] and [files]; it runs when the texture has loaded,
    at most once. *)
Record Callback : Type := mkCallback { file : nat; files : nat }.

(** [photoDataRef.current], and the callbacks of the loads that have been
    started and have not finished. *)
Record Store : Type := mkStore {
  photoData : list Formation.PhotoSlot;
  pending : list Callback
}.

Definition initial : Store := mkStore [] [].

(** [handlePhotoUpload] for [chosen] files; [None] where line 495 returns.
    The photos are removed, [photoDataRef.current] becomes a new empty array
    (line 508), and a load is started for each accepted file (lines
    511-513).  The loads started before go on. *)
Definition handlePhotoUpload (chosen : option nat) (st : Store) : Store :=
  match chosen with
  | None => st
  | Some n =>
      let accepted := Formation.acceptedFiles n in
      mkStore [] (pending st ++ ((fun idx => mkCallback idx accepted) <$> seq 0 accepted))
  end.

(** The pending callback number [k] runs, for an image of aspect ratio
    [aspect]: it pushes its slot to the array that [photoDataRef.current]
    holds now (line 536). *)
Definition onLoad (k : nat) (aspect : R) (st : Store) : Random.M Store :=
  match pending st !! k with
  | Some c =>
      p <-$ Formation.photoSlot (files c) (file c) aspect ;;
      Random.ret (mkStore (photoData st ++ [p]) (delete k (pending st)))
  | None => Random.ret st
  end.

Inductive Event : Type :=
| Chosen (chosen : option nat)
| Loaded (k : nat) (aspect : R).

Definition step (ev : Event) (st : Store) : Random.M Store :=
  match ev with
  | Chosen chosen => Random.ret (handlePhotoUpload chosen st)
  | Loaded k aspect => onLoad k aspect st
  end.

Fixpoint run (evs : list Event) (st : Store) : Random.M Store :=
  match evs with
  | [] => Random.ret st
  | ev :: evs' => st' <-$ step ev st ;; run evs' st'
  end.



(** A slot as the focus search sees it, [world] being what
    [mesh.getWorldPosition] gives for it on this tick. *)
Definition seen (world : Formation.PhotoSlot -> Vector3) (p : Formation.PhotoSlot)
  : Focus.PhotoData :=
  Focus.mkPhotoData (Formation.idx p) (world p).



End Upload.

(** ** The photos in [animate] (lines 441-465): target and damping *)

Module Photo.

Definition PHOTO_DAMP : R := 0.08.

(** [Vector3.lerp(v, alpha)]: [this += (v - this) * alpha]. *)
Definition lerp (a v : Vector3) (alpha : R) : Vector3 :=
  Vector3.mk (Vector3.x a + (Vector3.x v - Vector3.x a) * alpha)
             (Vector3.y a + (Vector3.y v - Vector3.y a) * alpha)
             (Vector3.z a + (Vector3.z v - Vector3.z a) * alpha).

(** What the loop moves of [p.mesh]. *)
Record Mesh : Type := mkMesh { position : Vector3; scale : Vector3 }.

(** Lines 445-456.  [focusPoint] is the point four units in front of the
    camera in the coordinates of the photo group (lines 448-450), there when
    the camera and the group are. *)
Definition target (p : Formation.PhotoSlot) (focusId : option nat)
           (focusPoint : option Vector3) (easedMorph time : R)
  : Vector3 * Vector3 :=
  let q := Vector3.lerpVectors (Formation.treePos p) (Formation.scatterPos p)
                               easedMorph in
  let unfocused :=
    (Vector3.mk (Vector3.x q)
                (Vector3.y q + sin (time * 0.5 + INR (Formation.idx p)) * 0.08)
                (Vector3.z q),
     Formation.baseScale p) in
  match focusPoint with
  | Some worldTarget =>
      if decide (Some (Formation.idx p) = focusId)
      then (worldTarget, Vector3.multiplyScalar (Formation.baseScale p) 2.5)
      else unfocused
  | None => unfocused
  end.

(** Lines 457-458. *)
Definition move (m : Mesh) (tgt : Vector3 * Vector3) : Mesh :=
  mkMesh (lerp (position m) (fst tgt) PHOTO_DAMP) (lerp (scale m) (snd tgt) PHOTO_DAMP).

(** [n] ticks towards the same target. *)
Fixpoint moves (n : nat) (m : Mesh) (tgt : Vector3 * Vector3) : Mesh :=
  match n with
  | O => m
  | S n' => moves n' (move m tgt) tgt
  end.

End Photo.

(** ** The wish text (lines 25-31 and 270-282) *)

Module Wish.

Definition WISH_LINES : list string :=
  ["Merry Christmas 🎄"; "Warm Cheers from Hoenergy 🥂"; "Happy New Year 🎉";
   "Stay Energized ⚡"; "Good Luck 🍀"]%string.

(** The update of line 275, run by the interval every 1.5 seconds. *)
Definition next (prev : nat) : nat := (prev + 1) mod List.length WISH_LINES.

(** [wishIndex] after [n] runs of the interval; the effect sets it to 0 when
    the displayed class becomes V_SIGN. *)
Definition after (n : nat) : nat := Nat.iter n next 0%nat.

(** The text of line 760. *)
Definition shown (n : nat) : option string := WISH_LINES !! after n.

End Wish.

(** ** The rest of the particle shaders: the varyings of the vertex stage
       (lines 82-91) and the fragment stage (lines 102-116) *)

Module BodyShading.

(** GLSL [clamp(x, lo, hi)] is [min(max(x, lo), hi)]; [mix] on numbers. *)
Definition clamp (v lo hi : R) : R := Rmin (Rmax v lo) hi.
Definition mix (a b t : R) : R := a * (1 - t) + b * t.

(** Line 82, on [mixedPos.y]. *)
Definition height (y : R) : R := clamp ((y + 5.0) / 12.0) 0.0 1.0.

(** Lines 87-90; [depth] is [-mvPosition.z]. *)
Definition sizeGradient (h : R) : R := mix 1.2 0.6 h.
Definition outerScale (aHalo : R) : R := if decide (aHalo > 0.5) then 0.7 else 1.0.
Definition pointSize (uSizeScale depth h aHalo : R) : R :=
  uSizeScale * (15.0 / depth) * sizeGradient h * outerScale aHalo.

(** Line 91. *)
Definition vColor (aColor : Vector3) (h : R) : Vector3 :=
  Vector3.multiplyScalar aColor (mix 1.0 0.5 h).

(** What the fragment stage reads. *)
Record Fragment : Type := mkFragment {
  pointCoord : R * R;
  fColor : Vector3;
  vHeight : R;
  vSpark : R;
  vSeed : R
}.

(** [main] of the fragment shader: [None] for [discard], else the colour
    and the alpha of [gl_FragColor]. *)
Definition fragment (uOpacity uTime : R) (f : Fragment) : option (Vector3 * R) :=
  let cx := fst (pointCoord f) - 0.5 in
  let cy := snd (pointCoord f) - 0.5 in
  let dist := sqrt (cx * cx + cy * cy) in
  if decide (dist > 0.5) then None
  else
    let baseAlpha := uOpacity * mix 0.7 0.35 (vHeight f) in
    let brightnessMult := mix 1.0 2.2 (vSpark f) in
    let brightnessMult :=
      if decide (vSpark f > 0.5)
      then brightnessMult * (0.85 + 0.15 * sin (uTime * 2.0 + vSeed f * 10.0))
      else brightnessMult in
    let finalColor := Vector3.multiplyScalar (fColor f) brightnessMult in
    let finalAlpha := baseAlpha * mix 1.0 1.4 (vSpark f) in
    let finalColor := Vector3.mk (Rmin (Vector3.x finalColor) 0.95)
                                 (Rmin (Vector3.y finalColor) 0.95)
                                 (Rmin (Vector3.z finalColor) 0.95) in
    Some (finalColor, finalAlpha).

End BodyShading.

Module BloomFrames.

Import Bloom.

(** The scene and [materials] after [n] frames (lines 474-475, once per
    [animate]). *)
Definition after {Material : Type} (darkMaterial : Material) (n : nat)
           (scene : Object3D Material) (materials : gmap string Material)
  : Object3D Material * gmap string Material :=
  Nat.iter n (fun st => let f := renderFrame darkMaterial (fst st) (snd st) in
                        (sceneAfter f, materialsAfter f)) (scene, materials).

End BloomFrames.

(** ** The particle field: the effect on [perfMode] (lines 541-583) *)

Module Body.

Set Warnings "-abstract-large-number".

Inductive PerformanceMode : Type := High | Medium | Low.

(** Line 543. *)
Definition pointCount (perfMode : PerformanceMode) : nat :=
  match perfMode with High => 6000 | Medium => 4000 | Low => 2000 end.

(** Line 544. *)
Definition bloomStrength (perfMode : PerformanceMode) : R :=
  match perfMode with High => 0.45 | Medium => 0.35 | Low => 0.25 end.

(** The attributes of one point, as the loop writes them to the six
    buffers at index [i] (lines 556-567). *)
Record Point : Type := mkPoint {
  bodyPos : Vector3;
  bodyScatter : Vector3;
  bodyColors : Vector3;
  bodySpark : R;
  bodySeed : R;
  bodyHalo : R
}.

Definition point (i : nat) : Random.M Point :=
  a <-$ Random.random ;;
  let hBias := Math.pow a 2 in
  let ty := Formation.treeBottomY + hBias * Formation.treeHeight in
  b <-$ Random.random ;;
  c <-$ Random.random ;;
  let r := (1 - hBias) * Formation.treeBaseWidth * (0.86 + 0.14 * b)
           * (0.90 + 0.10 * sin (ty * 4.0 + c * 6.0)) in
  d <-$ Random.random ;;
  let theta := d * Math.PI * 2 in
  e <-$ Random.random ;;
  let isCore := bool_decide (e < SCATTER_CONFIG.CORE_RATIO) in
  sp <-$ getIsotropicScatterPos (Some isCore) ;;
  f <-$ Random.random ;;
  g <-$ Random.random ;;
  h <-$ Random.random ;;
  Random.ret
    (mkPoint (Vector3.mk (r * cos theta) ty (r * sin theta))
             (pos sp)
             (Vector3.mk 0.1 (0.6 + f * 0.3) 0.2)
             (if decide (g > 0.9) then 1.0 else 0.0)
             h
             (if isHalo sp then 1.0 else 0.0)).

(** The points of the geometry for a mode. *)
Definition points (perfMode : PerformanceMode) : Random.M (list Point) :=
  Formation.forLoop (pointCount perfMode) point 0.

(** The buffer of a three-component attribute: three numbers per point. *)
Definition buffer3 (f : Point -> Vector3) (l : list Point) : list R :=
  flat_map (fun p => [Vector3.x (f p); Vector3.y (f p); Vector3.z (f p)]) l.

(** What the vertex stage is given for a point. *)
Definition attributes (p : Point) : BodyVertexShader.Attributes :=
  BodyVertexShader.mkAttributes (bodyPos p) (bodyScatter p) (bodySeed p) (bodyHalo p).

(** What holds of every point of the field. *)
Definition pointOk (p : Point) : Prop :=
  Formation.treeBottomY <= Vector3.y (bodyPos p)
  <= Formation.treeBottomY + Formation.treeHeight /\
  Formation.axisDistance (bodyPos p)
  <= Formation.coneRadius Formation.treeBaseWidth (Vector3.y (bodyPos p)) /\
  bodyColors p = Vector3.mk 0.1 (Vector3.y (bodyColors p)) 0.2 /\
  0.6 <= Vector3.y (bodyColors p) < 0.9 /\
  (bodySpark p = 0 \/ bodySpark p = 1) /\
  0 <= bodySeed p < 1 /\
  (bodyHalo p = 0 /\
   Vector3.distanceTo (bodyScatter p) scatterCenter <= SCATTER_CONFIG.CORE_RADIUS
   \/
   bodyHalo p = 1 /\
   1.05 * SCATTER_CONFIG.CORE_RADIUS - 0.15 * sqrt 2
   <= Vector3.distanceTo (bodyScatter p) scatterCenter
   <= SCATTER_CONFIG.OUTER_RADIUS + 0.15 * sqrt 2).

End Body.

(* ================================================================== *)
(** * Properties *)
(* ================================================================== *)

Section RealArithmetic.

Lemma cube_monotone (a b : R) : a <= b -> a * a * a <= b * b * b.
Proof.
  intros H.
  assert (Hq : 0 <= a * a + a * b + b * b) by nra.
  assert (Hf : b * b * b - a * a * a = (b - a) * (a * a + a * b + b * b)) by ring.
  assert (0 <= (b - a) * (a * a + a * b + b * b)) by (apply Rmult_le_pos; lra).
  lra.
Qed.

End RealArithmetic.

Section EasingProperties.

Lemma eased_low (v : R) : v < 0.5 -> eased v = 4 * v * v * v.
Proof. intros H. unfold eased. destruct (decide (v < 0.5)); lra. Qed.

Lemma eased_high (v : R) :
  0.5 <= v -> eased v = 1 - (2 - 2 * v) * (2 - 2 * v) * (2 - 2 * v) / 2.
Proof.
  intros H. unfold eased, Math.pow. destruct (decide (v < 0.5)); [lra|]. simpl. lra.
Qed.

Lemma eased_monotone (a b : R) : a <= b -> eased a <= eased b.
Proof.
  intros H.
  destruct (Rlt_dec a 0.5) as [Ha|Ha]; destruct (Rlt_dec b 0.5) as [Hb|Hb].
  - rewrite !eased_low by assumption. pose proof (cube_monotone a b H). lra.
  - rewrite eased_low by assumption. rewrite eased_high by lra.
    pose proof (cube_monotone a 0.5 ltac:(lra)).
    pose proof (cube_monotone (2 - 2 * b) 1 ltac:(lra)).
    lra.
  - lra.
  - rewrite !eased_high by lra.
    pose proof (cube_monotone (2 - 2 * b) (2 - 2 * a) ltac:(lra)). lra.
Qed.

Lemma easeInOutCubic_eased (v : R) : BodyVertexShader.easeInOutCubic v = eased v.
Proof. reflexivity. Qed.

End EasingProperties.

(** C2. The easing function, [4x³] below one half and [1 - (-2x+2)³/2] from
    there on, is monotonic non-decreasing on [[0,1]], and takes the values
    0, 1/2 and 1 at 0, 1/2 and 1; the shader's copy is the same function. *)
Theorem eased_ease_in_out :
  (forall x, eased x = if decide (x < 0.5) then 4 * x ^ 3 else 1 - (-2 * x + 2) ^ 3 / 2) /\
  (forall x y, 0 <= x -> x <= y -> y <= 1 -> eased x <= eased y) /\
  eased 0 = 0 /\ eased 1 = 1 /\ eased 0.5 = 0.5 /\
  (forall x, BodyVertexShader.easeInOutCubic x = eased x).
Proof.
  split; [|split; [|split; [|split; [|split]]]].
  - intros x. unfold eased, Math.pow. destruct (decide (x < 0.5)); lra.
  - intros x y _ Hxy _. now apply eased_monotone.
  - rewrite eased_low; lra.
  - rewrite eased_high; lra.
  - rewrite eased_high; lra.
  - apply easeInOutCubic_eased.
Qed.

Lemma eased_ease_in_out_witness : eased 0.25 <= eased 0.75.
Proof.
  destruct eased_ease_in_out as (_ & Hmono & _).
  apply Hmono; lra.
Defined.

Section GestureProperties.

Import Gesture.

Lemma trackWrist_gestureState w c : gestureState (trackWrist w c) = gestureState c.
Proof.
  unfold trackWrist. destruct (handTrackingRef c) as [prev|]; [|reflexivity].
  destruct (decide _); reflexivity.
Qed.

Lemma trackWrist_focusActive w c : focusActive (trackWrist w c) = focusActive c.
Proof.
  unfold trackWrist. destruct (handTrackingRef c) as [prev|]; [|reflexivity].
  destruct (decide _); reflexivity.
Qed.

Lemma trackWrist_debugGesture w c : debugGesture (trackWrist w c) = debugGesture c.
Proof.
  unfold trackWrist. destruct (handTrackingRef c) as [prev|]; [|reflexivity].
  destruct (decide _); reflexivity.
Qed.

Lemma debounce_repeat g st :
  lastRawGesture st = g -> g <> UNKNOWN ->
  debounce g st = mkGestureState g (S (debounceCount st))
                    (currentStableGesture st) (lastActionTime st).
Proof.
  intros <- Hg. unfold debounce.
  destruct (decide _) as [_|Hn]; [reflexivity|]. exfalso. apply Hn. now split.
Qed.

Lemma debounce_reset g st :
  g <> lastRawGesture st \/ g = UNKNOWN ->
  debounce g st = mkGestureState g 0 (currentStableGesture st) (lastActionTime st).
Proof.
  intros H. unfold debounce.
  destruct (decide _) as [[H1 H2]|_]; [|reflexivity]. destruct H; contradiction.
Qed.

Lemma dispatch_counter g t st :
  lastRawGesture (fst (dispatch g t st)) = lastRawGesture st /\
  debounceCount (fst (dispatch g t st)) = debounceCount st /\
  currentStableGesture (fst (dispatch g t st)) = currentStableGesture st.
Proof. unfold dispatch. destruct (decide _); destruct g; simpl; auto. Qed.

Lemma dispatch_fired g t st :
  t - lastActionTime st > 800 ->
  match g with
  | FIST => snd (dispatch g t st) = [SetTargetMorph 0]
            /\ lastActionTime (fst (dispatch g t st)) = t
  | OPEN_PALM => snd (dispatch g t st) = [SetTargetMorph 1]
                 /\ lastActionTime (fst (dispatch g t st)) = t
  | _ => dispatch g t st = (st, [])
  end.
Proof.
  intros H. unfold dispatch. destruct (decide _); [|contradiction].
  destruct g; simpl; auto.
Qed.

Lemma dispatch_gated g t st :
  ~ t - lastActionTime st > 800 -> dispatch g t st = (st, []).
Proof. intros H. unfold dispatch. destruct (decide _); [contradiction|reflexivity]. Qed.

Lemma predictWebcam_below g t w c :
  (debounceCount (afterDebounce g c) < 8)%nat ->
  gestureState (fst (predictWebcam (held g t w) c)) = afterDebounce g c /\
  focusActive (fst (predictWebcam (held g t w) c)) = focusActive c /\
  debugGesture (fst (predictWebcam (held g t w) c)) = debugGesture c /\
  snd (predictWebcam (held g t w) c) = [].
Proof.
  intros H. unfold afterDebounce in H.
  unfold predictWebcam, held, commit.
  cbn [landmarks now rawGesture wrist gestureState focusActive debugGesture].
  rewrite trackWrist_gestureState.
  destruct (Nat.leb_spec 8 (debounceCount (debounce g (gestureState c)))); [lia|].
  cbn [fst snd gestureState focusActive debugGesture].
  rewrite trackWrist_focusActive, trackWrist_debugGesture. auto.
Qed.

Lemma predictWebcam_reached g t w c :
  (8 <= debounceCount (afterDebounce g c))%nat ->
  let st := afterDebounce g c in
  let st1 := mkGestureState (lastRawGesture st) (debounceCount st) g (lastActionTime st) in
  gestureState (fst (predictWebcam (held g t w) c)) = fst (dispatch g t st1) /\
  focusActive (fst (predictWebcam (held g t w) c)) = bool_decide (g = INDEX_UP) /\
  debugGesture (fst (predictWebcam (held g t w) c)) = Some g /\
  snd (predictWebcam (held g t w) c) = snd (dispatch g t st1).
Proof.
  intros H. unfold afterDebounce in *.
  unfold predictWebcam, held, commit.
  cbn [landmarks now rawGesture wrist gestureState focusActive debugGesture].
  rewrite trackWrist_gestureState.
  destruct (Nat.leb_spec 8 (debounceCount (debounce g (gestureState c)))); [|lia].
  destruct (dispatch g t _) as [st2 acts].
  cbn [fst snd gestureState focusActive debugGesture]. auto.
Qed.

(** The raw class and the counter after a frame are those of [debounce]. *)
Lemma predictWebcam_counter g t w c :
  lastRawGesture (gestureState (fst (predictWebcam (held g t w) c)))
  = lastRawGesture (afterDebounce g c) /\
  debounceCount (gestureState (fst (predictWebcam (held g t w) c)))
  = debounceCount (afterDebounce g c).
Proof.
  destruct (Nat.lt_ge_cases (debounceCount (afterDebounce g c)) 8) as [H|H].
  - destruct (predictWebcam_below g t w c H) as [-> _]. auto.
  - destruct (predictWebcam_reached g t w c H) as [-> _].
    destruct (dispatch_counter g t
      (mkGestureState (lastRawGesture (afterDebounce g c))
         (debounceCount (afterDebounce g c)) g (lastActionTime (afterDebounce g c))))
      as (-> & -> & _). auto.
Qed.

Lemma predictWebcam_stable_reached g t w c :
  (8 <= debounceCount (afterDebounce g c))%nat ->
  currentStableGesture (gestureState (fst (predictWebcam (held g t w) c))) = g.
Proof.
  intros H. destruct (predictWebcam_reached g t w c H) as [-> _].
  now destruct (dispatch_counter g t
      (mkGestureState (lastRawGesture (afterDebounce g c))
         (debounceCount (afterDebounce g c)) g (lastActionTime (afterDebounce g c))))
      as (_ & _ & ->).
Qed.

Lemma run_cons f fs c :
  run (f :: fs) c =
  (fst (run fs (fst (predictWebcam f c))),
   snd (predictWebcam f c) ++ snd (run fs (fst (predictWebcam f c)))).
Proof.
  simpl. destruct (predictWebcam f c) as [c1 a1]. simpl.
  destruct (run fs c1) as [c2 a2]. reflexivity.
Qed.

(** While [g] stays the remembered raw class, every frame adds one to the
    counter. *)
Lemma run_held_counter g tws : forall c,
  g <> UNKNOWN -> lastRawGesture (gestureState c) = g ->
  lastRawGesture (gestureState (fst (run (heldFrames g tws) c))) = g /\
  debounceCount (gestureState (fst (run (heldFrames g tws) c)))
  = (debounceCount (gestureState c) + List.length tws)%nat.
Proof.
  induction tws as [|[t w] tws IH]; intros c Hg Hl.
  - simpl. split; [assumption|lia].
  - unfold heldFrames in *. simpl map. rewrite run_cons. cbn [fst snd].
    destruct (predictWebcam_counter g t w c) as [Hr Hc].
    unfold afterDebounce in Hr, Hc. rewrite (debounce_repeat g) in Hr, Hc by assumption.
    simpl in Hr, Hc.
    destruct (IH (fst (predictWebcam (held g t w) c)) Hg Hr) as [IH1 IH2].
    split; [exact IH1|]. rewrite IH2, Hc. simpl. lia.
Qed.

(** Below the threshold nothing is committed and nothing is dispatched. *)
Lemma run_held_below g tws : forall c,
  g <> UNKNOWN -> lastRawGesture (gestureState c) = g ->
  (debounceCount (gestureState c) + List.length tws < 8)%nat ->
  currentStableGesture (gestureState (fst (run (heldFrames g tws) c)))
  = currentStableGesture (gestureState c) /\
  focusActive (fst (run (heldFrames g tws) c)) = focusActive c /\
  debugGesture (fst (run (heldFrames g tws) c)) = debugGesture c /\
  snd (run (heldFrames g tws) c) = [].
Proof.
  induction tws as [|[t w] tws IH]; intros c Hg Hl Hn.
  - simpl. auto.
  - unfold heldFrames in *. simpl map. rewrite run_cons. cbn [fst snd].
    simpl in Hn.
    assert (Hd : afterDebounce g c = mkGestureState g (S (debounceCount (gestureState c)))
                   (currentStableGesture (gestureState c)) (lastActionTime (gestureState c)))
      by (apply debounce_repeat; assumption).
    destruct (predictWebcam_below g t w c) as (Hs & Hf & Hdbg & Ha).
    { rewrite Hd. simpl. lia. }
    destruct (IH (fst (predictWebcam (held g t w) c)) Hg) as (IH1 & IH2 & IH3 & IH4).
    { rewrite Hs, Hd. reflexivity. }
    { rewrite Hs, Hd. simpl. lia. }
    rewrite IH1, IH2, IH3, IH4, Ha, Hs, Hd, Hf, Hdbg. auto.
Qed.


Lemma run_app fs1 fs2 c :
  run (fs1 ++ fs2) c =
  (fst (run fs2 (fst (run fs1 c))), snd (run fs1 c) ++ snd (run fs2 (fst (run fs1 c)))).
Proof.
  revert c. induction fs1 as [|f fs1 IH]; intros c.
  - simpl. now destruct (run fs2 c).
  - rewrite <- app_comm_cons, !run_cons, IH. cbn [fst snd]. now rewrite app_assoc.
Qed.

(** The first frame of a class that is not the remembered one restarts the
    count and commits nothing. *)
Lemma predictWebcam_fresh g t w c :
  lastRawGesture (gestureState c) <> g ->
  gestureState (fst (predictWebcam (held g t w) c))
  = mkGestureState g 0 (currentStableGesture (gestureState c))
                   (lastActionTime (gestureState c)) /\
  focusActive (fst (predictWebcam (held g t w) c)) = focusActive c /\
  debugGesture (fst (predictWebcam (held g t w) c)) = debugGesture c /\
  snd (predictWebcam (held g t w) c) = [].
Proof.
  intros Hl.
  assert (Hd : afterDebounce g c = mkGestureState g 0 (currentStableGesture (gestureState c))
                                     (lastActionTime (gestureState c))).
  { apply debounce_reset. left. congruence. }
  destruct (predictWebcam_below g t w c) as (Hs & Hf & Hdbg & Ha).
  { rewrite Hd. simpl. lia. }
  rewrite Hs, Hd. auto.
Qed.

(** A frame of the remembered class, from a count of 7 or more: the commit
    branch runs. *)
Lemma predictWebcam_held_commit g t w c :
  g <> UNKNOWN -> lastRawGesture (gestureState c) = g ->
  (7 <= debounceCount (gestureState c))%nat ->
  let st1 := mkGestureState g (S (debounceCount (gestureState c))) g
                            (lastActionTime (gestureState c)) in
  gestureState (fst (predictWebcam (held g t w) c)) = fst (dispatch g t st1) /\
  focusActive (fst (predictWebcam (held g t w) c)) = bool_decide (g = INDEX_UP) /\
  debugGesture (fst (predictWebcam (held g t w) c)) = Some g /\
  snd (predictWebcam (held g t w) c) = snd (dispatch g t st1).
Proof.
  intros Hg Hl Hn.
  assert (Hd : afterDebounce g c = mkGestureState g (S (debounceCount (gestureState c)))
                 (currentStableGesture (gestureState c)) (lastActionTime (gestureState c)))
    by (apply debounce_repeat; assumption).
  destruct (predictWebcam_reached g t w c) as (Hs & Hf & Hdbg & Ha).
  { rewrite Hd. simpl. lia. }
  rewrite Hd in Hs, Ha. simpl in Hs, Ha. auto.
Qed.

Lemma dispatch_FIST_fired t st :
  t - lastActionTime st > 800 ->
  dispatch FIST t st =
  (mkGestureState (lastRawGesture st) (debounceCount st) (currentStableGesture st) t,
   [SetTargetMorph 0]).
Proof. intros H. unfold dispatch. destruct (decide _); [reflexivity|contradiction]. Qed.

Lemma dispatch_OPEN_PALM_fired t st :
  t - lastActionTime st > 800 ->
  dispatch OPEN_PALM t st =
  (mkGestureState (lastRawGesture st) (debounceCount st) (currentStableGesture st) t,
   [SetTargetMorph 1]).
Proof. intros H. unfold dispatch. destruct (decide _); [reflexivity|contradiction]. Qed.

Lemma predictWebcam_dragRef g t w c :
  dragRef (fst (predictWebcam (held g t w) c)) = dragRef (trackWrist w c).
Proof.
  unfold predictWebcam, held, commit.
  cbn [landmarks now rawGesture wrist gestureState dragRef].
  destruct (8 <=? _)%nat; [|reflexivity].
  destruct (dispatch g t _). reflexivity.
Qed.

Lemma deadZone_inside d : Math.abs d < 0.003 -> deadZone d = 0.
Proof. intros H. unfold deadZone. destruct (decide _); [reflexivity|contradiction]. Qed.

Lemma deadZone_outside d : ~ Math.abs d < 0.003 -> deadZone d = d.
Proof. intros H. unfold deadZone. destruct (decide _); [contradiction|reflexivity]. Qed.

Lemma trackWrist_still w prev c :
  handTrackingRef c = Some prev ->
  deadZone (fst w - fst prev) = 0 -> deadZone (snd w - snd prev) = 0 ->
  dragRef (trackWrist w c) = dragRef c.
Proof.
  intros Hp Hx Hy. unfold trackWrist. rewrite Hp, Hx, Hy.
  destruct (decide _) as [[H|H]|_]; [now elim H|now elim H|reflexivity].
Qed.

Lemma trackWrist_moved w prev c :
  handTrackingRef c = Some prev ->
  deadZone (fst w - fst prev) <> 0 \/ deadZone (snd w - snd prev) <> 0 ->
  dragRef (trackWrist w c) =
  mkDragTargets
    (yawTarget (dragRef c) + deadZone (fst w - fst prev) * Math.PI * 1.25)
    (Math.max (-0.6)
       (Math.min 0.6 (pitchTarget (dragRef c) + deadZone (snd w - snd prev) * Math.PI * 0.6))).
Proof.
  intros Hp Hm. unfold trackWrist. rewrite Hp.
  destruct (decide _) as [_|H]; [reflexivity|contradiction].
Qed.

Lemma clamp_range v : -0.6 <= Math.max (-0.6) (Math.min 0.6 v) <= 0.6.
Proof.
  unfold Math.max, Math.min. split.
  - apply Rmax_l.
  - apply Rmax_lub; [lra|apply Rmin_l].
Qed.



(** A run of [g] after another class: up to and including its eighth frame
    the counter is one less than the number of frames and nothing is
    committed. *)
Lemma run_fresh_below g tws c :
  g <> UNKNOWN -> lastRawGesture (gestureState c) <> g ->
  (1 <= List.length tws <= 8)%nat ->
  let out := run (heldFrames g tws) c in
  lastRawGesture (gestureState (fst out)) = g /\
  debounceCount (gestureState (fst out)) = (List.length tws - 1)%nat /\
  currentStableGesture (gestureState (fst out)) = currentStableGesture (gestureState c) /\
  focusActive (fst out) = focusActive c /\
  debugGesture (fst out) = debugGesture c /\
  snd out = [].
Proof.
  intros Hg Hl Hn. destruct tws as [|[t w] tws]; [simpl in Hn; lia|].
  cbn zeta. unfold heldFrames. simpl map. rewrite run_cons. cbn [fst snd].
  destruct (predictWebcam_fresh g t w c Hl) as (Hs & Hf & Hdbg & Ha).
  simpl in Hn.
  destruct (run_held_counter g tws (fst (predictWebcam (held g t w) c)) Hg) as [H1 H2].
  { rewrite Hs. reflexivity. }
  destruct (run_held_below g tws (fst (predictWebcam (held g t w) c)) Hg)
    as (H3 & H4 & H5 & H6).
  { rewrite Hs. reflexivity. }
  { rewrite Hs. simpl. lia. }
  fold (heldFrames g tws).
  rewrite H1, H2, H3, H4, H5, H6, Ha, Hs, Hf, Hdbg. simpl.
  repeat split; try reflexivity. lia.
Qed.

(** The ninth frame of the run is the first to commit. *)
Lemma run_fresh_ninth g tws c :
  g <> UNKNOWN -> lastRawGesture (gestureState c) <> g ->
  List.length tws = 9%nat ->
  let out := run (heldFrames g tws) c in
  debounceCount (gestureState (fst out)) = 8%nat /\
  currentStableGesture (gestureState (fst out)) = g /\
  debugGesture (fst out) = Some g.
Proof.
  intros Hg Hl Hn. cbn zeta.
  assert (Hne : tws <> []) by (intros ->; discriminate).
  destruct (exists_last Hne) as (front & [t w] & ->).
  rewrite length_app in Hn. simpl in Hn.
  unfold heldFrames. rewrite map_app. fold (heldFrames g front). simpl map.
  rewrite run_app. cbn [fst snd].
  destruct (run_fresh_below g front c Hg Hl) as (H1 & H2 & _); [lia|].
  cbn zeta in H1, H2.
  set (c8 := fst (run (heldFrames g front) c)) in *.
  rewrite run_cons. cbn [fst snd run].
  destruct (predictWebcam_held_commit g t w c8 Hg H1) as (Hs & _ & Hdbg & _); [lia|].
  destruct (predictWebcam_counter g t w c8) as [_ Hc].
  unfold afterDebounce in Hc. rewrite (debounce_repeat g) in Hc by assumption.
  simpl in Hc.
  split; [rewrite Hc; lia|]. split; [|exact Hdbg].
  apply predictWebcam_stable_reached. unfold afterDebounce.
  rewrite (debounce_repeat g) by assumption. simpl. lia.
Qed.

(** C1, as stated, fails.  From the initial state, eight consecutive frames
    classified FIST leave the counter at 7 and the stable class UNKNOWN: the
    eighth frame commits nothing. *)
Lemma eight_frames_commit_nothing :
  let out := run (heldFrames FIST (take 8 nineFrames)) initialControl in
  debounceCount (gestureState (fst out)) = 7%nat /\
  currentStableGesture (gestureState (fst out)) = UNKNOWN /\
  currentStableGesture (gestureState (fst out)) <> FIST /\
  debugGesture (fst out) = None.
Proof.
  destruct (run_fresh_below FIST (take 8 nineFrames) initialControl)
    as (_ & Hc & Hs & _ & Hd & _); try discriminate.
  { simpl. lia. }
  cbn zeta in *. rewrite Hc, Hs, Hd. simpl. repeat split. discriminate.
Qed.

(** C1 (amended).  The counter counts the repeats of the remembered raw
    class, so a run of one non-UNKNOWN class that follows another class (or
    the initial state) commits it as the stable class on its ninth frame and
    not earlier: after [n <= 8] frames the counter is [n - 1], the stable
    class is unchanged and nothing is dispatched.  On any frame whose raw
    class differs from the remembered one, or is UNKNOWN, the counter is set
    to 0 and the remembered class becomes that frame's; otherwise the counter
    grows by one. *)
Theorem debounce_commits_on_ninth_frame (g : GestureType) (c : Control) :
  g <> UNKNOWN -> lastRawGesture (gestureState c) <> g ->
  (forall tws, (1 <= List.length tws <= 8)%nat ->
     let out := run (heldFrames g tws) c in
     debounceCount (gestureState (fst out)) = (List.length tws - 1)%nat /\
     currentStableGesture (gestureState (fst out))
     = currentStableGesture (gestureState c) /\
     debugGesture (fst out) = debugGesture c /\
     snd out = []) /\
  (forall tws, List.length tws = 9%nat ->
     let out := run (heldFrames g tws) c in
     debounceCount (gestureState (fst out)) = 8%nat /\
     currentStableGesture (gestureState (fst out)) = g /\
     debugGesture (fst out) = Some g) /\
  (forall raw t w c0,
     let st := gestureState (fst (predictWebcam (held raw t w) c0)) in
     (raw <> lastRawGesture (gestureState c0) \/ raw = UNKNOWN ->
        debounceCount st = 0%nat /\ lastRawGesture st = raw) /\
     (raw = lastRawGesture (gestureState c0) -> raw <> UNKNOWN ->
        debounceCount st = S (debounceCount (gestureState c0))
        /\ lastRawGesture st = raw)).
Proof.
  intros Hg Hl. split; [|split].
  - intros tws Hn.
    destruct (run_fresh_below g tws c Hg Hl Hn) as (_ & H2 & H3 & _ & H5 & H6).
    cbn zeta in *. auto.
  - intros tws Hn. now apply run_fresh_ninth.
  - intros raw t w c0. cbn zeta.
    destruct (predictWebcam_counter raw t w c0) as [Hr Hc]. unfold afterDebounce in *.
    split.
    + intros H. rewrite debounce_reset in Hr, Hc by assumption. simpl in *. auto.
    + intros H1 H2. rewrite (debounce_repeat raw) in Hr, Hc by auto. simpl in *. auto.
Qed.

Lemma debounce_commits_on_ninth_frame_witness :
  let out := run (heldFrames FIST nineFrames) initialControl in
  currentStableGesture (gestureState (fst out)) = FIST.
Proof.
  assert (Hg : FIST <> UNKNOWN) by discriminate.
  assert (Hl : lastRawGesture (gestureState initialControl) <> FIST) by discriminate.
  destruct (debounce_commits_on_ninth_frame FIST initialControl Hg Hl) as (_ & H9 & _).
  destruct (H9 nineFrames eq_refl) as (_ & Hs & _). exact Hs.
Defined.

(** C5.  Actions are gated by the cooldown: an action is dispatched only on
    a frame more than 800 ms after the last dispatched one.  Two committing
    FIST frames, the first of them outside the cooldown: 500 ms apart they
    dispatch [setTargetMorph(0)] exactly once, 900 ms apart twice. *)
Theorem cooldown_gates_dispatch (c : Control) (t1 : R) (w1 w2 : R * R) :
  lastRawGesture (gestureState c) = FIST ->
  (7 <= debounceCount (gestureState c))%nat ->
  t1 - lastActionTime (gestureState c) > 800 ->
  snd (run [held FIST t1 w1; held FIST (t1 + 500) w2] c) = [SetTargetMorph 0] /\
  snd (run [held FIST t1 w1; held FIST (t1 + 900) w2] c)
  = [SetTargetMorph 0; SetTargetMorph 0] /\
  (forall f c0, snd (predictWebcam f c0) <> [] ->
     now f - lastActionTime (gestureState c0) > 800).
Proof.
  intros Hl Hn Ht.
  assert (Hg : FIST <> UNKNOWN) by discriminate.
  assert (Hstep : forall d w,
    snd (run [held FIST t1 w1; held FIST (t1 + d) w] c)
    = SetTargetMorph 0 ::
      snd (dispatch FIST (t1 + d)
             (mkGestureState FIST (S (S (debounceCount (gestureState c)))) FIST t1))).
  { intros d w. rewrite run_cons. cbn [fst snd].
    destruct (predictWebcam_held_commit FIST t1 w1 c Hg Hl Hn) as (Hs & _ & _ & Ha).
    rewrite dispatch_FIST_fired in Hs, Ha by exact Ht. cbn [fst snd] in Hs, Ha.
    set (c1 := fst (predictWebcam (held FIST t1 w1) c)) in *.
    rewrite Ha, run_cons. cbn [fst snd run].
    destruct (predictWebcam_held_commit FIST (t1 + d) w c1 Hg) as (_ & _ & _ & Ha2).
    { rewrite Hs. reflexivity. }
    { rewrite Hs. simpl. lia. }
    rewrite Ha2, Hs. simpl. now rewrite app_nil_r. }
  split; [|split].
  - rewrite Hstep, dispatch_gated; [reflexivity|]. simpl. lra.
  - rewrite Hstep, dispatch_FIST_fired; [reflexivity|]. simpl. lra.
  - intros f c0. unfold predictWebcam.
    destruct (landmarks f) as [h|]; [|intros H; now elim H].
    unfold commit. cbn [gestureState].
    destruct (8 <=? _)%nat; [|intros H; now elim H].
    rewrite trackWrist_gestureState.
    set (st1 := mkGestureState _ _ _ _).
    destruct (decide (now f - lastActionTime st1 > 800)) as [Hd|Hd].
    + intros _. subst st1. unfold debounce in Hd.
      destruct (decide _) in Hd; exact Hd.
    + rewrite dispatch_gated by exact Hd. intros H; now elim H.
Qed.

Lemma cooldown_gates_dispatch_witness :
  snd (run [held FIST 1000 (0.5, 0.5); held FIST (1000 + 500) (0.5, 0.5)] fistHeld)
  = [SetTargetMorph 0] /\
  snd (run [held FIST 1000 (0.5, 0.5); held FIST (1000 + 900) (0.5, 0.5)] fistHeld)
  = [SetTargetMorph 0; SetTargetMorph 0].
Proof.
  assert (H1 : lastRawGesture (gestureState fistHeld) = FIST) by reflexivity.
  assert (H2 : (7 <= debounceCount (gestureState fistHeld))%nat) by (simpl; lia).
  assert (H3 : 1000 - lastActionTime (gestureState fistHeld) > 800) by (simpl; lra).
  destruct (cooldown_gates_dispatch fistHeld 1000 (0.5, 0.5) (0.5, 0.5) H1 H2 H3)
    as (Ha & Hb & _).
  split; [exact Ha|exact Hb].
Defined.

(** C10.  While a non-UNKNOWN class stays the raw class of every frame, the
    counter grows with every frame, also past 8, so from the commit on every
    frame runs the commit branch; a held FIST or OPEN_PALM dispatches its
    action again on every frame that comes more than 800 ms after the last
    dispatch, and on no other. *)
Theorem held_gesture_dispatches_again (g : GestureType) (c : Control) :
  g <> UNKNOWN -> lastRawGesture (gestureState c) = g ->
  (7 <= debounceCount (gestureState c))%nat ->
  (forall tws,
     let c' := fst (run (heldFrames g tws) c) in
     lastRawGesture (gestureState c') = g /\
     debounceCount (gestureState c')
     = (debounceCount (gestureState c) + List.length tws)%nat) /\
  (forall t w,
     let out := predictWebcam (held g t w) c in
     debounceCount (gestureState (fst out)) = S (debounceCount (gestureState c)) /\
     currentStableGesture (gestureState (fst out)) = g /\
     debugGesture (fst out) = Some g /\
     focusActive (fst out) = bool_decide (g = INDEX_UP) /\
     (t - lastActionTime (gestureState c) > 800 ->
        (g = FIST -> snd out = [SetTargetMorph 0]
                     /\ lastActionTime (gestureState (fst out)) = t) /\
        (g = OPEN_PALM -> snd out = [SetTargetMorph 1]
                          /\ lastActionTime (gestureState (fst out)) = t)) /\
     (~ t - lastActionTime (gestureState c) > 800 ->
        snd out = [] /\
        lastActionTime (gestureState (fst out)) = lastActionTime (gestureState c))).
Proof.
  intros Hg Hl Hn. split.
  - intros tws. cbn zeta. now apply run_held_counter.
  - intros t w. cbn zeta.
    destruct (predictWebcam_held_commit g t w c Hg Hl Hn) as (Hs & Hf & Hdbg & Ha).
    destruct (predictWebcam_counter g t w c) as [_ Hc].
    unfold afterDebounce in Hc. rewrite (debounce_repeat g) in Hc by assumption.
    simpl in Hc.
    split; [exact Hc|]. split.
    { apply predictWebcam_stable_reached. unfold afterDebounce.
      rewrite (debounce_repeat g) by assumption. simpl. lia. }
    split; [exact Hdbg|]. split; [exact Hf|]. split.
    + intros Ht. split; intros ->.
      * rewrite dispatch_FIST_fired in Hs, Ha by exact Ht. rewrite Hs, Ha. auto.
      * rewrite dispatch_OPEN_PALM_fired in Hs, Ha by exact Ht. rewrite Hs, Ha. auto.
    + intros Ht. rewrite dispatch_gated in Hs, Ha by exact Ht. rewrite Hs, Ha. auto.
Qed.

Lemma held_gesture_dispatches_again_witness :
  snd (predictWebcam (held FIST 1000 (0.5, 0.5)) fistHeld) = [SetTargetMorph 0].
Proof.
  assert (Hg : FIST <> UNKNOWN) by discriminate.
  assert (H1 : lastRawGesture (gestureState fistHeld) = FIST) by reflexivity.
  assert (H2 : (7 <= debounceCount (gestureState fistHeld))%nat) by (simpl; lia).
  destruct (held_gesture_dispatches_again FIST fistHeld Hg H1 H2) as (_ & H).
  destruct (H 1000 (0.5, 0.5)) as (_ & _ & _ & _ & Hfire & _).
  assert (H3 : 1000 - lastActionTime (gestureState fistHeld) > 800) by (simpl; lra).
  exact (proj1 (proj1 (Hfire H3) eq_refl)).
Defined.


(** C7, as stated, fails for the yaw target: it is not clamped.  A wrist
    that moves half the frame width to the right takes the yaw target from 0
    to [0.5 * PI * 1.25], beyond 0.6. *)
Lemma yaw_target_not_clamped :
  yawTarget (dragRef (fst (predictWebcam (held UNKNOWN 1000 (0.5, 0)) wristAtOrigin)))
  > 0.6.
Proof.
  rewrite predictWebcam_dragRef.
  rewrite (trackWrist_moved (0.5, 0) (0, 0)); [|reflexivity|].
  - cbn [yawTarget fst snd dragRef wristAtOrigin].
    rewrite deadZone_outside.
    + unfold Math.PI. pose proof PI2_3_2. lra.
    + unfold Math.abs. rewrite Rabs_pos_eq; lra.
  - left. cbn [fst snd]. rewrite deadZone_outside.
    + lra.
    + unfold Math.abs. rewrite Rabs_pos_eq; lra.
Qed.

(** C7 (amended).  With a remembered wrist position, a per-axis delta of
    absolute value below 0.003 is floored to zero, so a delta of 0.002 on
    both axes leaves both orbit targets unchanged; when a floored delta is
    not zero, the yaw target grows by [dx * PI * 1.25] and is not clamped,
    and the pitch target grows by [dy * PI * 0.6] and is clamped to
    [[-0.6, 0.6]]. *)
Theorem wrist_delta_drives_orbit (c : Control) (prev w : R * R)
        (g : GestureType) (t : R) :
  handTrackingRef c = Some prev ->
  let dx := deadZone (fst w - fst prev) in
  let dy := deadZone (snd w - snd prev) in
  let c' := fst (predictWebcam (held g t w) c) in
  (Math.abs (fst w - fst prev) < 0.003 -> dx = 0) /\
  (Math.abs (snd w - snd prev) < 0.003 -> dy = 0) /\
  (~ Math.abs (fst w - fst prev) < 0.003 -> dx = fst w - fst prev) /\
  (~ Math.abs (snd w - snd prev) < 0.003 -> dy = snd w - snd prev) /\
  (fst w - fst prev = 0.002 -> snd w - snd prev = 0.002 -> dragRef c' = dragRef c) /\
  (dx = 0 -> dy = 0 -> dragRef c' = dragRef c) /\
  (dx <> 0 \/ dy <> 0 ->
     yawTarget (dragRef c') = yawTarget (dragRef c) + dx * Math.PI * 1.25 /\
     pitchTarget (dragRef c')
     = Math.max (-0.6) (Math.min 0.6 (pitchTarget (dragRef c) + dy * Math.PI * 0.6)) /\
     -0.6 <= pitchTarget (dragRef c') <= 0.6).
Proof.
  intros Hp. cbn zeta. rewrite predictWebcam_dragRef.
  repeat split.
  - apply deadZone_inside.
  - apply deadZone_inside.
  - apply deadZone_outside.
  - apply deadZone_outside.
  - intros Hx Hy. apply (trackWrist_still w prev c Hp).
    + apply deadZone_inside. rewrite Hx. unfold Math.abs. rewrite Rabs_pos_eq; lra.
    + apply deadZone_inside. rewrite Hy. unfold Math.abs. rewrite Rabs_pos_eq; lra.
  - intros Hx Hy. now apply (trackWrist_still w prev c Hp).
  - rewrite (trackWrist_moved w prev c Hp H). reflexivity.
  - rewrite (trackWrist_moved w prev c Hp H). reflexivity.
  - rewrite (trackWrist_moved w prev c Hp H). apply clamp_range.
  - rewrite (trackWrist_moved w prev c Hp H). apply clamp_range.
Qed.

Lemma wrist_delta_drives_orbit_witness :
  dragRef (fst (predictWebcam (held FIST 1000 (0.002, 0.002)) wristAtOrigin))
  = dragRef wristAtOrigin.
Proof.
  assert (Hp : handTrackingRef wristAtOrigin = Some (0, 0)) by reflexivity.
  destruct (wrist_delta_drives_orbit wristAtOrigin (0, 0) (0.002, 0.002) FIST 1000 Hp)
    as (_ & _ & _ & _ & H & _).
  apply H; simpl; lra.
Defined.

End GestureProperties.

Section VectorProperties.

Import Vector3.

Lemma dot_self_nonneg a : 0 <= dot a a.
Proof. unfold dot. nra. Qed.

Lemma length_nonneg a : 0 <= length a.
Proof. apply sqrt_pos. Qed.

Lemma length_sqr a : length a * length a = dot a a.
Proof. unfold length. apply sqrt_sqrt. apply dot_self_nonneg. Qed.

Lemma square_le_le (a b : R) : 0 <= b -> a * a <= b * b -> a <= b.
Proof. intros Hb H. destruct (Rle_dec a b) as [|Hn]; [assumption|]. nra. Qed.

(** Cauchy and Schwarz, through Lagrange's identity. *)
Lemma dot_le_length a b : dot a b <= length a * length b.
Proof.
  apply square_le_le.
  - apply Rmult_le_pos; apply length_nonneg.
  - replace (length a * length b * (length a * length b))
      with ((length a * length a) * (length b * length b)) by ring.
    rewrite !length_sqr. unfold dot.
    assert (H : (x a * x a + y a * y a + z a * z a) * (x b * x b + y b * y b + z b * z b)
                - (x a * x b + y a * y b + z a * z b) * (x a * x b + y a * y b + z a * z b)
                = (x a * y b - y a * x b) * (x a * y b - y a * x b)
                  + (x a * z b - z a * x b) * (x a * z b - z a * x b)
                  + (y a * z b - z a * y b) * (y a * z b - z a * y b)) by ring.
    pose proof (Rle_0_sqr (x a * y b - y a * x b)) as H1.
    pose proof (Rle_0_sqr (x a * z b - z a * x b)) as H2.
    pose proof (Rle_0_sqr (y a * z b - z a * y b)) as H3.
    unfold Rsqr in H1, H2, H3. lra.
Qed.

Lemma length_add_le a b : length (add a b) <= length a + length b.
Proof.
  apply square_le_le.
  - pose proof (length_nonneg a). pose proof (length_nonneg b). lra.
  - rewrite length_sqr.
    replace ((length a + length b) * (length a + length b))
      with (length a * length a + 2 * (length a * length b) + length b * length b) by ring.
    rewrite !length_sqr. pose proof (dot_le_length a b). unfold dot in *. simpl. nra.
Qed.

Lemma length_opp a : length (mk (- x a) (- y a) (- z a)) = length a.
Proof. unfold length. simpl. f_equal. ring. Qed.

Lemma length_add_ge a b : length a - length b <= length (add a b).
Proof.
  pose proof (length_add_le (add a b) (mk (- x b) (- y b) (- z b))) as H.
  rewrite length_opp in H.
  replace (add (add a b) (mk (- x b) (- y b) (- z b))) with a in H.
  - lra.
  - destruct a, b. unfold add. simpl. f_equal; ring.
Qed.

(** A unit direction scaled by [r >= 0] and moved to a centre lies at
    distance [r] from it. *)
Lemma distanceTo_scaled dir r c :
  dot dir dir = 1 -> 0 <= r ->
  distanceTo (add (multiplyScalar dir r) c) c = r.
Proof.
  intros Hd Hr. unfold distanceTo, length, subVectors, add, multiplyScalar. simpl.
  replace ((x dir * r + x c - x c) * (x dir * r + x c - x c)
           + (y dir * r + y c - y c) * (y dir * r + y c - y c)
           + (z dir * r + z c - z c) * (z dir * r + z c - z c))
    with (dot dir dir * (r * r)) by (unfold dot; ring).
  rewrite Hd, Rmult_1_l. now apply sqrt_square.
Qed.

(** The direction of inverse-CDF spherical sampling is a unit vector. *)
Lemma spherical_unit theta phi :
  dot (mk (sin phi * cos theta) (sin phi * sin theta) (cos phi))
      (mk (sin phi * cos theta) (sin phi * sin theta) (cos phi)) = 1.
Proof.
  unfold dot. simpl.
  pose proof (sin2_cos2 theta) as Ht. pose proof (sin2_cos2 phi) as Hp.
  unfold Rsqr in *. nra.
Qed.

End VectorProperties.

Section CubeRoot.

Lemma cube_strict (a b : R) : a < b -> a * a * a < b * b * b.
Proof.
  intros H.
  assert (Hq : 0 < a * a + a * b + b * b).
  { replace (a * a + a * b + b * b)
      with ((a + b / 2) * (a + b / 2) + 3 / 4 * (b * b)) by field.
    destruct (Req_dec b 0) as [->|Hb]; [nra|].
    pose proof (Rle_0_sqr (a + b / 2)) as H1. unfold Rsqr in H1.
    assert (0 < b * b) by nra. lra. }
  assert (Hf : b * b * b - a * a * a = (b - a) * (a * a + a * b + b * b)) by ring.
  assert (0 < (b - a) * (a * a + a * b + b * b)) by (apply Rmult_lt_0_compat; lra).
  lra.
Qed.

Lemma cube_le_inv (a b : R) : a * a * a <= b * b * b -> a <= b.
Proof.
  intros H. destruct (Rle_dec a b) as [|Hn]; [assumption|].
  pose proof (cube_strict b a ltac:(lra)). lra.
Qed.

Lemma Rpower_third_cube (a : R) : 0 < a -> Rpower a (/ 3) ^ 3 = a.
Proof.
  intros Ha.
  rewrite <- (Rpower_pow 3) by apply exp_pos.
  rewrite Rpower_mult.
  replace (/ 3 * INR 3) with 1 by (simpl; lra).
  now apply Rpower_1.
Qed.

Lemma cbrt_cube (a : R) : Math.cbrt a ^ 3 = a.
Proof.
  unfold Math.cbrt. destruct (total_order_T a 0) as [[H|H]|H].
  - replace ((- Rpower (- a) (/ 3)) ^ 3) with (- Rpower (- a) (/ 3) ^ 3) by ring.
    rewrite Rpower_third_cube; lra.
  - subst. ring.
  - now apply Rpower_third_cube.
Qed.

Lemma cbrt_between (lo hi a : R) :
  lo ^ 3 <= a -> a <= hi ^ 3 -> lo <= Math.cbrt a <= hi.
Proof.
  intros Hlo Hhi. pose proof (cbrt_cube a) as Hc.
  split; apply cube_le_inv; nra.
Qed.

Lemma cbrt_of_cube (a : R) : Math.cbrt (a ^ 3) = a.
Proof.
  pose proof (cbrt_between a a (a ^ 3)) as H. lra.
Qed.

End CubeRoot.

Section ScatterProperties.

Import Vector3.

Lemma sqrt2_sqr : sqrt 2 * sqrt 2 = 2.
Proof. apply sqrt_sqrt. lra. Qed.

(** A point moved by at most 0.15 along x and along z stays within
    [0.15 * sqrt 2] of where it was. *)
Lemma jittered_distance p c jx jz :
  -0.15 <= jx <= 0.15 -> -0.15 <= jz <= 0.15 ->
  distanceTo p c - 0.15 * sqrt 2
  <= distanceTo (mk (x p + jx) (y p) (z p + jz)) c
  <= distanceTo p c + 0.15 * sqrt 2.
Proof.
  intros Hx Hz. unfold distanceTo.
  replace (subVectors (mk (x p + jx) (y p) (z p + jz)) c)
    with (add (subVectors p c) (mk jx 0 jz))
    by (unfold add, subVectors; simpl; f_equal; ring).
  assert (Hj : length (mk jx 0 jz) <= 0.15 * sqrt 2).
  { apply square_le_le.
    - pose proof (sqrt_pos 2). lra.
    - rewrite length_sqr. unfold dot. simpl.
      pose proof sqrt2_sqr. nra. }
  pose proof (length_add_le (subVectors p c) (mk jx 0 jz)).
  pose proof (length_add_ge (subVectors p c) (mk jx 0 jz)).
  lra.
Qed.

Lemma shell_radius (w : R) :
  0 <= w < 1 ->
  SCATTER_CONFIG.CORE_RADIUS * 1.05
  <= Math.cbrt (w * (Math.pow SCATTER_CONFIG.OUTER_RADIUS 3
                     - Math.pow (SCATTER_CONFIG.CORE_RADIUS * 1.05) 3)
                + Math.pow (SCATTER_CONFIG.CORE_RADIUS * 1.05) 3)
  <= SCATTER_CONFIG.OUTER_RADIUS.
Proof.
  intros Hw. apply cbrt_between;
    unfold Math.pow, SCATTER_CONFIG.OUTER_RADIUS, SCATTER_CONFIG.CORE_RADIUS; nra.
Qed.

Lemma core_radius (w : R) :
  0 <= w < 1 ->
  0 <= SCATTER_CONFIG.CORE_RADIUS * Math.cbrt w <= SCATTER_CONFIG.CORE_RADIUS.
Proof.
  intros Hw. assert (H : 0 <= Math.cbrt w <= 1) by (apply cbrt_between; lra).
  unfold SCATTER_CONFIG.CORE_RADIUS. lra.
Qed.

Lemma getIsotropicScatterPos_given (isCore : bool) (g : Random.Gen) :
  let d k := Random.draws g (Random.cursor g + k) in
  fst (getIsotropicScatterPos (Some isCore) g) =
  if isCore then mkScatterPoint (corePos (d 0%nat) (d 1%nat) (d 2%nat)) false
  else if decide (d 3%nat < 0.3)
       then mkScatterPoint (jitter (shellPos (d 0%nat) (d 1%nat) (d 2%nat)) (d 4%nat * 100)) true
       else mkScatterPoint (shellPos (d 0%nat) (d 1%nat) (d 2%nat)) true.
Proof.
  cbn zeta. unfold getIsotropicScatterPos, Random.bind, Random.random, Random.ret.
  cbn [Random.draws Random.cursor].
  replace (Random.cursor g + 0)%nat with (Random.cursor g) by lia.
  replace (Random.cursor g + 1)%nat with (S (Random.cursor g)) by lia.
  replace (Random.cursor g + 2)%nat with (S (S (Random.cursor g))) by lia.
  replace (Random.cursor g + 3)%nat with (S (S (S (Random.cursor g)))) by lia.
  replace (Random.cursor g + 4)%nat with (S (S (S (S (Random.cursor g))))) by lia.
  destruct isCore; [reflexivity|].
  destruct (decide _); reflexivity.
Qed.

Lemma getIsotropicScatterPos_drawn (g : Random.Gen) :
  fst (getIsotropicScatterPos None g) =
  fst (getIsotropicScatterPos
         (Some (bool_decide (Random.draws g (Random.cursor g) < SCATTER_CONFIG.CORE_RATIO)))
         (Random.mkGen (Random.draws g) (S (Random.cursor g)))).
Proof. reflexivity. Qed.

Lemma valid_next g :
  Random.valid g -> Random.valid (Random.mkGen (Random.draws g) (S (Random.cursor g))).
Proof. intros H n. apply H. Qed.

Lemma corePos_distance u v w :
  0 <= w < 1 -> distanceTo (corePos u v w) scatterCenter <= SCATTER_CONFIG.CORE_RADIUS.
Proof.
  intros Hw. unfold corePos. rewrite distanceTo_scaled.
  - apply core_radius, Hw.
  - apply spherical_unit.
  - apply core_radius, Hw.
Qed.

Lemma shellPos_distance u v w :
  0 <= w < 1 ->
  SCATTER_CONFIG.CORE_RADIUS * 1.05 <= distanceTo (shellPos u v w) scatterCenter
  <= SCATTER_CONFIG.OUTER_RADIUS.
Proof.
  intros Hw. unfold shellPos. rewrite distanceTo_scaled.
  - apply shell_radius, Hw.
  - apply spherical_unit.
  - pose proof (shell_radius w Hw). unfold SCATTER_CONFIG.CORE_RADIUS in *. lra.
Qed.

Lemma jitter_distance p seed :
  distanceTo p scatterCenter - 0.15 * sqrt 2
  <= distanceTo (jitter p seed) scatterCenter
  <= distanceTo p scatterCenter + 0.15 * sqrt 2.
Proof.
  unfold jitter. cbn zeta. apply jittered_distance.
  - pose proof (SIN_bound (y p * 1.7 + seed)). lra.
  - pose proof (COS_bound ((x p + 0.15 * sin (y p * 1.7 + seed)) * 1.7 + seed)). lra.
Qed.

(** The radius bounds for a call with [isCoreOverride] given. *)
Lemma scatter_radius_given (isCore : bool) (g : Random.Gen) :
  Random.valid g ->
  let p := fst (getIsotropicScatterPos (Some isCore) g) in
  let d := distanceTo (pos p) scatterCenter in
  isHalo p = negb isCore /\
  (isHalo p = false -> d <= SCATTER_CONFIG.CORE_RADIUS) /\
  (isHalo p = true -> ~ jitterDraw (Some isCore) g < 0.3 ->
     1.05 * SCATTER_CONFIG.CORE_RADIUS <= d <= SCATTER_CONFIG.OUTER_RADIUS) /\
  (isHalo p = true ->
     1.05 * SCATTER_CONFIG.CORE_RADIUS - 0.15 * sqrt 2 <= d
     <= SCATTER_CONFIG.OUTER_RADIUS + 0.15 * sqrt 2).
Proof.
  intros Hv. cbn zeta. rewrite getIsotropicScatterPos_given. unfold jitterDraw.
  pose proof (sqrt_pos 2) as Hs2.
  destruct isCore.
  - cbn [pos isHalo negb]. split; [reflexivity|]. split; [|split]; try discriminate.
    intros _. apply corePos_distance, Hv.
  - pose proof (shellPos_distance
                  (Random.draws g (Random.cursor g + 0))
                  (Random.draws g (Random.cursor g + 1))
                  (Random.draws g (Random.cursor g + 2)) (Hv _)) as Hshell.
    destruct (decide _) as [Hj|Hj]; cbn [pos isHalo negb].
    + split; [reflexivity|]. split; [discriminate|]. split; [intros _ Hn; contradiction|].
      intros _.
      pose proof (jitter_distance
        (shellPos (Random.draws g (Random.cursor g + 0))
                  (Random.draws g (Random.cursor g + 1))
                  (Random.draws g (Random.cursor g + 2)))
        (Random.draws g (Random.cursor g + 4) * 100)).
      lra.
    + split; [reflexivity|]. split; [discriminate|]. split; intros; lra.
Qed.


(** C3 (amended).  For every scatter position the generator returns,
    whatever the draws: a core point lies within CORE_RADIUS of the centre
    [(0, 0.2, 0)]; a halo point that is not jittered lies between
    [1.05 * CORE_RADIUS] and OUTER_RADIUS from it; a jittered halo point is
    such a point moved by at most 0.15 along x and along z, so its distance
    lies between [1.05 * CORE_RADIUS - 0.15 * sqrt 2] and
    [OUTER_RADIUS + 0.15 * sqrt 2]. *)
Theorem scatter_point_radius (isCoreOverride : option bool) (g : Random.Gen) :
  Random.valid g ->
  let p := fst (getIsotropicScatterPos isCoreOverride g) in
  let d := distanceTo (pos p) scatterCenter in
  (isHalo p = false -> d <= SCATTER_CONFIG.CORE_RADIUS) /\
  (isHalo p = true -> ~ jitterDraw isCoreOverride g < 0.3 ->
     1.05 * SCATTER_CONFIG.CORE_RADIUS <= d <= SCATTER_CONFIG.OUTER_RADIUS) /\
  (isHalo p = true ->
     1.05 * SCATTER_CONFIG.CORE_RADIUS - 0.15 * sqrt 2 <= d
     <= SCATTER_CONFIG.OUTER_RADIUS + 0.15 * sqrt 2).
Proof.
  intros Hv. destruct isCoreOverride as [b|].
  - apply (scatter_radius_given b g Hv).
  - cbn zeta. rewrite getIsotropicScatterPos_drawn.
    set (b := bool_decide _).
    replace (jitterDraw None g)
      with (jitterDraw (Some b) (Random.mkGen (Random.draws g) (S (Random.cursor g)))).
    + apply (scatter_radius_given b _ (valid_next g Hv)).
    + unfold jitterDraw. simpl. f_equal. lia.
Qed.

Lemma scatter_point_radius_witness :
  let p := fst (getIsotropicScatterPos (Some true) halves) in
  isHalo p = false /\ distanceTo (pos p) scatterCenter <= SCATTER_CONFIG.CORE_RADIUS.
Proof.
  assert (Hv : Random.valid halves) by (intros n; simpl; lra).
  destruct (scatter_point_radius (Some true) halves Hv) as (Hcore & _).
  cbn zeta in *. split; [reflexivity|]. apply Hcore. reflexivity.
Defined.

Lemma inwardJitter_valid : Random.valid inwardJitter.
Proof.
  intros n. unfold inwardJitter. cbn [Random.draws].
  pose proof PI2_3_2. pose proof PI_4.
  destruct n as [|[|[|[|n]]]]; lra.
Qed.

Lemma sqrt_lt_bound (s b : R) : 0 <= s -> 0 <= b -> s < b * b -> sqrt s < b.
Proof.
  intros Hs Hb H. rewrite <- (sqrt_square b Hb). apply sqrt_lt_1_alt. lra.
Qed.

(** C3, as stated, fails in the jitter branch: with these draws the halo
    point is generated at distance 3.36 from the centre and the jitter moves
    it to distance below 3.36, inside the inner radius of the shell. *)
Lemma jittered_halo_point_inside_shell :
  Random.valid inwardJitter /\
  let p := fst (getIsotropicScatterPos (Some false) inwardJitter) in
  isHalo p = true /\
  jitterDraw (Some false) inwardJitter < 0.3 /\
  distanceTo (pos p) scatterCenter < 1.05 * SCATTER_CONFIG.CORE_RADIUS.
Proof.
  split; [apply inwardJitter_valid|]. cbn zeta.
  rewrite getIsotropicScatterPos_given.
  unfold jitterDraw, inwardJitter. cbn [Random.draws Random.cursor Nat.add].
  destruct (decide (0 < 0.3)) as [_|Hn]; [|lra].
  cbn [isHalo pos]. split; [reflexivity|]. split; [lra|].
  assert (Hshell : shellPos 0 (1 / 2) 0 = mk 3.36 0.2 0).
  { unfold shellPos, scatterDir. cbn zeta.
    replace (2 * (1 / 2) - 1) with 0 by lra.
    replace (2 * Math.PI * 0) with 0 by lra.
    rewrite acos_0, sin_PI2, cos_PI2, cos_0, sin_0.
    replace (0 * (Math.pow SCATTER_CONFIG.OUTER_RADIUS 3
                  - Math.pow (SCATTER_CONFIG.CORE_RADIUS * 1.05) 3)
             + Math.pow (SCATTER_CONFIG.CORE_RADIUS * 1.05) 3)
      with ((SCATTER_CONFIG.CORE_RADIUS * 1.05) ^ 3) by (unfold Math.pow; ring).
    rewrite cbrt_of_cube.
    unfold add, multiplyScalar, scatterCenter, SCATTER_CENTER_Y,
      SCATTER_CONFIG.CORE_RADIUS. simpl. f_equal; lra. }
  rewrite Hshell. unfold jitter. cbn [x y z].
  replace (0.2 * 1.7 + (3 * (PI / 2) - 0.34) / 100 * 100) with (3 * (PI / 2)) by lra.
  rewrite sin_3PI2.
  set (c := cos _). assert (Hc : -1 <= c <= 1) by apply COS_bound.
  unfold distanceTo, length, subVectors, scatterCenter, SCATTER_CENTER_Y,
    SCATTER_CONFIG.CORE_RADIUS. cbn [x y z].
  apply sqrt_lt_bound; nra.
Qed.

End ScatterProperties.

Section MorphProperties.

Import MorphingInstances.

Lemma pow_le_one_decr (q : R) (n m : nat) :
  0 <= q <= 1 -> (n <= m)%nat -> q ^ m <= q ^ n.
Proof.
  intros Hq Hnm. induction Hnm as [|m Hnm IH]; [lra|].
  simpl. assert (0 <= q ^ m) by (apply pow_le; lra). nra.
Qed.

Lemma ticks_S (n : nat) (target c : R) :
  ticks (S n) target c = smoothMorph target (ticks n target c).
Proof. revert c. induction n as [|n IH]; intros c; [reflexivity|]. simpl in *. now rewrite IH. Qed.

(** From 0 towards 1, the gap shrinks by the factor 0.95 per tick while it
    is above 0.001, that is for the first 135 ticks. *)
Lemma ticks_smoothing (n : nat) : (n <= 135)%nat -> ticks n 1 0 = 1 - (19 / 20) ^ n.
Proof.
  induction n as [|n IH]; intros Hn; [simpl; lra|].
  rewrite ticks_S, IH by lia. unfold smoothMorph, Math.abs.
  assert (Hgap : (19 / 20) ^ n > 0.001).
  { pose proof (pow_le_one_decr (19 / 20) n 134 ltac:(lra) ltac:(lia)) as Hd.
    assert ((19 / 20) ^ 134 > 0.001) by lra. lra. }
  replace (1 - (1 - (19 / 20) ^ n)) with ((19 / 20) ^ n) by lra.
  rewrite Rabs_pos_eq by lra.
  destruct (decide _) as [_|Hc]; [simpl; lra|contradiction].
Qed.

Lemma smoothMorph_fixed (target : R) : smoothMorph target target = target.
Proof.
  unfold smoothMorph, Math.abs. replace (target - target) with 0 by lra.
  rewrite Rabs_R0. destruct (decide _); [lra|reflexivity].
Qed.

Lemma ticks_136 : ticks 136 1 0 = 1.
Proof.
  rewrite ticks_S, ticks_smoothing by lia. unfold smoothMorph, Math.abs.
  replace (1 - (1 - (19 / 20) ^ 135)) with ((19 / 20) ^ 135) by lra.
  rewrite Rabs_pos_eq by lra.
  destruct (decide _) as [Hc|_]; [|reflexivity].
  assert ((19 / 20) ^ 135 <= 0.001) by lra. lra.
Qed.

Lemma ticks_settled (n : nat) : (136 <= n)%nat -> ticks n 1 0 = 1.
Proof.
  intros Hn. induction Hn as [|n Hn IH]; [apply ticks_136|].
  rewrite ticks_S, IH. apply smoothMorph_fixed.
Qed.

Lemma ticks_before (n : nat) : (n < 136)%nat -> ticks n 1 0 < 1.
Proof.
  intros Hn. rewrite ticks_smoothing by lia.
  assert (0 < (19 / 20) ^ n) by (apply pow_lt; lra). lra.
Qed.

Lemma lerpVectors_one (t s : Vector3) : Vector3.lerpVectors t s 1 = s.
Proof. destruct t, s. unfold Vector3.lerpVectors. simpl. f_equal; ring. Qed.

Lemma lerpVectors_zero (t s : Vector3) : Vector3.lerpVectors t s 0 = t.
Proof. destruct t, s. unfold Vector3.lerpVectors. simpl. f_equal; ring. Qed.

Lemma eased_one : eased 1 = 1.
Proof. rewrite eased_high; lra. Qed.

Lemma eased_zero : eased 0 = 0.
Proof. rewrite eased_low; lra. Qed.

(** [update] succeeds on a well-formed manager and writes, at each index,
    what the loop body computes there. *)
Lemma update_wellFormed (m : t) (morphVal time : R) :
  wellFormed m ->
  exists ts, update m morphVal time = Some ts /\
             List.length ts = count m /\
             forall i, (i < count m)%nat -> updateAt m morphVal time i = ts !! i.
Proof.
  intros (Ht & Hs & Hh).
  assert (Hsome : is_Some (update m morphVal time)).
  { unfold update. apply mapM_is_Some, Forall_forall. intros i Hi.
    apply elem_of_seq in Hi. simpl. unfold updateAt.
    destruct (lookup_lt_is_Some_2 (treePositions m) i) as [t0 ->]; [lia|].
    destruct (lookup_lt_is_Some_2 (scatterPositions m) i) as [s0 ->]; [lia|].
    eauto. }
  destruct Hsome as [ts Hts]. exists ts. split; [exact Hts|].
  unfold update in Hts. apply mapM_Some in Hts.
  pose proof (Forall2_length _ _ _ Hts) as Hlen. rewrite length_seq in Hlen.
  split; [lia|]. intros i Hi.
  destruct (lookup_lt_is_Some_2 ts i) as [tr Htr]; [lia|].
  rewrite Htr. eapply Forall2_lookup_lr in Hts; [exact Hts| |exact Htr].
  now rewrite lookup_seq_lt.
Qed.

(** The body of the loop at morph value 1. *)
Lemma updateAt_scattered (m : t) (time : R) (i : nat) (t0 s : Vector3) :
  treePositions m !! i = Some t0 -> scatterPositions m !! i = Some s ->
  updateAt m 1 time i =
  Some (mkTransform
          (if default false (haloFlags m !! i)
           then Vector3.mk (Vector3.x s + sin (time * 0.4 + INR i * 0.1) * 0.02 * 1)
                           (Vector3.y s + cos (time * 0.3 + INR i * 0.2) * 0.02 * 1)
                           (Vector3.z s)
           else Vector3.addScaledVector s
                  (Vector3.normalize (Vector3.subVectors s scatterCenter))
                  (0.05 * 1 * sin (time * 2.0 + INR i * 0.1)))
          (INR i * 0.1) (INR i * 0.2)).
Proof.
  intros Ht Hs. unfold updateAt. rewrite Ht, Hs, eased_one, lerpVectors_one.
  destruct (decide (1 > 0.01)) as [_|Hn]; [|lra]. reflexivity.
Qed.


Lemma length_normalize_le (a : Vector3) : Vector3.length (Vector3.normalize a) <= 1.
Proof.
  apply square_le_le; [lra|]. rewrite length_sqr. unfold Vector3.normalize, Vector3.dot.
  cbn [Vector3.x Vector3.y Vector3.z].
  pose proof (length_sqr a) as Hl. unfold Vector3.dot in Hl.
  pose proof (length_nonneg a) as Hp.
  destruct (decide (Vector3.length a = 0)) as [H0|H0].
  - rewrite H0 in Hl. nra.
  - set (l := Vector3.length a) in *.
    replace (Vector3.x a / l * (Vector3.x a / l) + Vector3.y a / l * (Vector3.y a / l)
             + Vector3.z a / l * (Vector3.z a / l))
      with ((Vector3.x a * Vector3.x a + Vector3.y a * Vector3.y a
             + Vector3.z a * Vector3.z a) / (l * l)) by (field; exact H0).
    rewrite <- Hl. field_simplify; [lra|exact H0].
Qed.

(** An offset [dir * k] with [dir] of length at most 1 moves a point by at
    most [|k|]. *)
Lemma addScaledVector_distance (s dir : Vector3) (k b : R) :
  Vector3.length dir <= 1 -> -b <= k <= b ->
  Vector3.distanceTo (Vector3.addScaledVector s dir k) s <= b.
Proof.
  intros Hd Hk. unfold Vector3.distanceTo.
  apply square_le_le; [lra|]. rewrite length_sqr.
  unfold Vector3.dot, Vector3.subVectors, Vector3.addScaledVector.
  cbn [Vector3.x Vector3.y Vector3.z].
  pose proof (length_sqr dir) as Hl. unfold Vector3.dot in Hl.
  pose proof (length_nonneg dir) as Hp.
  replace ((Vector3.x s + Vector3.x dir * k - Vector3.x s)
           * (Vector3.x s + Vector3.x dir * k - Vector3.x s)
           + (Vector3.y s + Vector3.y dir * k - Vector3.y s)
             * (Vector3.y s + Vector3.y dir * k - Vector3.y s)
           + (Vector3.z s + Vector3.z dir * k - Vector3.z s)
             * (Vector3.z s + Vector3.z dir * k - Vector3.z s))
    with ((Vector3.length dir * Vector3.length dir) * (k * k)) by (rewrite Hl; ring).
  assert (k * k <= b * b) by nra.
  assert (Vector3.length dir * Vector3.length dir <= 1) by nra.
  assert (0 <= k * k) by nra. nra.
Qed.

Lemma halo_drift_distance (s : Vector3) (a b : R) :
  Vector3.distanceTo
    (Vector3.mk (Vector3.x s + sin a * 0.02) (Vector3.y s + cos b * 0.02) (Vector3.z s)) s
  <= 0.05.
Proof.
  unfold Vector3.distanceTo. apply square_le_le; [lra|]. rewrite length_sqr.
  unfold Vector3.dot, Vector3.subVectors. cbn [Vector3.x Vector3.y Vector3.z].
  pose proof (SIN_bound a). pose proof (COS_bound b). nra.
Qed.

(** C6, as stated, fails in its second half: at morph value 1 the idle
    motion is on.  A halo instance with scatter coordinate [(5, 0.2, 0)] is
    written at [(5, 0.22, 0)] at time 0. *)
Lemma settled_instance_off_scatter :
  wellFormed oneHalo /\
  scatterPositions oneHalo !! 0%nat = Some (Vector3.mk 5 0.2 0) /\
  exists tr, update oneHalo (ticks 136 1 0) 0 = Some [tr] /\
             position tr = Vector3.mk 5 0.22 0 /\
             position tr <> Vector3.mk 5 0.2 0.
Proof.
  split; [repeat split|]. split; [reflexivity|].
  rewrite ticks_136. unfold update. cbn [count oneHalo seq mapM].
  rewrite (updateAt_scattered oneHalo 0 0 (Vector3.mk 0 1 0) (Vector3.mk 5 0.2 0))
    by reflexivity.
  cbn [haloFlags oneHalo lookup list_lookup default Vector3.x Vector3.y Vector3.z].
  eexists. split; [reflexivity|]. cbn [position].
  replace (0 * 0.4 + INR 0 * 0.1) with 0 by (simpl; lra).
  replace (0 * 0.3 + INR 0 * 0.2) with 0 by (simpl; lra).
  rewrite sin_0, cos_0. split.
  - f_equal; lra.
  - intros H. injection H. lra.
Qed.

(** C6 (amended).  From [current = 0] with target 1 the smoothing step
    reaches exactly 1 on tick 136, not before, and stays there.  At that
    value the eased value is 1 and the interpolated position is the scatter
    coordinate, to which [update] adds the idle motion before writing: the
    drift [(0.02 * sin(0.4 t + 0.1 i), 0.02 * cos(0.3 t + 0.2 i), 0)] for a
    halo instance, the pulse [0.05 * sin(2 t + 0.1 i)] along the direction
    from the centre to the scatter coordinate for a core instance; every
    written position is within 0.05 of its scatter coordinate. *)
Theorem morph_settles_near_scatter (m : t) (time : R) :
  wellFormed m ->
  ticks 136 1 0 = 1 /\
  (forall n, (n < 136)%nat -> ticks n 1 0 < 1) /\
  (forall n, (136 <= n)%nat -> ticks n 1 0 = 1) /\
  eased (ticks 136 1 0) = 1 /\
  exists ts,
    update m (ticks 136 1 0) time = Some ts /\
    List.length ts = count m /\
    forall i s tr,
      scatterPositions m !! i = Some s -> ts !! i = Some tr ->
      position tr
      = (if default false (haloFlags m !! i)
         then Vector3.mk (Vector3.x s + sin (time * 0.4 + INR i * 0.1) * 0.02)
                         (Vector3.y s + cos (time * 0.3 + INR i * 0.2) * 0.02)
                         (Vector3.z s)
         else Vector3.addScaledVector s
                (Vector3.normalize (Vector3.subVectors s scatterCenter))
                (0.05 * sin (time * 2.0 + INR i * 0.1))) /\
      Vector3.distanceTo (position tr) s <= 0.05.
Proof.
  intros Hwf. split; [apply ticks_136|]. split; [apply ticks_before|].
  split; [apply ticks_settled|]. rewrite ticks_136. split; [apply eased_one|].
  destruct (update_wellFormed m 1 time Hwf) as (ts & Hts & Hlen & Hat).
  exists ts. split; [exact Hts|]. split; [exact Hlen|].
  intros i s tr Hs Htr.
  assert (Hi : (i < count m)%nat) by (rewrite <- Hlen; eapply lookup_lt_Some, Htr).
  destruct Hwf as (Hlt & _).
  destruct (lookup_lt_is_Some_2 (treePositions m) i) as [t0 Ht0]; [lia|].
  specialize (Hat i Hi). rewrite Htr, (updateAt_scattered m time i t0 s Ht0 Hs) in Hat.
  injection Hat as <-. cbn [position].
  destruct (default false (haloFlags m !! i)).
  - replace (sin (time * 0.4 + INR i * 0.1) * 0.02 * 1)
      with (sin (time * 0.4 + INR i * 0.1) * 0.02) by lra.
    replace (cos (time * 0.3 + INR i * 0.2) * 0.02 * 1)
      with (cos (time * 0.3 + INR i * 0.2) * 0.02) by lra.
    split; [reflexivity|]. apply halo_drift_distance.
  - replace (0.05 * 1 * sin (time * 2.0 + INR i * 0.1))
      with (0.05 * sin (time * 2.0 + INR i * 0.1)) by lra.
    split; [reflexivity|]. apply addScaledVector_distance.
    + apply length_normalize_le.
    + pose proof (SIN_bound (time * 2.0 + INR i * 0.1)). lra.
Qed.

Lemma morph_settles_near_scatter_witness :
  exists ts, update oneCore (ticks 136 1 0) 0 = Some ts /\ List.length ts = 1%nat.
Proof.
  assert (Hwf : wellFormed oneCore) by (repeat split).
  destruct (morph_settles_near_scatter oneCore 0 Hwf) as (_ & _ & _ & _ & ts & H1 & H2 & _).
  exists ts. split; [exact H1|exact H2].
Defined.

End MorphProperties.

Section ShaderProperties.

Import MorphingInstances.

Lemma mix_lerpVectors (a b : Vector3) (e : R) :
  BodyVertexShader.mix a b e = Vector3.lerpVectors a b e.
Proof.
  unfold BodyVertexShader.mix, Vector3.lerpVectors. f_equal; ring.
Qed.

(** Up to the idle-motion threshold [update] writes the interpolated
    position. *)
Lemma updateAt_still (m : t) (morphVal time : R) (i : nat) (t0 s : Vector3) :
  treePositions m !! i = Some t0 -> scatterPositions m !! i = Some s ->
  ~ morphVal > 0.01 ->
  updateAt m morphVal time i =
  Some (mkTransform (Vector3.lerpVectors t0 s (eased morphVal)) (INR i * 0.1) (INR i * 0.2)).
Proof.
  intros Ht Hs Hm. unfold updateAt. rewrite Ht, Hs.
  destruct (decide _); [contradiction|reflexivity].
Qed.

(** Up to that threshold the shader still adds its breathing sway along x
    and z. *)
Lemma main_still (morph time : R) (a : BodyVertexShader.Attributes) :
  ~ morph > 0.01 ->
  let base := Vector3.lerpVectors (BodyVertexShader.position a)
                (BodyVertexShader.aScatterPosition a) (eased morph) in
  let breathe := sin (time * 1.2 + Vector3.y base * 0.5) * 0.02 * (1.0 - eased morph) in
  BodyVertexShader.main morph time a
  = Vector3.mk (Vector3.x base + breathe) (Vector3.y base) (Vector3.z base + breathe).
Proof.
  intros Hm. cbn zeta. unfold BodyVertexShader.main.
  rewrite mix_lerpVectors, easeInOutCubic_eased.
  destruct (decide (morph < 0.99)) as [_|Hn]; [|lra].
  destruct (decide (morph > 0.01)); [contradiction|reflexivity].
Qed.

(** At morph value 1 the shader's halo drift. *)
Lemma main_scattered_halo (time : R) (t0 s : Vector3) (seed : R) :
  BodyVertexShader.main 1 time (BodyVertexShader.attributesOf t0 s true seed)
  = Vector3.mk
      (Vector3.x s + sin (time * 0.4 + seed * 12.0) * 0.4)
      (Vector3.y s + cos (time * 0.3 + seed * 25.0) * 0.5 * 0.4)
      (Vector3.z s + sin (time * 0.2 + Vector3.x s) * 0.4).
Proof.
  unfold BodyVertexShader.main, BodyVertexShader.attributesOf.
  cbn [BodyVertexShader.position BodyVertexShader.aScatterPosition
       BodyVertexShader.aSeed BodyVertexShader.aHalo].
  rewrite mix_lerpVectors, easeInOutCubic_eased, eased_one, lerpVectors_one.
  destruct (decide (1 < 0.99)) as [Hn|_]; [lra|].
  destruct (decide (1 > 0.01)) as [_|Hn]; [|lra].
  destruct (decide (1.0 > 0.5)) as [_|Hn]; [|lra].
  unfold Vector3.add, Vector3.multiplyScalar. cbn [Vector3.x Vector3.y Vector3.z].
  f_equal; ring.
Qed.


Lemma glsl_normalize_agrees (v : Vector3) :
  Vector3.length v <> 0 -> BodyVertexShader.normalize v = Vector3.normalize v.
Proof.
  intros H. unfold BodyVertexShader.normalize, Vector3.normalize. cbn zeta.
  destruct (decide (Vector3.length v = 0)); [contradiction|reflexivity].
Qed.

(** At morph value 1 the shader's core pulse. *)
Lemma main_scattered_core (time : R) (t0 s : Vector3) (seed : R) :
  ~ Vector3.length (Vector3.subVectors s scatterCenter) < 0.001 ->
  BodyVertexShader.main 1 time (BodyVertexShader.attributesOf t0 s false seed)
  = Vector3.addScaledVector s
      (Vector3.normalize (Vector3.subVectors s scatterCenter))
      (0.05 * sin (time * 1.5 + seed * 10.0 + Vector3.y s)).
Proof.
  intros Hl.
  unfold BodyVertexShader.main, BodyVertexShader.attributesOf.
  cbn [BodyVertexShader.position BodyVertexShader.aScatterPosition
       BodyVertexShader.aSeed BodyVertexShader.aHalo].
  rewrite mix_lerpVectors, easeInOutCubic_eased, eased_one, lerpVectors_one.
  destruct (decide (1 < 0.99)) as [Hn|_]; [lra|].
  destruct (decide (1 > 0.01)) as [_|Hn]; [|lra].
  destruct (decide (0.0 > 0.5)) as [Hn|_]; [lra|].
  replace (Vector3.mk 0.0 SCATTER_CENTER_Y 0.0) with scatterCenter
    by (unfold scatterCenter; f_equal; lra).
  destruct (decide _) as [Hn|_]; [contradiction|].
  rewrite glsl_normalize_agrees by lra.
  unfold Vector3.add, Vector3.multiplyScalar, Vector3.addScaledVector.
  cbn [Vector3.x Vector3.y Vector3.z]. f_equal; ring.
Qed.

(** The position that the vertex stage computes, for every morph value:
    the interpolated position, swayed along x and z below morph value 0.99,
    and above morph value 0.01 drifted (halo) or pulsed along the direction
    from the centre to the swayed position (core). *)
Lemma main_position (morph time : R) (t0 s : Vector3) (halo : bool) (seed : R) :
  let e := eased morph in
  let base := Vector3.lerpVectors t0 s e in
  let swayed :=
    if decide (morph < 0.99) then
      let breathe := sin (time * 1.2 + Vector3.y base * 0.5) * 0.02 * (1.0 - e) in
      Vector3.mk (Vector3.x base + breathe) (Vector3.y base) (Vector3.z base + breathe)
    else base in
  BodyVertexShader.main morph time (BodyVertexShader.attributesOf t0 s halo seed)
  = if decide (morph > 0.01) then
      if halo then
        Vector3.mk
          (Vector3.x swayed + sin (time * 0.4 + seed * 12.0) * 0.4 * e)
          (Vector3.y swayed + cos (time * 0.3 + seed * 25.0) * 0.5 * 0.4 * e)
          (Vector3.z swayed + sin (time * 0.2 + Vector3.x swayed) * 0.4 * e)
      else
        Vector3.addScaledVector swayed
          (if decide (Vector3.length (Vector3.subVectors swayed scatterCenter) < 0.001)
           then Vector3.mk 0 1 0
           else BodyVertexShader.normalize (Vector3.subVectors swayed scatterCenter))
          (0.05 * sin (time * 1.5 + seed * 10.0 + Vector3.y swayed) * e)
    else swayed.
Proof.
  cbn zeta. unfold BodyVertexShader.main, BodyVertexShader.attributesOf.
  cbn [BodyVertexShader.position BodyVertexShader.aScatterPosition
       BodyVertexShader.aSeed BodyVertexShader.aHalo].
  rewrite mix_lerpVectors, easeInOutCubic_eased.
  replace (Vector3.mk 0.0 SCATTER_CENTER_Y 0.0) with scatterCenter
    by (unfold scatterCenter; f_equal; lra).
  set (swayed := if decide (morph < 0.99) then _ else _).
  destruct (decide (morph > 0.01)); [|reflexivity].
  destruct halo.
  - destruct (decide (1.0 > 0.5)) as [_|Hn]; [|lra].
    unfold Vector3.add, Vector3.multiplyScalar. cbn [Vector3.x Vector3.y Vector3.z].
    f_equal; lra.
  - destruct (decide (0.0 > 0.5)) as [Hn|_]; [lra|].
    unfold Vector3.add, Vector3.multiplyScalar, Vector3.addScaledVector.
    destruct (decide (Vector3.length (Vector3.subVectors swayed scatterCenter) < 0.001));
      cbn [Vector3.x Vector3.y Vector3.z]; f_equal; lra.
Qed.

(** C4, as stated, fails: for the same inputs the two positions differ.
    At morph value 0 and time 0 the shader's breathing sway moves a point at
    height 1 by [0.02 * sin 0.5] along x, while [update] writes the tree
    position; at morph value 1 and time 0 the shader lifts a halo point by
    0.2, [update] by 0.02. *)
Lemma shader_position_differs :
  (exists tr, update oneCore 0 0 = Some [tr] /\
     BodyVertexShader.main 0 0
       (BodyVertexShader.attributesOf (Vector3.mk 0 1 0) (Vector3.mk 2 0.2 0) false 0)
     <> position tr) /\
  (exists tr, update oneHalo 1 0 = Some [tr] /\
     BodyVertexShader.main 1 0
       (BodyVertexShader.attributesOf (Vector3.mk 0 1 0) (Vector3.mk 5 0.2 0) true 0)
     <> position tr).
Proof.
  split.
  - unfold update. cbn [count oneCore seq mapM].
    rewrite (updateAt_still oneCore 0 0 0 (Vector3.mk 0 1 0) (Vector3.mk 2 0.2 0))
      by (try reflexivity; lra).
    eexists. split; [reflexivity|]. cbn [position].
    rewrite main_still by lra.
    unfold BodyVertexShader.attributesOf.
    cbn [BodyVertexShader.position BodyVertexShader.aScatterPosition].
    rewrite eased_zero, lerpVectors_zero. cbn [Vector3.x Vector3.y Vector3.z].
    intros H. injection H as Hx _.
    assert (Hs : 0 < sin (0 * 1.2 + 1 * 0.5)).
    { apply sin_gt_0; pose proof PI2_3_2; lra. }
    nra.
  - unfold update. cbn [count oneHalo seq mapM].
    rewrite (updateAt_scattered oneHalo 0 0 (Vector3.mk 0 1 0) (Vector3.mk 5 0.2 0))
      by reflexivity.
    cbn [haloFlags oneHalo lookup list_lookup default Vector3.x Vector3.y Vector3.z].
    eexists. split; [reflexivity|]. cbn [position].
    rewrite main_scattered_halo. cbn [Vector3.x Vector3.y Vector3.z].
    replace (0 * 0.3 + 0 * 25.0) with 0 by lra.
    replace (0 * 0.3 + INR 0 * 0.2) with 0 by (simpl; lra).
    rewrite cos_0. intros H. injection H as _ Hy _. lra.
Qed.

(** C4 (amended).  The vertex shader uses the same easing function and the
    same eased linear interpolation between the two formation positions as
    [MorphingInstances.update]; its idle motion is a different one.  For
    every morph value: both add an idle motion, scaled by the eased morph
    value and chosen by the halo flag, exactly when the morph value is above
    0.01; the shader first sways the interpolated position along x and z
    exactly when the morph value is below 0.99, which [update] never does;
    and the shader pulses a core point along the direction from the centre
    to the swayed position (straight up within 0.001 of the centre),
    [update] along the direction from the centre to the scatter position.
    So up to morph value 0.01 [update] writes the interpolated position and
    the shader that position swayed.  At morph value 1, for a halo
    point the shader drifts along three axes with amplitude 0.4 (0.2 along y)
    and phases from the seed, [update] along x and y with amplitude 0.02 and
    phases from the index; for a core point both pulse with amplitude 0.05
    along the direction from the centre, the shader with phase
    [1.5 t + 10 seed + y], [update] with phase [2 t + 0.1 i]. *)
Theorem shader_shares_easing_and_interpolation
        (m : t) (i : nat) (t0 s : Vector3) (time seed : R) :
  treePositions m !! i = Some t0 -> scatterPositions m !! i = Some s ->
  (forall v, BodyVertexShader.easeInOutCubic v = eased v) /\
  (forall a b e, BodyVertexShader.mix a b e = Vector3.lerpVectors a b e) /\
  (forall (morph : R) (halo : bool), haloFlags m !! i = Some halo ->
     let e := eased morph in
     let base := Vector3.lerpVectors t0 s e in
     let swayed :=
       if decide (morph < 0.99) then
         let breathe := sin (time * 1.2 + Vector3.y base * 0.5) * 0.02 * (1.0 - e) in
         Vector3.mk (Vector3.x base + breathe) (Vector3.y base) (Vector3.z base + breathe)
       else base in
     position <$> updateAt m morph time i
     = Some (if decide (morph > 0.01) then
               if halo then
                 Vector3.mk (Vector3.x base + sin (time * 0.4 + INR i * 0.1) * 0.02 * e)
                            (Vector3.y base + cos (time * 0.3 + INR i * 0.2) * 0.02 * e)
                            (Vector3.z base)
               else
                 Vector3.addScaledVector base
                   (Vector3.normalize (Vector3.subVectors s scatterCenter))
                   (0.05 * e * sin (time * 2.0 + INR i * 0.1))
             else base) /\
     BodyVertexShader.main morph time (BodyVertexShader.attributesOf t0 s halo seed)
     = if decide (morph > 0.01) then
         if halo then
           Vector3.mk
             (Vector3.x swayed + sin (time * 0.4 + seed * 12.0) * 0.4 * e)
             (Vector3.y swayed + cos (time * 0.3 + seed * 25.0) * 0.5 * 0.4 * e)
             (Vector3.z swayed + sin (time * 0.2 + Vector3.x swayed) * 0.4 * e)
         else
           Vector3.addScaledVector swayed
             (if decide (Vector3.length (Vector3.subVectors swayed scatterCenter) < 0.001)
              then Vector3.mk 0 1 0
              else BodyVertexShader.normalize (Vector3.subVectors swayed scatterCenter))
             (0.05 * sin (time * 1.5 + seed * 10.0 + Vector3.y swayed) * e)
       else swayed) /\
  (forall morph halo, ~ morph > 0.01 ->
     let base := Vector3.lerpVectors t0 s (eased morph) in
     let breathe := sin (time * 1.2 + Vector3.y base * 0.5) * 0.02 * (1.0 - eased morph) in
     position <$> updateAt m morph time i = Some base /\
     BodyVertexShader.main morph time (BodyVertexShader.attributesOf t0 s halo seed)
     = Vector3.mk (Vector3.x base + breathe) (Vector3.y base) (Vector3.z base + breathe)) /\
  (haloFlags m !! i = Some true ->
     position <$> updateAt m 1 time i
     = Some (Vector3.mk (Vector3.x s + sin (time * 0.4 + INR i * 0.1) * 0.02)
                        (Vector3.y s + cos (time * 0.3 + INR i * 0.2) * 0.02)
                        (Vector3.z s)) /\
     BodyVertexShader.main 1 time (BodyVertexShader.attributesOf t0 s true seed)
     = Vector3.mk (Vector3.x s + sin (time * 0.4 + seed * 12.0) * 0.4)
                  (Vector3.y s + cos (time * 0.3 + seed * 25.0) * 0.5 * 0.4)
                  (Vector3.z s + sin (time * 0.2 + Vector3.x s) * 0.4)) /\
  (haloFlags m !! i = Some false ->
     ~ Vector3.length (Vector3.subVectors s scatterCenter) < 0.001 ->
     position <$> updateAt m 1 time i
     = Some (Vector3.addScaledVector s
               (Vector3.normalize (Vector3.subVectors s scatterCenter))
               (0.05 * sin (time * 2.0 + INR i * 0.1))) /\
     BodyVertexShader.main 1 time (BodyVertexShader.attributesOf t0 s false seed)
     = Vector3.addScaledVector s
         (Vector3.normalize (Vector3.subVectors s scatterCenter))
         (0.05 * sin (time * 1.5 + seed * 10.0 + Vector3.y s))).
Proof.
  intros Ht Hs. split; [apply easeInOutCubic_eased|]. split; [apply mix_lerpVectors|].
  split; [|split; [|split]].
  - intros morph halo Hh. cbn zeta. split.
    + unfold updateAt. rewrite Ht, Hs, Hh.
      cbn [fmap option_fmap option_map default position].
      destruct (decide (morph > 0.01)); [destruct halo|]; reflexivity.
    + apply main_position.
  - intros morph halo Hm. cbn zeta. split.
    + now rewrite (updateAt_still m morph time i t0 s Ht Hs Hm).
    + apply (main_still morph time (BodyVertexShader.attributesOf t0 s halo seed) Hm).
  - intros Hh. split; [|apply main_scattered_halo].
    rewrite (updateAt_scattered m time i t0 s Ht Hs), Hh. cbn [fmap option_fmap option_map default position].
    do 2 f_equal; lra.
  - intros Hh Hl. split; [|now apply main_scattered_core].
    rewrite (updateAt_scattered m time i t0 s Ht Hs), Hh. cbn [fmap option_fmap option_map default position].
    do 2 f_equal. lra.
Qed.

Lemma shader_shares_easing_and_interpolation_witness :
  position <$> updateAt oneHalo 0 0 0%nat = Some (Vector3.lerpVectors (Vector3.mk 0 1 0) (Vector3.mk 5 0.2 0) (eased 0)).
Proof.
  destruct (shader_shares_easing_and_interpolation oneHalo 0 (Vector3.mk 0 1 0)
              (Vector3.mk 5 0.2 0) 0 0 eq_refl eq_refl) as (_ & _ & _ & H & _).
  refine (proj1 (H 0 true _)). lra.
Defined.

End ShaderProperties.

Section FocusProperties.

Import Focus.

Lemma visit_bestOf camPos seen b p :
  bestOf camPos seen b -> bestOf camPos (seen ++ [p]) (visit camPos b p).
Proof.
  intros Hb. destruct seen as [|s0 seen].
  - simpl in Hb. subst b. simpl. exists p. split; [apply list_elem_of_singleton; reflexivity|].
    split; [reflexivity|]. intros q Hq. apply list_elem_of_singleton in Hq. subst. lra.
  - destruct Hb as (p0 & Hin & -> & Hmin).
    change ((s0 :: seen) ++ [p]) with (s0 :: (seen ++ [p])). cbn [bestOf].
    change (s0 :: (seen ++ [p])) with ((s0 :: seen) ++ [p]).
    unfold visit. cbn [bestDist]. fold (dist camPos p).
    destruct (decide (dist camPos p < dist camPos p0)) as [Hlt|Hge].
    + exists p. split; [apply elem_of_app; right; apply list_elem_of_singleton; reflexivity|].
      split; [reflexivity|]. intros q Hq. apply elem_of_app in Hq as [Hq|Hq].
      * specialize (Hmin q Hq). lra.
      * apply list_elem_of_singleton in Hq. subst. lra.
    + exists p0. split; [apply elem_of_app; left; exact Hin|]. split; [reflexivity|].
      intros q Hq. apply elem_of_app in Hq as [Hq|Hq].
      * apply Hmin, Hq.
      * apply list_elem_of_singleton in Hq. subst. lra.
Qed.

Lemma fold_visit_bestOf camPos l : forall seen b,
  bestOf camPos seen b -> bestOf camPos (seen ++ l) (fold_left (visit camPos) l b).
Proof.
  induction l as [|p l IH]; intros seen b Hb.
  - now rewrite app_nil_r.
  - simpl. replace (seen ++ p :: l) with ((seen ++ [p]) ++ l) by now rewrite <- app_assoc.
    apply IH, visit_bestOf, Hb.
Qed.

(** The identity that the loop selects belongs to a photo at least as near
    to the camera as every other. *)
Lemma nearest_spec camPos photos :
  photos <> [] ->
  exists p, p ∈ photos /\ bestId (nearest camPos photos) = Some (idx p) /\
            forall q, q ∈ photos -> dist camPos p <= dist camPos q.
Proof.
  intros Hne. pose proof (fold_visit_bestOf camPos photos [] (mkBest None None) eq_refl) as H.
  simpl app in H. destruct photos as [|p0 photos]; [contradiction|].
  destruct H as (p & Hin & Hb & Hmin). exists p. split; [exact Hin|].
  split; [|exact Hmin]. unfold nearest. now rewrite Hb.
Qed.

Lemma animateFocus_select camPos photos :
  photos <> [] ->
  exists p, p ∈ photos /\
            (forall q, q ∈ photos -> dist camPos p <= dist camPos q) /\
            animateFocus (Some camPos) photos (mkFocusState true None)
            = mkFocusState true (Some (idx p)).
Proof.
  intros Hne. destruct (nearest_spec camPos photos Hne) as (p & Hin & Hb & Hmin).
  exists p. split; [exact Hin|]. split; [exact Hmin|].
  destruct photos as [|p0 photos]; [contradiction|].
  unfold animateFocus. cbn [active id]. now rewrite Hb.
Qed.

Lemma animateFocus_hold cam photos k :
  animateFocus cam photos (mkFocusState true (Some k)) = mkFocusState true (Some k).
Proof. reflexivity. Qed.

Lemma animateFocus_clear cam photos fs :
  active fs = false -> animateFocus cam photos fs = mkFocusState false None.
Proof. intros H. unfold animateFocus. rewrite H. now destruct (id fs), photos, cam. Qed.





(** *** The photo store *)










End FocusProperties.

Section BloomProperties.
Import Bloom.
Context {Material : Type} (darkMaterial : Material).

Implicit Types (o : Object3D Material) (p q : Props Material) (m : gmap string Material).

Lemma traverse_Node callback p cs m :
  traverse callback (Node p cs) m =
  let '(p', m1) := callback p m in
  let '(cs', m2) := traverseAll callback cs m1 in
  (Node p' cs', m2).
Proof.
  cbn [traverse]. destruct (callback p m) as [p' m1].
  assert (H : forall l m0,
    (fix each (l : list (Object3D Material)) (m : gmap string Material) :=
       match l with
       | [] => ([], m)
       | c :: l' =>
           let '(c', m') := traverse callback c m in
           let '(l'', m'') := each l' m' in (c' :: l'', m'')
       end) l m0 = traverseAll callback l m0).
  { induction l as [|c l IH]; intros m0; [reflexivity|].
    cbn [traverseAll]. destruct (traverse callback c m0) as [c' m']. now rewrite IH. }
  now rewrite H.
Qed.

Lemma darken_eq p m : darken darkMaterial p m = (darkened darkMaterial p, recorded m p).
Proof. unfold darken, darkened, recorded, darkens. now destruct (_ && _). Qed.

Lemma objects_mapObjects f o : objects (mapObjects f o) = map f (objects o).
Proof.
  induction o as [p cs IH] using Object3D_forall_ind. cbn [mapObjects objects map].
  f_equal. induction IH as [|c cs Hc _ IHcs]; [reflexivity|].
  cbn [map flat_map]. now rewrite map_app, Hc, IHcs.
Qed.

(** The darkening traversal: every object is darkened on its own, and the
    records accumulate in traversal order. *)
Lemma traverse_darken o : forall m,
  traverse (darken darkMaterial) o m
  = (mapObjects (darkened darkMaterial) o, fold_left recorded (objects o) m).
Proof.
  induction o as [p cs IH] using Object3D_forall_ind. intros m.
  rewrite traverse_Node, darken_eq. cbn [mapObjects objects fold_left].
  assert (H : forall m0, traverseAll (darken darkMaterial) cs m0
            = (map (mapObjects (darkened darkMaterial)) cs,
               fold_left recorded (flat_map objects cs) m0)).
  { induction IH as [|c cs Hc _ IHcs]; intros m0; [reflexivity|].
    cbn [traverseAll map flat_map]. rewrite Hc, IHcs, fold_left_app. reflexivity. }
  now rewrite H.
Qed.

Lemma recorded_absent l : forall m u,
  u ∉ uuid <$> l -> fold_left recorded l m !! u = m !! u.
Proof.
  induction l as [|p l IH]; intros m u Hu; [reflexivity|].
  rewrite fmap_cons in Hu. apply not_elem_of_cons in Hu as [Hp Hu].
  cbn [fold_left]. rewrite IH by exact Hu. unfold recorded.
  destruct (darkens p); [|reflexivity]. now rewrite lookup_insert_ne.
Qed.

Lemma recorded_present l : forall m q,
  NoDup (uuid <$> l) -> q ∈ l ->
  fold_left recorded l m !! uuid q = if darkens q then Some (material q) else m !! uuid q.
Proof.
  induction l as [|p l IH]; intros m q Hnd Hq; [now apply elem_of_nil in Hq|].
  rewrite fmap_cons in Hnd. apply NoDup_cons in Hnd as [Hp Hnd].
  cbn [fold_left]. apply elem_of_cons in Hq as [->|Hq].
  - rewrite recorded_absent by exact Hp. unfold recorded.
    destruct (darkens p); [apply lookup_insert_eq|reflexivity].
  - rewrite IH by assumption. destruct (darkens q); [reflexivity|].
    unfold recorded. destruct (darkens p); [|reflexivity].
    apply lookup_insert_ne. intros E. apply Hp. rewrite E.
    apply list_elem_of_fmap. now exists q.
Qed.

Lemma forgotten_absent l : forall m u,
  u ∉ uuid <$> l -> fold_left forgotten l m !! u = m !! u.
Proof.
  induction l as [|p l IH]; intros m u Hu; [reflexivity|].
  rewrite fmap_cons in Hu. apply not_elem_of_cons in Hu as [Hp Hu].
  cbn [fold_left]. rewrite IH by exact Hu. unfold forgotten. now rewrite lookup_delete_ne.
Qed.

Lemma forgotten_present l : forall m u,
  u ∈ uuid <$> l -> fold_left forgotten l m !! u = None.
Proof.
  induction l as [|p l IH]; intros m u Hu; [now apply elem_of_nil in Hu|].
  rewrite fmap_cons in Hu. cbn [fold_left].
  destruct (decide (u ∈ uuid <$> l)) as [Hin|Hout]; [now apply IH|].
  apply elem_of_cons in Hu as [->|Hu]; [|contradiction].
  rewrite forgotten_absent by exact Hout. apply lookup_delete_eq.
Qed.

Lemma restore_darkened p m :
  m !! uuid p = (if darkens p then Some (material p) else None) ->
  restore (darkened darkMaterial p) m = (p, forgotten m p).
Proof.
  intros H. unfold restore, darkened, forgotten. destruct p as [u im ly mat].
  cbn [uuid isMesh layers material] in *.
  destruct (darkens _); cbn [uuid isMesh layers material]; rewrite H; [reflexivity|].
  f_equal. symmetry. now apply delete_id.
Qed.

(** The restoring traversal undoes the darkening of a scene whose records
    the map holds, and removes them. *)
Lemma traverse_restore o : forall m,
  NoDup (uuid <$> objects o) -> holds (objects o) m ->
  traverse restore (mapObjects (darkened darkMaterial) o) m
  = (o, fold_left forgotten (objects o) m).
Proof.
  induction o as [p cs IH] using Object3D_forall_ind. intros m Hnd Hm.
  cbn [mapObjects objects] in *. rewrite traverse_Node.
  rewrite fmap_cons in Hnd. apply NoDup_cons in Hnd as [Hp Hnd].
  rewrite restore_darkened by (apply Hm, elem_of_cons; now left).
  cbn [fold_left].
  assert (Hm1 : holds (flat_map objects cs) (forgotten m p)).
  { intros q Hq. unfold forgotten. rewrite lookup_delete_ne.
    - apply Hm, elem_of_cons. now right.
    - intros E. apply Hp. rewrite E. apply list_elem_of_fmap. now exists q. }
  clear Hm Hp. revert Hnd Hm1. generalize (forgotten m p). clear m.
  assert (H : forall m0, NoDup (uuid <$> flat_map objects cs) ->
            holds (flat_map objects cs) m0 ->
            traverseAll restore (map (mapObjects (darkened darkMaterial)) cs) m0
            = (cs, fold_left forgotten (flat_map objects cs) m0)).
  { induction IH as [|c cs Hc _ IHcs]; intros m0 Hnd Hm0; [reflexivity|].
    cbn [traverseAll map flat_map] in *.
    rewrite fmap_app in Hnd. apply NoDup_app in Hnd as (Hndc & Hdisj & Hndcs).
    rewrite Hc; [|exact Hndc|intros q Hq; apply Hm0, elem_of_app; now left].
    rewrite IHcs; [now rewrite fold_left_app|exact Hndcs|].
    intros q Hq. rewrite forgotten_absent.
    - apply Hm0, elem_of_app. now right.
    - intros Hin. apply (Hdisj _ Hin). apply list_elem_of_fmap. now exists q. }
  intros m0 Hnd Hm0. now rewrite H.
Qed.

(** A frame from a map that has no record of the scene's objects leaves
    the scene and the map as they were. *)
Lemma renderFrame_roundtrip o m :
  NoDup (uuid <$> objects o) ->
  (forall q, q ∈ objects o -> m !! uuid q = None) ->
  renderFrame darkMaterial o m
  = mkFrame o m
      (map (fun p => (uuid p, if darkens p then darkMaterial else material p)) (objects o))
      (rendered o).
Proof.
  intros Hnd Hfree. unfold renderFrame. rewrite traverse_darken.
  rewrite traverse_restore.
  - f_equal.
    + apply map_eq. intros u.
      destruct (decide (u ∈ uuid <$> objects o)) as [Hin|Hout].
      * rewrite forgotten_present by exact Hin.
        apply list_elem_of_fmap in Hin as (q & -> & Hq). symmetry. now apply Hfree.
      * rewrite forgotten_absent by exact Hout. now apply recorded_absent.
    + unfold rendered. rewrite objects_mapObjects, map_map. apply map_ext.
      intros p. unfold darkened. now destruct (darkens p).
  - exact Hnd.
  - intros q Hq. rewrite recorded_present by assumption.
    destruct (darkens q); [reflexivity|]. now apply Hfree.
Qed.


(** C9.  In every frame the material substitution is undone before the
    final pass.  For a scene whose objects have distinct uuids and an empty
    [materials] map, as at the start of every frame: the bloom pass sees the
    dark material on every mesh outside the bloom layer and the own material
    of every other object; after the restoring traversal every object has
    its original material again and the map is empty again; the final pass
    is given the original materials. *)
Theorem bloom_substitution_reversed (scene : Object3D Material) :
  NoDup (uuid <$> objects scene) ->
  let f := renderFrame darkMaterial scene ∅ in
  sceneAfter f = scene /\
  materialsAfter f = ∅ /\
  bloomPassInput f
  = map (fun p => (uuid p,
                   if isMesh p && negb (Layers.test (layers p) bloomLayer)
                   then darkMaterial else material p)) (objects scene) /\
  finalPassInput f = rendered scene /\
  (forall p, p ∈ objects scene -> (uuid p, material p) ∈ finalPassInput f).
Proof.
  intros Hnd. cbn zeta.
  rewrite renderFrame_roundtrip by (try assumption; intros; apply lookup_empty).
  cbn [sceneAfter materialsAfter bloomPassInput finalPassInput].
  repeat split. intros p Hp. unfold rendered.
  apply list_elem_of_In, in_map_iff. exists p. split; [reflexivity|].
  now apply list_elem_of_In.
Qed.

End BloomProperties.

Lemma bloom_substitution_reversed_witness :
  Bloom.sceneAfter (Bloom.renderFrame "black" Bloom.sampleScene ∅) = Bloom.sampleScene /\
  Bloom.bloomPassInput (Bloom.renderFrame "black" Bloom.sampleScene ∅)
  = [("root", "none"); ("ornament", "black"); ("ribbon", "gold")].
Proof.
  assert (Hnd : NoDup (Bloom.uuid <$> Bloom.objects Bloom.sampleScene)).
  { apply (bool_decide_unpack _). vm_compute. exact I. }
  destruct (bloom_substitution_reversed "black" Bloom.sampleScene Hnd) as (H1 & _ & H2 & _).
  split; [exact H1|]. rewrite H2. reflexivity.
Defined.

Section ClassifyProperties.

Import Gesture Classify.

Lemma dist_is_Some l i j : is_Some (dist l i j) <-> (i < List.length l /\ j < List.length l)%nat.
Proof.
  unfold dist. split.
  - intros H. destruct (l !! i) eqn:Hi; [|now destruct H].
    destruct (l !! j) eqn:Hj; [|now destruct H].
    split; eapply lookup_lt_Some; eassumption.
  - intros [Hi Hj].
    destruct (lookup_lt_is_Some_2 l i Hi) as [a ->].
    destruct (lookup_lt_is_Some_2 l j Hj) as [b ->]. eauto.
Qed.

Lemma extended_is_Some l tip joint :
  is_Some (extended l tip joint)
  <-> (0 < List.length l /\ tip < List.length l /\ joint < List.length l)%nat.
Proof.
  unfold extended. split.
  - intros H. destruct (dist l 0 tip) eqn:Ht; [|now destruct H].
    destruct (dist l 0 joint) eqn:Hj; [|now destruct H].
    assert (H1 : is_Some (dist l 0 tip)) by (rewrite Ht; eauto).
    assert (H2 : is_Some (dist l 0 joint)) by (rewrite Hj; eauto).
    apply dist_is_Some in H1, H2. lia.
  - intros (H0 & Ht & Hj).
    destruct (proj2 (dist_is_Some l 0 tip) (conj H0 Ht)) as [dt ->].
    destruct (proj2 (dist_is_Some l 0 joint) (conj H0 Hj)) as [dj ->]. eauto.
Qed.

Lemma classifyFlags_thumb e0 e0' e1 e2 e3 e4 :
  classifyFlags e0 e1 e2 e3 e4 = classifyFlags e0' e1 e2 e3 e4.
Proof. reflexivity. Qed.

Lemma dist_agree l l' i j :
  l !! i = l' !! i -> l !! j = l' !! j -> dist l i j = dist l' i j.
Proof. intros Hi Hj. unfold dist. now rewrite Hi, Hj. Qed.

Lemma extended_agree l l' tip joint :
  l !! 0%nat = l' !! 0%nat -> l !! tip = l' !! tip -> l !! joint = l' !! joint ->
  extended l tip joint = extended l' tip joint.
Proof.
  intros H0 Ht Hj. unfold extended.
  now rewrite (dist_agree l l' 0 tip), (dist_agree l l' 0 joint).
Qed.

Lemma sqrt_scaled (k dx dy : R) :
  sqrt (Math.pow (k * dx) 2 + Math.pow (k * dy) 2)
  = Rabs k * sqrt (Math.pow dx 2 + Math.pow dy 2).
Proof.
  unfold Math.pow.
  replace ((k * dx) ^ 2 + (k * dy) ^ 2) with (Rsqr k * (dx ^ 2 + dy ^ 2))
    by (unfold Rsqr; ring).
  rewrite sqrt_mult; [|apply Rle_0_sqr|nra].
  now rewrite sqrt_Rsqr_abs.
Qed.

Lemma dist_similar k a b l i j :
  dist (similar k a b <$> l) i j = (fun d => Rabs k * d) <$> dist l i j.
Proof.
  unfold dist. rewrite !list_lookup_fmap.
  destruct (l !! i) as [p|]; [|reflexivity].
  destruct (l !! j) as [q|]; [|reflexivity].
  cbn [fmap option_fmap option_map similar x y]. f_equal.
  replace (k * x p + a - (k * x q + a)) with (k * (x p - x q)) by ring.
  replace (k * y p + b - (k * y q + b)) with (k * (y p - y q)) by ring.
  apply sqrt_scaled.
Qed.

Lemma extended_similar k a b l tip joint :
  k <> 0 ->
  extended (similar k a b <$> l) tip joint = extended l tip joint.
Proof.
  intros Hk. unfold extended. rewrite !dist_similar.
  destruct (dist l 0 tip) as [dt|]; [|reflexivity].
  destruct (dist l 0 joint) as [dj|]; [|reflexivity].
  cbn [fmap option_fmap option_map]. f_equal.
  pose proof (Rabs_pos_lt k Hk) as Hpos.
  apply bool_decide_ext. split; intros H; nra.
Qed.

(** X1. [classifyGesture] returns a class exactly when the hand has at least 21
    landmarks; with fewer it throws. *)
Theorem classifyGesture_defined (landmarks : list NormalizedLandmark) :
  is_Some (classifyGesture landmarks) <-> (21 <= List.length landmarks)%nat.
Proof.
  unfold classifyGesture. split.
  - intros H.
    destruct (extended landmarks 4 3); [|now destruct H].
    destruct (extended landmarks 8 6); [|now destruct H].
    destruct (extended landmarks 12 10); [|now destruct H].
    destruct (extended landmarks 16 14); [|now destruct H].
    destruct (extended landmarks 20 18) eqn:E; [|now destruct H].
    assert (H1 : is_Some (extended landmarks 20 18)) by (rewrite E; eauto).
    apply extended_is_Some in H1. lia.
  - intros H.
    destruct (proj2 (extended_is_Some landmarks 4 3)) as [? ->]; [lia|].
    destruct (proj2 (extended_is_Some landmarks 8 6)) as [? ->]; [lia|].
    destruct (proj2 (extended_is_Some landmarks 12 10)) as [? ->]; [lia|].
    destruct (proj2 (extended_is_Some landmarks 16 14)) as [? ->]; [lia|].
    destruct (proj2 (extended_is_Some landmarks 20 18)) as [? ->]; [lia|]. eauto.
Qed.

(** X2. The class depends on nine landmarks only: two hands of 21 landmarks
    that agree on the wrist and on the joint and tip of the four fingers get
    the same class, whatever the thumb does. *)
Theorem classifyGesture_deciding (l l' : list NormalizedLandmark) :
  (21 <= List.length l)%nat -> (21 <= List.length l')%nat ->
  (forall i, i ∈ deciding -> l !! i = l' !! i) ->
  classifyGesture l = classifyGesture l'.
Proof.
  intros Hl Hl' Hag.
  assert (Hi : forall i, In i deciding -> l !! i = l' !! i)
    by (intros i Hin; apply Hag, list_elem_of_In, Hin).
  unfold classifyGesture.
  rewrite (extended_agree l l' 8 6), (extended_agree l l' 12 10),
    (extended_agree l l' 16 14), (extended_agree l l' 20 18)
    by (apply Hi; simpl; tauto).
  destruct (proj2 (extended_is_Some l 4 3)) as [e0 ->]; [lia|].
  destruct (proj2 (extended_is_Some l' 4 3)) as [e0' ->]; [lia|].
  destruct (extended l' 8 6), (extended l' 12 10), (extended l' 16 14),
    (extended l' 20 18); reflexivity.
Qed.

(** X3. The class does not change when the hand is moved in the image or
    scaled (or mirrored) about a point. *)
Theorem classifyGesture_similar (k a b : R) (landmarks : list NormalizedLandmark) :
  k <> 0 ->
  classifyGesture (similar k a b <$> landmarks) = classifyGesture landmarks.
Proof.
  intros Hk. unfold classifyGesture. now rewrite !extended_similar.
Qed.

End ClassifyProperties.

Section ClassifyWitnesses.

Import Gesture Classify Frames.

Lemma classifyGesture_deciding_witness :
  classifyGesture closedHand = classifyGesture thumbOut.
Proof.
  apply classifyGesture_deciding.
  - simpl. lia.
  - simpl. lia.
  - intros i Hi. unfold deciding in Hi.
    repeat (apply elem_of_cons in Hi as [->|Hi]; [reflexivity|]).
    now apply elem_of_nil in Hi.
Defined.

Lemma classifyGesture_similar_witness :
  classifyGesture (similar 2 0.1 0.1 <$> closedHand) = classifyGesture closedHand.
Proof. apply classifyGesture_similar. lra. Defined.

End ClassifyWitnesses.

Section FrameProperties.

Import Gesture Frames.

(** What a frame does to the gesture state and which actions it dispatches
    depends on the gesture state only. *)
Lemma predictWebcam_gesture_only f c c' :
  gestureState c = gestureState c' ->
  gestureState (fst (predictWebcam f c)) = gestureState (fst (predictWebcam f c')) /\
  snd (predictWebcam f c) = snd (predictWebcam f c').
Proof.
  intros E. unfold predictWebcam. destruct (landmarks f) as [h|]; [|simpl; auto].
  unfold commit. cbn [gestureState]. rewrite !trackWrist_gestureState, E.
  destruct (8 <=? _)%nat.
  - destruct (dispatch _ _ _). cbn [fst snd gestureState]. auto.
  - cbn [fst snd gestureState]. auto.
Qed.

Lemma predictWebcam_lost t c :
  predictWebcam (lost t) c
  = (mkControl (gestureState c) None (dragRef c) false false (debugGesture c), []).
Proof. reflexivity. Qed.

Lemma run_gesture_only fs : forall c c',
  gestureState c = gestureState c' ->
  gestureState (fst (run fs c)) = gestureState (fst (run fs c')) /\
  snd (run fs c) = snd (run fs c').
Proof.
  induction fs as [|f fs IH]; intros c c' E; [simpl; auto|].
  rewrite !run_cons. cbn [fst snd].
  destruct (predictWebcam_gesture_only f c c' E) as [E1 E2].
  destruct (IH _ _ E1) as [E3 E4]. rewrite E2, E3, E4. auto.
Qed.

(** X4. Frames without a hand leave the gesture state alone: the debounce
    counter, the stable class and the cooldown of a run are those of the run
    without them, and so are the actions. *)
Theorem run_ignores_lost_frames (fs : list Frame) (c : Control) :
  gestureState (fst (run fs c)) = gestureState (fst (run (withHand fs) c)) /\
  snd (run fs c) = snd (run (withHand fs) c).
Proof.
  revert c. induction fs as [|f fs IH]; intros c; [simpl; auto|].
  unfold withHand in *. rewrite filter_cons. destruct (decide _) as [Hh|Hn].
  - rewrite !run_cons. cbn [fst snd]. destruct (IH (fst (predictWebcam f c))) as [E1 E2].
    rewrite E1, E2. auto.
  - rewrite run_cons. cbn [fst snd].
    assert (Hl : landmarks f = None) by (destruct (landmarks f); [elim Hn; eauto|reflexivity]).
    unfold predictWebcam at 1 2 3. rewrite Hl. cbn [fst snd app].
    destruct (run_gesture_only fs
      (mkControl (gestureState c) None (dragRef c) false false (debugGesture c)) c eq_refl)
      as [E1 E2].
    destruct (IH c) as [E3 E4]. rewrite E1, E2, E3, E4. auto.
Qed.

(** A frame dispatches nothing and keeps [lastActionTime], or dispatches one
    action, more than 800 ms after [lastActionTime], which becomes the time
    of the frame: [setTargetMorph(0)] for FIST, [setTargetMorph(1)] for
    OPEN_PALM, from a counter of 8 or more. *)
Lemma predictWebcam_outcome f c :
  (snd (predictWebcam f c) = [] /\
   lastActionTime (gestureState (fst (predictWebcam f c))) = lastActionTime (gestureState c))
  \/
  (exists h, landmarks f = Some h /\
     (rawGesture h = FIST /\ snd (predictWebcam f c) = [SetTargetMorph 0]
      \/ rawGesture h = OPEN_PALM /\ snd (predictWebcam f c) = [SetTargetMorph 1]) /\
     now f - lastActionTime (gestureState c) > 800 /\
     (8 <= debounceCount (gestureState (fst (predictWebcam f c))))%nat /\
     currentStableGesture (gestureState (fst (predictWebcam f c))) = rawGesture h /\
     lastActionTime (gestureState (fst (predictWebcam f c))) = now f).
Proof.
  unfold predictWebcam. destruct (landmarks f) as [h|]; [|left; simpl; auto].
  unfold commit. cbn [gestureState]. rewrite trackWrist_gestureState.
  set (st := debounce (rawGesture h) (gestureState c)).
  assert (Hlast : lastActionTime st = lastActionTime (gestureState c)).
  { unfold st, debounce. now destruct (decide _). }
  destruct (Nat.leb_spec 8 (debounceCount st)) as [Hc|Hc];
    [|left; cbn [fst snd gestureState]; auto].
  unfold dispatch. cbn [lastActionTime]. rewrite Hlast.
  destruct (decide (now f - lastActionTime (gestureState c) > 800)) as [Ht|Ht];
    [|left; simpl; auto].
  destruct (rawGesture h) eqn:Eg; try (left; simpl; auto; fail);
    right; exists h; simpl; rewrite Eg; repeat split; auto.
Qed.

(** X5. Frames whose time stamps lie within 800 ms of one another dispatch at
    most one action, whatever they show. *)
Theorem one_action_per_cooldown_window (lo : R) (fs : list Frame) (c : Control) :
  (forall f, f ∈ fs -> lo <= now f <= lo + 800) ->
  (List.length (snd (run fs c)) <= 1)%nat.
Proof.
  assert (Hquiet : forall fs c, (forall f, f ∈ fs -> lo <= now f <= lo + 800) ->
            lo <= lastActionTime (gestureState c) -> snd (run fs c) = []).
  { clear. induction fs as [|f fs IH]; intros c Hw Hl; [reflexivity|].
    rewrite run_cons. cbn [snd].
    assert (Hf : lo <= now f <= lo + 800) by (apply Hw, elem_of_cons; now left).
    destruct (predictWebcam_outcome f c) as [[Ha Hk]|(h & _ & _ & Ht & _)]; [|lra].
    rewrite Ha, IH; [reflexivity| |lra].
    intros f' Hf'. apply Hw, elem_of_cons. now right. }
  revert c. induction fs as [|f fs IH]; intros c Hw; [simpl; lia|].
  rewrite run_cons. cbn [snd].
  assert (Hrest : forall f', f' ∈ fs -> lo <= now f' <= lo + 800)
    by (intros f' Hf'; apply Hw, elem_of_cons; now right).
  assert (Hf : lo <= now f <= lo + 800) by (apply Hw, elem_of_cons; now left).
  destruct (predictWebcam_outcome f c) as [[Ha Hk]|(h & _ & Hact & _ & _ & _ & Hnow)].
  - rewrite Ha. simpl. now apply IH.
  - rewrite (Hquiet fs _ Hrest) by lra. rewrite app_nil_r.
    destruct Hact as [[_ ->]|[_ ->]]; simpl; lia.
Qed.

(** Every dispatched action is [setTargetMorph(0)] or [setTargetMorph(1)]. *)
Lemma run_actions_binary fs : forall c a,
  a ∈ snd (run fs c) -> a = SetTargetMorph 0 \/ a = SetTargetMorph 1.
Proof.
  induction fs as [|f fs IH]; intros c a Ha; [now apply elem_of_nil in Ha|].
  rewrite run_cons in Ha. cbn [snd] in Ha. apply elem_of_app in Ha as [Ha|Ha]; [|eauto].
  destruct (predictWebcam_outcome f c) as [[E _]|(h & _ & Hact & _)].
  - rewrite E in Ha. now apply elem_of_nil in Ha.
  - destruct Hact as [[_ E]|[_ E]]; rewrite E in Ha;
      apply list_elem_of_singleton in Ha; auto.
Qed.

End FrameProperties.

Section FrameProperties2.

Import Gesture Frames.

Lemma one_action_per_cooldown_window_witness :
  (List.length (snd (run twoFists fistHeld)) <= 1)%nat.
Proof.
  apply (one_action_per_cooldown_window 1000).
  intros f Hf. unfold twoFists in Hf.
  repeat (apply elem_of_cons in Hf as [->|Hf]; [simpl; lra|]).
  now apply elem_of_nil in Hf.
Defined.

Lemma trackWrist_first w c :
  handTrackingRef c = None ->
  dragRef (trackWrist w c) = dragRef c /\ handTrackingRef (trackWrist w c) = Some w.
Proof. intros H. unfold trackWrist. rewrite H. auto. Qed.

Lemma predictWebcam_dragRef_hand t h c :
  dragRef (fst (predictWebcam (mkFrame t (Some h)) c)) = dragRef (trackWrist (wrist h) c).
Proof. destruct h as [g w]. apply (predictWebcam_dragRef g t w c). Qed.

Lemma predictWebcam_handTrackingRef_hand t h c :
  handTrackingRef (fst (predictWebcam (mkFrame t (Some h)) c)) = Some (wrist h).
Proof.
  unfold predictWebcam, commit. cbn [landmarks now gestureState handTrackingRef].
  destruct (8 <=? _)%nat; [destruct (dispatch _ _ _)|]; reflexivity.
Qed.

(** X6. Losing the hand forgets the wrist, so the frame in which a hand is seen
    again (or seen for the first time) moves neither orbit target, wherever
    the wrist is; it only remembers the wrist. *)
Theorem no_orbit_jump_after_loss (c : Control) (t t' : R) (h : Hand) :
  let c1 := fst (predictWebcam (lost t) c) in
  let c2 := fst (predictWebcam (mkFrame t' (Some h)) c1) in
  handTrackingRef c1 = None /\ isHandRotating c1 = false /\ focusActive c1 = false /\
  dragRef c1 = dragRef c /\
  dragRef c2 = dragRef c /\ handTrackingRef c2 = Some (wrist h) /\
  dragRef (fst (predictWebcam (mkFrame t' (Some h)) initialControl))
  = dragRef initialControl.
Proof.
  cbn zeta. rewrite predictWebcam_lost. cbn [fst handTrackingRef isHandRotating focusActive dragRef].
  repeat split.
  - rewrite predictWebcam_dragRef_hand.
    exact (proj1 (trackWrist_first (wrist h)
             (mkControl (gestureState c) None (dragRef c) false false (debugGesture c))
             eq_refl)).
  - apply predictWebcam_handTrackingRef_hand.
  - rewrite predictWebcam_dragRef_hand.
    exact (proj1 (trackWrist_first (wrist h) initialControl eq_refl)).
Qed.

(** X7. Frames that show no hand or the class UNKNOWN commit nothing: the
    stable class and the displayed class stay, nothing is dispatched, and
    after a frame of class UNKNOWN the counter is 0. *)
Theorem unknown_frames_commit_nothing (fs : list Frame) (c : Control) :
  (forall f, f ∈ fs ->
     landmarks f = None \/ exists w, landmarks f = Some (mkHand UNKNOWN w)) ->
  currentStableGesture (gestureState (fst (run fs c)))
  = currentStableGesture (gestureState c) /\
  debugGesture (fst (run fs c)) = debugGesture c /\
  lastActionTime (gestureState (fst (run fs c))) = lastActionTime (gestureState c) /\
  snd (run fs c) = [] /\
  (forall t w, debounceCount (gestureState (fst (predictWebcam (held UNKNOWN t w) c))) = 0%nat).
Proof.
  intros Hfs. split; [|split; [|split; [|split]]]; revert c Hfs.
  1-4: induction fs as [|f fs IH]; intros c Hfs; [reflexivity|];
       rewrite run_cons; cbn [fst snd];
       assert (Hrest : forall f', f' ∈ fs ->
                 landmarks f' = None \/ exists w, landmarks f' = Some (mkHand UNKNOWN w))
         by (intros f' Hf'; apply Hfs, elem_of_cons; now right);
       assert (Hstep : currentStableGesture (gestureState (fst (predictWebcam f c)))
                       = currentStableGesture (gestureState c) /\
                       debugGesture (fst (predictWebcam f c)) = debugGesture c /\
                       lastActionTime (gestureState (fst (predictWebcam f c)))
                       = lastActionTime (gestureState c) /\
                       snd (predictWebcam f c) = []);
       [ destruct (Hfs f) as [Hn|[w Hw]]; [apply elem_of_cons; now left| |];
         [ unfold predictWebcam; rewrite Hn; simpl; auto
         | destruct f as [t l]; cbn [landmarks] in Hw; subst l;
           change (mkFrame t (Some (mkHand UNKNOWN w))) with (held UNKNOWN t w);
           destruct (predictWebcam_below UNKNOWN t w c) as (Hs & _ & Hd & Ha);
           [ unfold afterDebounce; rewrite debounce_reset by (now right); simpl; lia
           | rewrite Hs, Hd, Ha; unfold afterDebounce;
             rewrite debounce_reset by (now right); simpl; auto ] ]
       | destruct Hstep as (H1 & H2 & H3 & H4) ].
  - rewrite IH by exact Hrest. exact H1.
  - rewrite IH by exact Hrest. exact H2.
  - rewrite IH by exact Hrest. exact H3.
  - rewrite IH by exact Hrest. now rewrite H4.
  - intros c _ t w. destruct (predictWebcam_counter UNKNOWN t w c) as [_ ->].
    unfold afterDebounce. rewrite debounce_reset by (now right). reflexivity.
Qed.

Lemma unknown_frames_commit_nothing_witness :
  currentStableGesture
    (gestureState (fst (run [lost 1000; held UNKNOWN 1033 (0.5, 0.5)] fistHeld)))
  = currentStableGesture (gestureState fistHeld).
Proof.
  refine (proj1 (unknown_frames_commit_nothing _ fistHeld _)).
  intros f Hf.
  apply elem_of_cons in Hf as [->|Hf]; [now left|].
  apply elem_of_cons in Hf as [->|Hf]; [right; now exists (0.5, 0.5)|].
  now apply elem_of_nil in Hf.
Defined.

End FrameProperties2.

Section SmoothingProperties.

Lemma smoothMorph_cases (target c : R) :
  (Math.abs (target - c) > 0.001 /\ smoothMorph target c = c + (target - c) * 0.05)
  \/ (Math.abs (target - c) <= 0.001 /\ smoothMorph target c = target).
Proof.
  unfold smoothMorph. destruct (decide _) as [H|H]; [left|right]; split; auto. lra.
Qed.

(** The smoothing step stays between the old value and the target. *)
Lemma smoothMorph_bounds (target c : R) :
  Rmin c target <= smoothMorph target c <= Rmax c target.
Proof.
  destruct (smoothMorph_cases target c) as [[_ ->]|[_ ->]].
  - unfold Rmin, Rmax. destruct (Rle_dec c target); split; lra.
  - split; [apply Rmin_r|apply Rmax_r].
Qed.

(** X8. The smoothing step never overshoots and never moves away: the new
    value lies between the old value and the target. *)
Theorem smoothMorph_between (target c : R) :
  Rmin c target <= smoothMorph target c <= Rmax c target /\
  Math.abs (target - smoothMorph target c) <= Math.abs (target - c).
Proof.
  unfold Math.abs.
  destruct (smoothMorph_cases target c) as [[_ ->]|[_ ->]].
  - split.
    + unfold Rmin, Rmax. destruct (Rle_dec c target); split; lra.
    + replace (target - (c + (target - c) * 0.05)) with (0.95 * (target - c)) by lra.
      rewrite Rabs_mult, (Rabs_pos_eq 0.95) by lra.
      pose proof (Rabs_pos (target - c)). lra.
  - split.
    + split; [apply Rmin_r|apply Rmax_r].
    + replace (target - target) with 0 by lra. rewrite Rabs_R0. apply Rabs_pos.
Qed.

Lemma ticks_gap (target c : R) (n : nat) :
  ticks n target c = target \/
  target - ticks n target c = (19 / 20) ^ n * (target - c).
Proof.
  induction n as [|n [IH|IH]].
  - right. simpl. lra.
  - left. rewrite ticks_S, IH. apply smoothMorph_fixed.
  - rewrite ticks_S.
    destruct (smoothMorph_cases target (ticks n target c)) as [[_ ->]|[_ ->]];
      [right|now left].
    simpl. lra.
Qed.

Lemma ticks_stay (target c : R) (n k : nat) :
  ticks n target c = target -> (n <= k)%nat -> ticks k target c = target.
Proof.
  intros Hn Hk. induction Hk as [|k Hk IH]; [exact Hn|].
  rewrite ticks_S, IH. apply smoothMorph_fixed.
Qed.

(** Some tick puts the morph value on the target. *)
Lemma ticks_arrive (target c : R) : exists n, ticks n target c = target.
Proof.
  destruct (Req_dec target c) as [E|E].
  - exists 0%nat. simpl. congruence.
  - assert (Hg : 0 < Rabs (target - c)) by (apply Rabs_pos_lt; lra).
    destruct (pow_lt_1_zero (19 / 20)) with (y := 0.001 / Rabs (target - c))
      as [N HN].
    { rewrite Rabs_pos_eq; lra. }
    { apply Rdiv_lt_0_compat; lra. }
    exists (S N).
    destruct (ticks_gap target c N) as [H|H].
    + rewrite ticks_S, H. apply smoothMorph_fixed.
    + rewrite ticks_S.
      destruct (smoothMorph_cases target (ticks N target c)) as [[Hbig _]|[_ ->]];
        [|reflexivity].
      exfalso. unfold Math.abs in Hbig. rewrite H, Rabs_mult in Hbig.
      specialize (HN N (Nat.le_refl N)).
      assert (Rabs ((19 / 20) ^ N) * Rabs (target - c) < 0.001).
      { apply (Rmult_lt_compat_r (Rabs (target - c))) in HN; [|exact Hg].
        unfold Rdiv in HN. rewrite Rmult_assoc, Rinv_l in HN; lra. }
      lra.
Qed.

(** X9. From any value towards any target the morph value reaches the target
    exactly after finitely many ticks and stays there. *)
Theorem ticks_reach_target (target c : R) :
  exists n, forall k, (n <= k)%nat -> ticks k target c = target.
Proof.
  destruct (ticks_arrive target c) as [n Hn]. exists n.
  intros k Hk. exact (ticks_stay target c n k Hn Hk).
Qed.

Lemma ticks_reach_target_witness : exists n, ticks n 1 0 = 1.
Proof.
  destruct (ticks_reach_target 1 0) as [n H]. exists n. apply H. lia.
Defined.

End SmoothingProperties.

Section RotationProperties.

Import App.

Lemma rotationTicks_S n target r :
  rotationTicks (S n) target r = smoothRotation target (rotationTicks n target r).
Proof. revert r. induction n as [|n IH]; intros r; [reflexivity|]. simpl in *. now rewrite IH. Qed.

(** X10. An orbit angle closes nine tenths of its gap to the target per tick:
    it never overshoots, and unlike the morph value it never arrives. *)
Theorem rotationTicks_gap (n : nat) (target r : R) :
  target - rotationTicks n target r = (9 / 10) ^ n * (target - r) /\
  (r <> target -> rotationTicks n target r <> target) /\
  Rabs (target - rotationTicks n target r) <= Rabs (target - r).
Proof.
  assert (Hgap : target - rotationTicks n target r = (9 / 10) ^ n * (target - r)).
  { induction n as [|n IH]; [simpl; lra|].
    rewrite rotationTicks_S. unfold smoothRotation. simpl. lra. }
  assert (Hpow : 0 < (9 / 10) ^ n <= 1).
  { split; [apply pow_lt; lra|].
    rewrite <- (pow1 n). apply pow_incr. lra. }
  split; [exact Hgap|]. split.
  - intros Hr E. rewrite E in Hgap. assert (target - r <> 0) by lra. nra.
  - rewrite Hgap, Rabs_mult, (Rabs_pos_eq ((9 / 10) ^ n)) by lra.
    pose proof (Rabs_pos (target - r)). nra.
Qed.

End RotationProperties.

Section AppProperties.

Import App.

Lemma rotationTicks_gap_witness : rotationTicks 3 1 0 <> 1.
Proof. apply (proj1 (proj2 (rotationTicks_gap 3 1 0))). lra. Defined.

Lemma clamp_range' v : -0.6 <= Math.max (-0.6) (Math.min 0.6 v) <= 0.6.
Proof. apply clamp_range. Qed.

(** The pitch target after a video frame: the old one, or a clamped one. *)
Lemma trackWrist_pitch w c :
  -0.6 <= Gesture.pitchTarget (Gesture.dragRef c) <= 0.6 ->
  -0.6 <= Gesture.pitchTarget (Gesture.dragRef (Gesture.trackWrist w c)) <= 0.6.
Proof.
  intros H. unfold Gesture.trackWrist.
  destruct (Gesture.handTrackingRef c) as [prev|]; [|exact H].
  destruct (decide _); cbn [Gesture.dragRef Gesture.pitchTarget]; [apply clamp_range|exact H].
Qed.

Lemma predictWebcam_pitch f c :
  -0.6 <= Gesture.pitchTarget (Gesture.dragRef c) <= 0.6 ->
  -0.6 <= Gesture.pitchTarget (Gesture.dragRef (fst (Gesture.predictWebcam f c))) <= 0.6.
Proof.
  intros H. destruct f as [t [h|]]; [|exact H].
  rewrite predictWebcam_dragRef_hand. now apply trackWrist_pitch.
Qed.

Lemma applyActions_binary acts target :
  (target = 0 \/ target = 1) ->
  (forall a, a ∈ acts -> a = Gesture.SetTargetMorph 0 \/ a = Gesture.SetTargetMorph 1) ->
  applyActions acts target = 0 \/ applyActions acts target = 1.
Proof.
  revert target. induction acts as [|a acts IH]; intros target Ht Ha; [exact Ht|].
  unfold applyActions in *. cbn [fold_left]. apply IH.
  - destruct (Ha a) as [->| ->]; [apply elem_of_cons; now left|now left|now right].
  - intros a' Ha'. apply Ha, elem_of_cons. now right.
Qed.

Lemma predictWebcam_actions_binary f c a :
  a ∈ snd (Gesture.predictWebcam f c) ->
  a = Gesture.SetTargetMorph 0 \/ a = Gesture.SetTargetMorph 1.
Proof.
  intros Ha. apply (run_actions_binary [f] c a).
  rewrite (run_cons f [] c). cbn [snd Gesture.run]. now rewrite app_nil_r.
Qed.

Lemma step_invariant ev s : invariant s -> invariant (step ev s).
Proof.
  intros (Hp & Hr & Ht & Hs & Hc). destruct ev as [e|e| |f| |cam photos]; cbn [step].
  - unfold handlePointerDown. destruct (onButton e); repeat split; tauto.
  - unfold handlePointerMove. destruct (negb (isDragging s)); [repeat split; tauto|].
    unfold invariant; cbn [control rotationX targetMorph stateRefTarget currentMorph
                          withDrag Gesture.dragRef Gesture.pitchTarget].
    split; [apply clamp_range|tauto].
  - repeat split; tauto.
  - unfold onVideoFrame.
    pose proof (predictWebcam_pitch f (control s) Hp) as Hp'.
    pose proof (predictWebcam_actions_binary f (control s)) as Ha.
    destruct (Gesture.predictWebcam f (control s)) as [c acts]. cbn [fst snd] in *.
    unfold invariant; cbn [control rotationX targetMorph stateRefTarget currentMorph].
    split; [exact Hp'|]. split; [exact Hr|]. split; [|tauto].
    now apply applyActions_binary.
  - unfold invariant; cbn [targetEffect control rotationX targetMorph stateRefTarget currentMorph].
    tauto.
  - unfold invariant; cbn [animate control rotationX targetMorph stateRefTarget currentMorph].
    split; [exact Hp|]. split; [unfold smoothRotation; lra|]. split; [exact Ht|].
    split; [exact Hs|].
    destruct (smoothMorph_bounds (stateRefTarget s) (currentMorph s)) as [Hlo Hhi].
    assert (0 <= Rmin (currentMorph s) (stateRefTarget s))
      by (apply Rmin_glb; destruct Hs; lra).
    assert (Rmax (currentMorph s) (stateRefTarget s) <= 1)
      by (apply Rmax_lub; destruct Hs; lra).
    lra.
Qed.

(** X11. In every state the callbacks can reach, in whatever order they run: the
    pitch target and the pitch angle are within 0.6 radians, the morph
    target is 0 or 1, and the morph value is in [[0, 1]]. *)
Theorem reachable_invariant (evs : list Event) : invariant (run evs initial).
Proof.
  assert (H : forall s, invariant s -> invariant (run evs s)).
  { induction evs as [|ev evs IH]; intros s Hs; [exact Hs|].
    unfold run in *. cbn [fold_left]. apply IH, step_invariant, Hs. }
  apply H. unfold invariant, initial. simpl. repeat split; try lra; now left.
Qed.

Lemma run_events_app evs1 evs2 s : run (evs1 ++ evs2) s = run evs2 (run evs1 s).
Proof. unfold run. apply fold_left_app. Qed.

Lemma run_step ev evs s : run (ev :: evs) s = run evs (step ev s).
Proof. reflexivity. Qed.

Lemma last_cons_default (l : list R) (a d : R) : List.last (a :: l) d = List.last l a.
Proof.
  revert a d. induction l as [|b l IH]; intros a d; [reflexivity|].
  change (List.last (a :: b :: l) d) with (List.last (b :: l) d).
  now rewrite !IH.
Qed.

(** The yaw target after the pointer moves [es] of a drag. *)
Lemma drag_moves (es : list PointerEvent) : forall s,
  isDragging s = true ->
  let s' := run (PointerMove <$> es) s in
  isDragging s' = true /\
  lastX s' = List.last (clientX <$> es) (lastX s) /\
  Gesture.yawTarget (Gesture.dragRef (control s'))
  = Gesture.yawTarget (Gesture.dragRef (control s))
    + (List.last (clientX <$> es) (lastX s) - lastX s) * 0.005.
Proof.
  induction es as [|e es IH]; intros s Hd; cbn zeta.
  - simpl. split; [exact Hd|]. split; [reflexivity|lra].
  - rewrite fmap_cons, run_step. cbn [step].
    assert (Hm : handlePointerMove e s =
      mkState (withDrag (Gesture.mkDragTargets
                 (Gesture.yawTarget (Gesture.dragRef (control s)) + (clientX e - lastX s) * 0.005)
                 (Math.max (-0.6) (Math.min 0.6
                    (Gesture.pitchTarget (Gesture.dragRef (control s))
                     + (clientY e - lastY s) * 0.005))))
               (control s))
              (isDragging s) (clientX e) (clientY e) (rotationY s) (rotationX s)
              (targetMorph s) (stateRefTarget s) (currentMorph s) (focusId s)).
    { unfold handlePointerMove. now rewrite Hd. }
    rewrite Hm. set (s1 := mkState _ _ _ _ _ _ _ _ _ _).
    destruct (IH s1 Hd) as (H1 & H2 & H3). cbn zeta in *.
    split; [exact H1|].
    assert (Hlast : List.last (clientX <$> e :: es) (lastX s) = List.last (clientX <$> es) (clientX e)).
    { rewrite fmap_cons. apply last_cons_default. }
    rewrite Hlast. split; [exact H2|]. rewrite H3. subst s1.
    cbn [control lastX withDrag Gesture.dragRef Gesture.yawTarget]. lra.
Qed.

(** X12. A drag turns the yaw target by 0.005 radians per pixel between where
    the pointer went down and where it is, whatever path it took; a press on
    a button starts no drag, and moves without a drag change nothing. *)
Theorem drag_yaw_telescopes (down : PointerEvent) (moves : list PointerEvent) (s : State) :
  (onButton down = false ->
   Gesture.yawTarget (Gesture.dragRef
     (control (run (PointerDown down :: (PointerMove <$> moves)) s)))
   = Gesture.yawTarget (Gesture.dragRef (control s))
     + (List.last (clientX <$> moves) (clientX down) - clientX down) * 0.005) /\
  (isDragging s = false -> onButton down = true ->
   run (PointerDown down :: (PointerMove <$> moves)) s = s) /\
  (isDragging s = false -> run (PointerMove <$> moves) s = s) /\
  (forall e, isDragging (run [PointerUp; PointerMove e] s) = false /\
             control (run [PointerUp; PointerMove e] s) = control s).
Proof.
  split; [|split; [|split]].
  - intros Hb. rewrite run_step. cbn [step].
    unfold handlePointerDown. rewrite Hb.
    set (s1 := mkState _ _ _ _ _ _ _ _ _ _).
    destruct (drag_moves moves s1 eq_refl) as (_ & _ & H). exact H.
  - assert (Hidle : forall s0, isDragging s0 = false -> run (PointerMove <$> moves) s0 = s0).
    { induction moves as [|e es IH]; intros s0 H0; [reflexivity|].
      rewrite fmap_cons. unfold run in *. cbn [fold_left step].
      unfold handlePointerMove at 1. rewrite H0. cbn [negb]. now apply IH. }
    intros Hd Hb. rewrite run_step. cbn [step].
    unfold handlePointerDown. rewrite Hb. now apply Hidle.
  - revert s. induction moves as [|e es IH]; intros s0 H0; [reflexivity|].
    rewrite fmap_cons. unfold run in *. cbn [fold_left step].
    unfold handlePointerMove at 1. rewrite H0. cbn [negb]. now apply IH.
  - intros e. unfold run. cbn [fold_left step]. unfold handlePointerMove, handlePointerUp.
    cbn [isDragging negb control]. auto.
Qed.

Lemma drag_yaw_telescopes_witness :
  Gesture.yawTarget (Gesture.dragRef
    (control (run (PointerDown (mkPointerEvent 100 100 false)
                   :: (PointerMove <$> [mkPointerEvent 150 90 false;
                                        mkPointerEvent 300 400 false])) initial)))
  = Gesture.yawTarget (Gesture.dragRef (control initial))
    + (List.last (clientX <$> [mkPointerEvent 150 90 false; mkPointerEvent 300 400 false])
            (clientX (mkPointerEvent 100 100 false))
       - clientX (mkPointerEvent 100 100 false)) * 0.005.
Proof.
  apply (proj1 (drag_yaw_telescopes (mkPointerEvent 100 100 false)
                  [mkPointerEvent 150 90 false; mkPointerEvent 300 400 false] initial)).
  reflexivity.
Defined.

End AppProperties.

Section EndToEnd.

Import App.

(** Video frames act on the shared state as [Gesture.run] acts on the
    control: the actions set the morph target one after the other. *)
Lemma run_video (fs : list Gesture.Frame) : forall s,
  run (VideoFrame <$> fs) s
  = mkState (fst (Gesture.run fs (control s))) (isDragging s) (lastX s) (lastY s)
            (rotationY s) (rotationX s)
            (applyActions (snd (Gesture.run fs (control s))) (targetMorph s))
            (stateRefTarget s) (currentMorph s) (focusId s).
Proof.
  induction fs as [|f fs IH]; intros s; [now destruct s|].
  rewrite fmap_cons, run_step, IH, run_cons. cbn [step]. unfold onVideoFrame.
  destruct (Gesture.predictWebcam f (control s)) as [c acts].
  cbn [fst snd control isDragging lastX lastY rotationY rotationX targetMorph
       stateRefTarget currentMorph focusId].
  unfold applyActions. now rewrite fold_left_app.
Qed.

(** Render ticks act on the morph value as [ticks] does. *)
Lemma run_frames_morph (n : nat) cam photos : forall s,
  currentMorph (run (frames n cam photos) s) = ticks n (stateRefTarget s) (currentMorph s) /\
  stateRefTarget (run (frames n cam photos) s) = stateRefTarget s /\
  control (run (frames n cam photos) s) = control s.
Proof.
  induction n as [|n IH]; intros s; [simpl; auto|].
  unfold frames in *. cbn [replicate]. rewrite run_step.
  destruct (IH (step (AnimationFrame cam photos) s)) as (H1 & H2 & H3).
  rewrite H1, H2, H3. cbn [step animate stateRefTarget currentMorph control ticks]. auto.
Qed.

Lemma run_quiet (fs : list Gesture.Frame) : forall c,
  snd (Gesture.run fs c) = [] ->
  Gesture.lastActionTime (Gesture.gestureState (fst (Gesture.run fs c)))
  = Gesture.lastActionTime (Gesture.gestureState c).
Proof.
  induction fs as [|f fs IH]; intros c Hq; [reflexivity|].
  rewrite run_cons in *. cbn [fst snd] in *.
  apply app_eq_nil in Hq as [Hq1 Hq2]. rewrite IH by exact Hq2.
  destruct (predictWebcam_outcome f c) as [[_ E]|(h & _ & Hact & _)]; [exact E|].
  rewrite Hq1 in Hact. destruct Hact as [[_ ?]|[_ ?]]; discriminate.
Qed.

(** The value that a class sets the morph target to. *)
Lemma ninth_frame_dispatches (g : Gesture.GestureType) (v : R)
      (front : list (R * (R * R))) (t : R) (w : R * R) (c : Gesture.Control) :
  (g = Gesture.FIST /\ v = 0 \/ g = Gesture.OPEN_PALM /\ v = 1) ->
  Gesture.lastRawGesture (Gesture.gestureState c) <> g ->
  List.length front = 8%nat ->
  t - Gesture.lastActionTime (Gesture.gestureState c) > 800 ->
  snd (Gesture.run (Gesture.heldFrames g (front ++ [(t, w)])) c) = [Gesture.SetTargetMorph v].
Proof.
  intros Hg Hl Hn Ht.
  assert (Hu : g <> Gesture.UNKNOWN) by (destruct Hg as [[-> _]|[-> _]]; discriminate).
  unfold Gesture.heldFrames. rewrite map_app. fold (Gesture.heldFrames g front).
  rewrite run_app. cbn [fst snd map].
  destruct (run_fresh_below g front c Hu Hl) as (H1 & H2 & _ & _ & _ & H6); [lia|].
  cbn zeta in *. rewrite H6. cbn [app].
  pose proof (run_quiet _ _ H6) as Hlast.
  set (c8 := fst (Gesture.run (Gesture.heldFrames g front) c)) in *.
  rewrite run_cons. cbn [fst snd Gesture.run]. rewrite app_nil_r.
  destruct (predictWebcam_held_commit g t w c8 Hu H1) as (_ & _ & _ & Ha); [lia|].
  cbn [fst snd] in Ha. rewrite Ha.
  destruct Hg as [[-> ->]|[-> ->]].
  - rewrite dispatch_FIST_fired; [reflexivity|]. cbn [Gesture.lastActionTime]. lra.
  - rewrite dispatch_OPEN_PALM_fired; [reflexivity|]. cbn [Gesture.lastActionTime]. lra.
Qed.

(** X13. End to end: nine consecutive frames of FIST (or OPEN_PALM) after
    another class, the ninth outside the cooldown, set the morph target to 0
    (or 1); once the effect has passed it on, finitely many render ticks take
    the morph value exactly there, where it stays. *)
Theorem held_gesture_moves_morph (g : Gesture.GestureType) (v : R)
        (front : list (R * (R * R))) (t : R) (w : R * R) (s : State) cam photos :
  (g = Gesture.FIST /\ v = 0 \/ g = Gesture.OPEN_PALM /\ v = 1) ->
  Gesture.lastRawGesture (Gesture.gestureState (control s)) <> g ->
  List.length front = 8%nat ->
  t - Gesture.lastActionTime (Gesture.gestureState (control s)) > 800 ->
  let s1 := run ((VideoFrame <$> Gesture.heldFrames g (front ++ [(t, w)]))
                 ++ [TargetEffect]) s in
  targetMorph s1 = v /\ stateRefTarget s1 = v /\
  exists n, forall k, (n <= k)%nat -> currentMorph (run (frames k cam photos) s1) = v.
Proof.
  intros Hg Hl Hn Ht. cbn zeta.
  set (s1 := run _ s).
  assert (Hs1 : targetMorph s1 = v /\ stateRefTarget s1 = v).
  { subst s1.
    rewrite run_events_app, run_video, (ninth_frame_dispatches g v front t w _ Hg Hl Hn Ht).
    split; reflexivity. }
  destruct Hs1 as [Ht1 Ht2]. split; [exact Ht1|]. split; [exact Ht2|].
  destruct (ticks_arrive v (currentMorph s1)) as [n Hn0].
  pose proof (fun k Hk => ticks_stay v (currentMorph s1) n k Hn0 Hk) as Hn'.
  exists n. intros k Hk.
  destruct (run_frames_morph k cam photos s1) as [-> _].
  rewrite Ht2. now apply Hn'.
Qed.

End EndToEnd.

Section EndToEndWitness.

Import App.

Lemma held_gesture_moves_morph_witness :
  targetMorph (run ((VideoFrame <$> Gesture.heldFrames Gesture.OPEN_PALM
                       (take 8 Gesture.nineFrames ++ [(1266, (0.5, 0.5))]))
                    ++ [TargetEffect]) initial) = 1.
Proof.
  refine (proj1 (held_gesture_moves_morph Gesture.OPEN_PALM 1 (take 8 Gesture.nineFrames)
                   1266 (0.5, 0.5) initial None [] _ _ _ _)).
  - right. split; reflexivity.
  - discriminate.
  - reflexivity.
  - simpl. lra.
Defined.

End EndToEndWitness.

Section FocusSelection.

Import Focus.

Lemma nearest_snoc camPos photos p :
  nearest camPos (photos ++ [p]) = visit camPos (nearest camPos photos) p.
Proof. unfold nearest. now rewrite fold_left_app. Qed.

(** X14. Among photos at the same least distance the first wins: the selected
    identity is that of the first photo that no other photo is nearer than. *)
Theorem nearest_first_minimum (camPos : Vector3) (photos : list PhotoData) :
  photos <> [] ->
  exists l1 p l2,
    photos = l1 ++ p :: l2 /\
    nearest camPos photos = mkBest (Some (dist camPos p)) (Some (idx p)) /\
    (forall q, q ∈ l1 -> dist camPos p < dist camPos q) /\
    (forall q, q ∈ l2 -> dist camPos p <= dist camPos q).
Proof.
  induction photos as [|x photos IH] using rev_ind; [congruence|]. intros _.
  destruct photos as [|y photos].
  - exists [], x, []. split; [reflexivity|]. split; [reflexivity|].
    split; intros q Hq; now apply elem_of_nil in Hq.
  - destruct IH as (l1 & p & l2 & Hsplit & Hbest & Hlt & Hle); [discriminate|].
    rewrite nearest_snoc, Hbest. unfold visit. cbn [bestDist]. fold (dist camPos x).
    destruct (decide (dist camPos x < dist camPos p)) as [Hx|Hx].
    + exists (y :: photos), x, []. split; [reflexivity|]. split; [reflexivity|].
      split; [|intros q Hq; now apply elem_of_nil in Hq].
      intros q Hq. rewrite Hsplit in Hq. apply elem_of_app in Hq as [Hq|Hq].
      * specialize (Hlt q Hq). lra.
      * apply elem_of_cons in Hq as [->|Hq]; [exact Hx|]. specialize (Hle q Hq). lra.
    + exists l1, p, (l2 ++ [x]). split; [rewrite Hsplit; now rewrite <- app_assoc|].
      split; [reflexivity|]. split; [exact Hlt|].
      intros q Hq. apply elem_of_app in Hq as [Hq|Hq]; [now apply Hle|].
      apply list_elem_of_singleton in Hq. subst. lra.
Qed.

Lemma nearest_first_minimum_witness :
  exists l1 p l2, twoPhotos = l1 ++ p :: l2 /\
    nearest cameraPosition twoPhotos
    = mkBest (Some (dist cameraPosition p)) (Some (idx p)).
Proof.
  assert (Hne : twoPhotos <> []) by discriminate.
  destruct (nearest_first_minimum cameraPosition twoPhotos Hne)
    as (l1 & p & l2 & H1 & H2 & _).
  exists l1, p, l2. split; [exact H1|exact H2].
Defined.

(** Without photos or without a camera nothing is selected, and a
    selection is never replaced while [active] stays true. *)
Theorem animateFocus_selects_only_once (camera : option Vector3)
        (photos : list PhotoData) (fs : FocusState) :
  (photos = [] \/ camera = None \/ is_Some (id fs) ->
   active fs = true -> animateFocus camera photos fs = fs) /\
  (active fs = true -> is_Some (id fs) ->
   id (animateFocus camera photos fs) = id fs) /\
  active (animateFocus camera photos fs) = active fs.
Proof.
  destruct fs as [a i]. cbn [active id]. split; [|split].
  - intros H ->. unfold animateFocus. cbn [active id].
    destruct i; [reflexivity|]. destruct photos; [reflexivity|].
    destruct camera; [|reflexivity].
    destruct H as [H|[H|[? H]]]; discriminate.
  - intros -> [k ->]. reflexivity.
  - unfold animateFocus. cbn [active id].
    destruct a, i, photos, camera; try reflexivity.
    now destruct (bestId _).
Qed.

Lemma animateFocus_selects_only_once_witness :
  animateFocus None twoPhotos (mkFocusState true None) = mkFocusState true None.
Proof.
  apply (proj1 (animateFocus_selects_only_once None twoPhotos (mkFocusState true None)));
    [right; now left|reflexivity].
Defined.

End FocusSelection.

Section PointingFocus.

Import App.

Lemma step_keeps_pointing ev s k :
  keepsPointing ev ->
  Gesture.lastRawGesture (Gesture.gestureState (control s)) = Gesture.INDEX_UP ->
  (7 <= Gesture.debounceCount (Gesture.gestureState (control s)))%nat ->
  Gesture.focusActive (control s) = true -> focusId s = Some k ->
  Gesture.lastRawGesture (Gesture.gestureState (control (step ev s))) = Gesture.INDEX_UP /\
  (7 <= Gesture.debounceCount (Gesture.gestureState (control (step ev s))))%nat /\
  Gesture.focusActive (control (step ev s)) = true /\ focusId (step ev s) = Some k.
Proof.
  intros Hev Hl Hc Ha Hk. destruct ev as [e|e| |f| |cam photos]; cbn [step].
  - unfold handlePointerDown. destruct (onButton e); auto.
  - unfold handlePointerMove. destruct (negb (isDragging s)); auto.
  - auto.
  - destruct Hev as (t & w & ->). unfold onVideoFrame.
    assert (Hu : Gesture.INDEX_UP <> Gesture.UNKNOWN) by discriminate.
    destruct (predictWebcam_held_commit Gesture.INDEX_UP t w (control s) Hu Hl Hc)
      as (Hs & Hf & _ & _).
    rewrite bool_decide_eq_true_2 in Hf by reflexivity.
    destruct (predictWebcam_counter Gesture.INDEX_UP t w (control s)) as [Hr Hn].
    unfold Gesture.afterDebounce in Hr, Hn.
    rewrite (debounce_repeat Gesture.INDEX_UP) in Hr, Hn by assumption.
    cbn [Gesture.lastRawGesture Gesture.debounceCount] in Hr, Hn.
    destruct (Gesture.predictWebcam _ (control s)) as [c acts]. cbn [fst] in *.
    cbn [control focusId]. rewrite Hr, Hn, Hf. repeat split; auto; lia.
  - auto.
  - cbn [animate control focusId]. rewrite Ha, Hk. auto.
Qed.

(** X15. End to end: when the ninth frame of INDEX_UP is committed, the next
    render tick focuses a photo nearest to the camera; the photo stays
    focused over render ticks, pointer events and further INDEX_UP frames;
    the first render tick after a frame without a hand clears the focus. *)
Theorem pointing_focuses_nearest (s : State) (t : R) (w : R * R)
        (camPos : Vector3) (photos : list Focus.PhotoData) :
  Gesture.lastRawGesture (Gesture.gestureState (control s)) = Gesture.INDEX_UP ->
  (7 <= Gesture.debounceCount (Gesture.gestureState (control s)))%nat ->
  focusId s = None -> photos <> [] ->
  let s1 := run [VideoFrame (Gesture.held Gesture.INDEX_UP t w);
                 AnimationFrame (Some camPos) photos] s in
  exists p, p ∈ photos /\
    (forall q, q ∈ photos -> Focus.dist camPos p <= Focus.dist camPos q) /\
    focusId s1 = Some (Focus.idx p) /\
    (forall evs, Forall keepsPointing evs -> focusId (run evs s1) = Some (Focus.idx p)) /\
    (forall evs t' cam' photos', Forall keepsPointing evs ->
       focusId (run (evs ++ [VideoFrame (Frames.lost t'); AnimationFrame cam' photos']) s1)
       = None).
Proof.
  intros Hl Hc Hid Hne. cbn zeta.
  destruct (animateFocus_select camPos photos Hne) as (p & Hin & Hmin & Hsel).
  exists p. split; [exact Hin|]. split; [exact Hmin|].
  assert (Hu : Gesture.INDEX_UP <> Gesture.UNKNOWN) by discriminate.
  set (s1 := run _ s).
  assert (Hs1 : Gesture.lastRawGesture (Gesture.gestureState (control s1)) = Gesture.INDEX_UP /\
                (7 <= Gesture.debounceCount (Gesture.gestureState (control s1)))%nat /\
                Gesture.focusActive (control s1) = true /\
                focusId s1 = Some (Focus.idx p)).
  { subst s1. rewrite !run_step. cbn [run fold_left step]. unfold onVideoFrame.
    destruct (predictWebcam_held_commit Gesture.INDEX_UP t w (control s) Hu Hl Hc)
      as (_ & Hf & _ & _).
    rewrite bool_decide_eq_true_2 in Hf by reflexivity.
    destruct (predictWebcam_counter Gesture.INDEX_UP t w (control s)) as [Hr Hn].
    unfold Gesture.afterDebounce in Hr, Hn.
    rewrite (debounce_repeat Gesture.INDEX_UP) in Hr, Hn by assumption.
    cbn [Gesture.lastRawGesture Gesture.debounceCount] in Hr, Hn.
    destruct (Gesture.predictWebcam _ (control s)) as [c acts]. cbn [fst] in *.
    cbn [animate control focusId]. rewrite Hr, Hn, Hf, Hid, Hsel. cbn [Focus.id].
    repeat split; auto; lia. }
  assert (Hkeep : forall evs s0,
            Forall keepsPointing evs ->
            Gesture.lastRawGesture (Gesture.gestureState (control s0)) = Gesture.INDEX_UP ->
            (7 <= Gesture.debounceCount (Gesture.gestureState (control s0)))%nat ->
            Gesture.focusActive (control s0) = true -> focusId s0 = Some (Focus.idx p) ->
            focusId (run evs s0) = Some (Focus.idx p)).
  { induction evs as [|ev evs IH]; intros s0 Hevs H1 H2 H3 H4; [exact H4|].
    apply Forall_cons in Hevs as [Hev Hevs]. rewrite run_step.
    destruct (step_keeps_pointing ev s0 _ Hev H1 H2 H3 H4) as (G1 & G2 & G3 & G4).
    now apply IH. }
  destruct Hs1 as (H1 & H2 & H3 & H4).
  split; [exact H4|]. split.
  - intros evs Hevs. now apply Hkeep.
  - intros evs t' cam' photos' Hevs. rewrite run_events_app.
    rewrite !run_step. cbn [run fold_left step]. unfold onVideoFrame.
    rewrite predictWebcam_lost. cbn [animate control focusId Gesture.focusActive].
    now rewrite animateFocus_clear.
Qed.

Lemma pointing_focuses_nearest_witness :
  exists p, p ∈ Focus.twoPhotos /\
    focusId (run [VideoFrame (Gesture.held Gesture.INDEX_UP 1000 (0.5, 0.5));
                  AnimationFrame (Some Focus.cameraPosition) Focus.twoPhotos] pointing)
    = Some (Focus.idx p).
Proof.
  assert (H1 : Gesture.lastRawGesture (Gesture.gestureState (control pointing))
               = Gesture.INDEX_UP) by reflexivity.
  assert (H2 : (7 <= Gesture.debounceCount (Gesture.gestureState (control pointing)))%nat)
    by (simpl; lia).
  assert (H3 : focusId pointing = None) by reflexivity.
  assert (H4 : Focus.twoPhotos <> []) by discriminate.
  destruct (pointing_focuses_nearest pointing 1000 (0.5, 0.5) Focus.cameraPosition
              Focus.twoPhotos H1 H2 H3 H4) as (p & Hin & _ & Hsel & _).
  exists p. split; [exact Hin|exact Hsel].
Defined.

End PointingFocus.

Section FormationProperties.

Import Formation.

Lemma valid_draws g g' : Random.draws g' = Random.draws g -> Random.valid g -> Random.valid g'.
Proof. intros E H n. rewrite E. apply H. Qed.

(** A call of the scatter generator leaves the sequence of draws as it is
    and takes between three and six of them. *)
Lemma getIsotropicScatterPos_draws ov g :
  Random.draws (snd (getIsotropicScatterPos ov g)) = Random.draws g /\
  (Random.cursor g + 3 <= Random.cursor (snd (getIsotropicScatterPos ov g))
   <= Random.cursor g + 6)%nat.
Proof.
  unfold getIsotropicScatterPos, Random.bind, Random.random, Random.ret.
  destruct ov as [[|]|]; cbn [Random.draws Random.cursor snd fst].
  - split; [reflexivity|simpl; lia].
  - destruct (decide _); cbn [Random.draws Random.cursor snd]; split; try reflexivity; lia.
  - destruct (bool_decide _); cbn [Random.draws Random.cursor snd fst].
    + split; [reflexivity|simpl; lia].
    + destruct (decide _); cbn [Random.draws Random.cursor snd]; split; try reflexivity; lia.
Qed.

Lemma getIsotropicScatterPos_isHalo ov g :
  isHalo (fst (getIsotropicScatterPos ov g))
  = negb (match ov with
          | Some b => b
          | None => bool_decide (Random.draws g (Random.cursor g) < SCATTER_CONFIG.CORE_RATIO)
          end).
Proof.
  unfold getIsotropicScatterPos, Random.bind, Random.random, Random.ret.
  destruct ov as [[|]|]; cbn [Random.draws Random.cursor snd fst].
  - reflexivity.
  - destruct (decide _); reflexivity.
  - destruct (bool_decide _); cbn [Random.draws Random.cursor snd fst]; [reflexivity|].
    destruct (decide _); reflexivity.
Qed.

(** A loop whose body keeps a property of the generator and gives results
    with a property [P] gives [n] results with [P]. *)
Lemma forLoop_Forall {A : Type} (P : A -> Prop) (body : nat -> Random.M A) :
  (forall i g, Random.valid g ->
     P (fst (body i g)) /\ Random.draws (snd (body i g)) = Random.draws g) ->
  forall n start g, Random.valid g ->
    Forall P (fst (forLoop n body start g)) /\
    List.length (fst (forLoop n body start g)) = n /\
    Random.draws (snd (forLoop n body start g)) = Random.draws g.
Proof.
  intros Hbody. induction n as [|n IH]; intros start g Hv.
  - simpl. repeat split. constructor.
  - cbn [forLoop]. unfold Random.bind, Random.ret.
    destruct (Hbody start g Hv) as [Hp Hd].
    destruct (body start g) as [a g1] eqn:E. cbn [fst snd] in *.
    destruct (IH (S start) g1 (valid_draws g g1 Hd Hv)) as (Hall & Hlen & Hd2).
    destruct (forLoop n body (S start) g1) as [rest g2]. cbn [fst snd] in *.
    repeat split; [now constructor|simpl; lia|congruence].
Qed.

Lemma managerOf_wellFormed (l : list Instance) :
  MorphingInstances.wellFormed (managerOf l) /\
  MorphingInstances.count (managerOf l) = List.length l.
Proof.
  unfold MorphingInstances.wellFormed, managerOf. cbn.
  rewrite !length_fmap. auto.
Qed.

Lemma axisDistance_polar (r theta ty : R) :
  0 <= r -> axisDistance (Vector3.mk (r * cos theta) ty (r * sin theta)) = r.
Proof.
  intros Hr. unfold axisDistance. cbn [Vector3.x Vector3.z].
  replace (r * cos theta * (r * cos theta) + r * sin theta * (r * sin theta))
    with (r * r * (Rsqr (sin theta) + Rsqr (cos theta))) by (unfold Rsqr; ring).
  rewrite sin2_cos2, Rmult_1_r. now apply sqrt_square.
Qed.

Lemma ornament_ok i g :
  Random.valid g ->
  ornamentOk (fst (ornament i g)) /\ Random.draws (snd (ornament i g)) = Random.draws g.
Proof.
  intros Hv. unfold ornament, Random.bind, Random.random, Random.ret.
  cbn [Random.draws Random.cursor fst snd].
  set (h := Random.draws g (Random.cursor g)).
  set (w := Random.draws g (S (Random.cursor g))).
  set (a := Random.draws g (S (S (Random.cursor g)))).
  set (b := bool_decide _).
  set (g4 := Random.mkGen (Random.draws g) (S (S (S (S (Random.cursor g)))))).
  assert (Hh : 0 <= h < 1) by apply Hv.
  assert (Hw : 0 <= w < 1) by apply Hv.
  assert (Hv4 : Random.valid g4) by (apply (valid_draws g); [reflexivity|exact Hv]).
  destruct (scatter_radius_given b g4 Hv4) as (_ & Hcore & _ & Hhalo).
  destruct (getIsotropicScatterPos_draws (Some b) g4) as [Hd _].
  destruct (getIsotropicScatterPos (Some b) g4) as [sp g5]. cbn [fst snd] in *.
  split; [|exact Hd].
  unfold ornamentOk. cbn [tree scatter Vector3.y].
  assert (Hr : 0 <= (1 - h) * treeBaseWidth * (0.92 + 0.1 * w))
    by (unfold treeBaseWidth; nra).
  rewrite axisDistance_polar by exact Hr.
  unfold coneRadius, treeBottomY, treeHeight, treeBaseWidth in *.
  split; [lra|]. split; [|split; assumption].
  replace (1 - (-5.0 + h * 12 - -5.0) / 12) with (1 - h) by lra.
  split; nra.
Qed.

(** X16. [createGroup(color, count)] returns a manager with [count] instances and
    one entry per instance in each of its arrays; every ornament hangs on
    the tree and has its scatter point where its halo flag says. *)
Theorem createGroup_wellFormed (count : nat) (g : Random.Gen) :
  Random.valid g ->
  let m := fst (createGroup count g) in
  MorphingInstances.count m = count /\
  MorphingInstances.wellFormed m /\
  (forall time v, is_Some (MorphingInstances.update m v time)) /\
  (forall i t s, MorphingInstances.treePositions m !! i = Some t ->
     MorphingInstances.scatterPositions m !! i = Some s ->
     treeBottomY <= Vector3.y t <= treeBottomY + treeHeight /\
     axisDistance t <= coneRadius (treeBaseWidth * 1.02) (Vector3.y t) /\
     coneRadius (treeBaseWidth * 0.92) (Vector3.y t) <= axisDistance t /\
     (MorphingInstances.haloFlags m !! i = Some false ->
      Vector3.distanceTo s scatterCenter <= SCATTER_CONFIG.CORE_RADIUS) /\
     (MorphingInstances.haloFlags m !! i = Some true ->
      1.05 * SCATTER_CONFIG.CORE_RADIUS - 0.15 * sqrt 2
      <= Vector3.distanceTo s scatterCenter
      <= SCATTER_CONFIG.OUTER_RADIUS + 0.15 * sqrt 2)).
Proof.
  intros Hv. cbn zeta. unfold createGroup, Random.bind, Random.ret.
  destruct (forLoop_Forall ornamentOk ornament ornament_ok count 0 g Hv)
    as (Hall & Hlen & _).
  destruct (forLoop count ornament 0 g) as [l g']. cbn [fst snd] in *.
  destruct (managerOf_wellFormed l) as [Hwf Hc].
  split; [congruence|]. split; [exact Hwf|]. split.
  - intros time v. destruct (update_wellFormed (managerOf l) v time Hwf) as (ts & -> & _).
    eauto.
  - intros i t s Ht Hs. unfold managerOf in *.
    cbn [MorphingInstances.treePositions MorphingInstances.scatterPositions
         MorphingInstances.haloFlags] in *.
    rewrite list_lookup_fmap in Ht. repeat rewrite list_lookup_fmap in Hs.
    repeat rewrite list_lookup_fmap.
    destruct (l !! i) as [a|] eqn:Ha; [|discriminate].
    cbn [fmap option_fmap option_map] in *.
    injection Ht as <-. injection Hs as <-.
    rewrite Forall_lookup in Hall. destruct (Hall i a Ha) as (H1 & [H2 H3] & H4 & H5).
    split; [exact H1|]. split; [exact H3|]. split; [exact H2|]. split.
    + intros E. injection E as E. apply (H4 E).
    + intros E. injection E as E. apply (H5 E).
Qed.

End FormationProperties.

Section UpdateProperties.

Import MorphingInstances.

Lemma updateAt_is_Some (m : t) (v time : R) (i : nat) :
  is_Some (updateAt m v time i)
  <-> (i < List.length (treePositions m) /\ i < List.length (scatterPositions m))%nat.
Proof.
  unfold updateAt. split.
  - intros H. destruct (treePositions m !! i) eqn:Et; [|now destruct H].
    destruct (scatterPositions m !! i) eqn:Es; [|now destruct H].
    split; eapply lookup_lt_Some; eassumption.
  - intros [Ht Hs].
    destruct (lookup_lt_is_Some_2 (treePositions m) i Ht) as [t0 ->].
    destruct (lookup_lt_is_Some_2 (scatterPositions m) i Hs) as [s0 ->]. eauto.
Qed.

(** X17. [update] writes the matrices exactly when both position arrays have an
    entry for each of the [mesh.count] instances; otherwise it throws.
    Missing halo flags do not matter. *)
Theorem update_defined (m : t) (v time : R) :
  is_Some (update m v time)
  <-> (count m <= List.length (treePositions m)
       /\ count m <= List.length (scatterPositions m))%nat.
Proof.
  unfold update. rewrite mapM_is_Some, Forall_forall. split.
  - intros H. destruct (count m) as [|n] eqn:Ec; [lia|].
    assert (Hn : is_Some (updateAt m v time n)).
    { apply (H n). apply elem_of_seq. lia. }
    apply updateAt_is_Some in Hn. lia.
  - intros [Ht Hs] i Hi. apply elem_of_seq in Hi. simpl.
    apply updateAt_is_Some. lia.
Qed.

Lemma eased_unit (v : R) : 0 <= v <= 1 -> 0 <= eased v <= 1.
Proof.
  intros [H0 H1]. pose proof (eased_monotone 0 v H0) as Ha.
  pose proof (eased_monotone v 1 H1) as Hb. rewrite eased_zero in Ha.
  rewrite eased_one in Hb. lra.
Qed.

Lemma halo_drift_scaled (p : Vector3) (a b e : R) :
  0 <= e <= 1 ->
  Vector3.distanceTo
    (Vector3.mk (Vector3.x p + sin a * 0.02 * e) (Vector3.y p + cos b * 0.02 * e)
                (Vector3.z p)) p
  <= 0.05.
Proof.
  intros He. unfold Vector3.distanceTo. apply square_le_le; [lra|]. rewrite length_sqr.
  unfold Vector3.dot, Vector3.subVectors. cbn [Vector3.x Vector3.y Vector3.z].
  pose proof (SIN_bound a). pose proof (COS_bound b).
  assert (-0.02 <= sin a * 0.02 * e <= 0.02) by nra.
  assert (-0.02 <= cos b * 0.02 * e <= 0.02) by nra.
  nra.
Qed.

(** X18. For a morph value in [[0, 1]] every instance is written within 0.05 of
    the eased interpolation between its tree and its scatter position, at
    that position itself up to morph value 0.01 (at the tree position for
    0), and with a rotation that depends on its index only. *)
Theorem update_near_interpolation (m : t) (v time : R) (ts : list Transform) :
  0 <= v <= 1 -> update m v time = Some ts ->
  List.length ts = count m /\
  forall i t0 s tr,
    treePositions m !! i = Some t0 -> scatterPositions m !! i = Some s ->
    ts !! i = Some tr ->
    Vector3.distanceTo (position tr) (Vector3.lerpVectors t0 s (eased v)) <= 0.05 /\
    (v <= 0.01 -> position tr = Vector3.lerpVectors t0 s (eased v)) /\
    (v = 0 -> position tr = t0) /\
    rotation_x tr = INR i * 0.1 /\ rotation_y tr = INR i * 0.2.
Proof.
  intros Hv Hts. unfold update in Hts. apply mapM_Some in Hts.
  pose proof (Forall2_length _ _ _ Hts) as Hlen. rewrite length_seq in Hlen.
  split; [lia|]. intros i t0 s tr Ht Hs Htr.
  assert (Hi : (i < count m)%nat) by (rewrite Hlen; eapply lookup_lt_Some, Htr).
  assert (Hat : updateAt m v time i = Some tr).
  { eapply (Forall2_lookup_lr _ _ _ i i tr) in Hts; [exact Hts| |exact Htr].
    now rewrite lookup_seq_lt. }
  pose proof (eased_unit v Hv) as He.
  unfold updateAt in Hat. rewrite Ht, Hs in Hat. injection Hat as <-.
  cbn [position rotation_x rotation_y].
  destruct (decide (v > 0.01)) as [Hbig|Hsmall].
  - split; [|split; [intros; lra|split; [intros; lra|auto]]].
    destruct (default false (haloFlags m !! i)).
    + exact (halo_drift_scaled (Vector3.lerpVectors t0 s (eased v))
               (time * 0.4 + INR i * 0.1) (time * 0.3 + INR i * 0.2) (eased v) He).
    + apply addScaledVector_distance; [apply length_normalize_le|].
      pose proof (SIN_bound (time * 2.0 + INR i * 0.1)). nra.
  - split; [|split; [reflexivity|split; [|auto]]].
    + unfold Vector3.distanceTo, Vector3.length, Vector3.subVectors.
      cbn [Vector3.x Vector3.y Vector3.z].
      replace (_ + _ + _) with 0 by ring. rewrite sqrt_0. lra.
    + intros ->. rewrite eased_zero. apply lerpVectors_zero.
Qed.

Lemma update_near_interpolation_witness :
  exists ts, update oneHalo 0.5 0 = Some ts /\ List.length ts = count oneHalo.
Proof.
  assert (Hwf : wellFormed oneHalo) by (repeat split).
  destruct (update_wellFormed oneHalo 0.5 0 Hwf) as (ts & Hts & _).
  exists ts. split; [exact Hts|].
  refine (proj1 (update_near_interpolation oneHalo 0.5 0 ts _ Hts)). lra.
Defined.

End UpdateProperties.

Section FormationProperties2.

Import Formation.

Lemma halves_valid : Random.valid halves.
Proof. intros n. simpl. lra. Qed.

Lemma createGroup_wellFormed_witness :
  MorphingInstances.count (fst (createGroup 2 halves)) = 2%nat.
Proof. apply (proj1 (createGroup_wellFormed 2 halves halves_valid)). Defined.

(** A projection of the loop's results that the generator does not
    influence. *)
Lemma forLoop_fmap {A B : Type} (f : A -> B) (F : nat -> B) (body : nat -> Random.M A) :
  (forall i g, f (fst (body i g)) = F i) ->
  forall n start g, f <$> fst (forLoop n body start g) = F <$> seq start n.
Proof.
  intros Hf. induction n as [|n IH]; intros start g; [reflexivity|].
  cbn [forLoop seq]. unfold Random.bind, Random.ret.
  specialize (Hf start g). destruct (body start g) as [a g1]. cbn [fst] in Hf.
  specialize (IH (S start) g1). destruct (forLoop n body (S start) g1) as [rest g2].
  cbn [fst] in *. rewrite !fmap_cons. now rewrite Hf, IH.
Qed.

Lemma ribbonInstance_tree i g : tree (fst (ribbonInstance i g)) = ribbonTree i.
Proof.
  unfold ribbonInstance, Random.bind, Random.random, Random.ret.
  now destruct (getIsotropicScatterPos _ _).
Qed.

Lemma ribbonTree_on_cone (i : nat) :
  (i < ribbonCount)%nat ->
  treeBottomY <= Vector3.y (ribbonTree i) < treeBottomY + treeHeight /\
  axisDistance (ribbonTree i) = coneRadius (treeBaseWidth * 1.06) (Vector3.y (ribbonTree i)).
Proof.
  intros Hi. unfold ribbonTree. cbn zeta.
  set (t := INR i / INR ribbonCount).
  assert (Ht : 0 <= t < 1).
  { unfold t, ribbonCount in *.
    assert (0 <= INR i) by apply pos_INR.
    assert (INR i < INR 1000) by (apply lt_INR; exact Hi).
    assert (H1000 : INR 1000 = 1000) by (rewrite INR_IZR_INZ; reflexivity).
    rewrite H1000 in *. split.
    - apply Rmult_le_pos; [lra|]. apply Rlt_le, Rinv_0_lt_compat. lra.
    - apply (Rmult_lt_reg_r 1000); [lra|]. unfold Rdiv. rewrite Rmult_assoc, Rinv_l; lra. }
  cbn [Vector3.y]. rewrite axisDistance_polar by (unfold treeBaseWidth; nra).
  unfold coneRadius, treeBottomY, treeHeight, treeBaseWidth. split; [lra|].
  replace (1 - (-5.0 + t * 12 - -5.0) / 12) with (1 - t) by lra. ring.
Qed.

(** X19. The ribbon has 1000 instances; their tree positions do not depend on
    the random draws and wind around the cone of base width [4.2 * 1.06],
    outside every ornament at the same height. *)
Theorem ribbonManager_spiral (g : Random.Gen) :
  let m := fst (ribbonManager g) in
  MorphingInstances.count m = 1000%nat /\
  MorphingInstances.wellFormed m /\
  MorphingInstances.treePositions m = ribbonTree <$> seq 0 1000 /\
  (forall i t, MorphingInstances.treePositions m !! i = Some t ->
     t = ribbonTree i /\
     treeBottomY <= Vector3.y t < treeBottomY + treeHeight /\
     axisDistance t = coneRadius (treeBaseWidth * 1.06) (Vector3.y t) /\
     coneRadius (treeBaseWidth * 1.02) (Vector3.y t) < axisDistance t).
Proof.
  cbn zeta. unfold ribbonManager, Random.bind, Random.ret.
  pose proof (forLoop_fmap tree ribbonTree ribbonInstance ribbonInstance_tree
                ribbonCount 0 g) as Htree.
  destruct (forLoop ribbonCount ribbonInstance 0 g) as [l g']. cbn [fst] in *.
  assert (Hlen : List.length l = 1000%nat).
  { rewrite <- (length_fmap tree), Htree, length_fmap, length_seq. reflexivity. }
  destruct (managerOf_wellFormed l) as [Hwf Hc].
  split; [congruence|]. split; [exact Hwf|]. split; [exact Htree|].
  intros i t Ht. cbn [managerOf MorphingInstances.treePositions] in Ht.
  rewrite Htree, list_lookup_fmap in Ht.
  destruct (seq 0 ribbonCount !! i) as [j|] eqn:Ej; [|discriminate].
  apply lookup_seq in Ej as [-> Hi]. cbn in Ht. injection Ht as <-.
  destruct (ribbonTree_on_cone i Hi) as [Hy Hcone].
  split; [reflexivity|]. split; [exact Hy|]. split; [exact Hcone|].
  rewrite Hcone. unfold coneRadius, treeBottomY, treeHeight, treeBaseWidth in *. nra.
Qed.

Lemma ribbonManager_spiral_witness :
  MorphingInstances.treePositions (fst (ribbonManager halves)) !! 0%nat
  = Some (ribbonTree 0) /\
  axisDistance (ribbonTree 0)
  = coneRadius (treeBaseWidth * 1.06) (Vector3.y (ribbonTree 0)).
Proof.
  destruct (ribbonManager_spiral halves) as (_ & _ & Htp & Hall). cbn zeta in *.
  assert (Hl : MorphingInstances.treePositions (fst (ribbonManager halves)) !! 0%nat
               = Some (ribbonTree 0)).
  { rewrite Htp, list_lookup_fmap, lookup_seq_lt by lia. reflexivity. }
  split; [exact Hl|]. destruct (Hall 0%nat _ Hl) as (_ & _ & H & _). exact H.
Defined.

Lemma photo_scatter_distance (sr sPhi sTheta : R) :
  0 <= sr ->
  Vector3.distanceTo
    (Vector3.mk (sr * sin sPhi * cos sTheta)
                (sr * sin sPhi * sin sTheta + SCATTER_CENTER_Y) (sr * cos sPhi))
    scatterCenter = sr.
Proof.
  intros Hsr. unfold Vector3.distanceTo, Vector3.length, Vector3.subVectors, scatterCenter.
  cbn [Vector3.x Vector3.y Vector3.z].
  replace (_ + _ + _)
    with (sr * sr * (Rsqr (sin sPhi) * (Rsqr (sin sTheta) + Rsqr (cos sTheta))
                     + Rsqr (cos sPhi))) by (unfold Rsqr; ring).
  rewrite sin2_cos2, Rmult_1_r, sin2_cos2, Rmult_1_r. now apply sqrt_square.
Qed.

(** X20. A photo slot keeps the index of its file, hangs on the cone of base
    width [4.2 * 1.2], and has its scatter position between
    [1.25 * CORE_RADIUS] and OUTER_RADIUS from the centre; at most 12 files
    are accepted. *)
Theorem photoSlot_placed (chosen idx0 : nat) (aspect : R) (g : Random.Gen) :
  Random.valid g -> (idx0 < acceptedFiles chosen)%nat ->
  let p := fst (photoSlot (acceptedFiles chosen) idx0 aspect g) in
  (acceptedFiles chosen <= 12)%nat /\
  idx p = idx0 /\
  baseScale p = Vector3.mk (0.65 * aspect) 0.65 1 /\
  treeBottomY <= Vector3.y (treePos p) < treeBottomY + treeHeight /\
  axisDistance (treePos p) = coneRadius (treeBaseWidth * 1.2) (Vector3.y (treePos p)) /\
  1.25 * SCATTER_CONFIG.CORE_RADIUS
  <= Vector3.distanceTo (scatterPos p) scatterCenter
  <= SCATTER_CONFIG.OUTER_RADIUS.
Proof.
  intros Hv Hi. cbn zeta.
  unfold photoSlot, Random.bind, Random.random, Random.ret.
  cbn [fst snd Random.draws Random.cursor idx baseScale treePos scatterPos Vector3.y].
  split; [unfold acceptedFiles; lia|]. split; [reflexivity|]. split; [reflexivity|].
  set (n := acceptedFiles chosen) in *.
  set (t := INR idx0 / INR n).
  assert (Ht : 0 <= t < 1).
  { unfold t. assert (0 <= INR idx0) by apply pos_INR.
    assert (INR idx0 < INR n) by (apply lt_INR; exact Hi).
    assert (0 < INR n) by lra. split.
    - apply Rmult_le_pos; [lra|]. now apply Rlt_le, Rinv_0_lt_compat.
    - apply (Rmult_lt_reg_r (INR n)); [lra|].
      unfold Rdiv. rewrite Rmult_assoc, Rinv_l; lra. }
  rewrite axisDistance_polar by (unfold treeBaseWidth; nra).
  split; [unfold treeBottomY, treeHeight; lra|]. split.
  - unfold coneRadius, treeBottomY, treeHeight, treeBaseWidth.
    replace (1 - (-5.0 + t * 12 - -5.0) / 12) with (1 - t) by lra. ring.
  - set (d := Random.draws g (Random.cursor g)).
    assert (Hd : 0 <= d < 1) by apply Hv.
    assert (Hsr : SCATTER_CONFIG.CORE_RADIUS * 1.25
                  <= Math.cbrt (d * (Math.pow SCATTER_CONFIG.OUTER_RADIUS 3
                                     - Math.pow (SCATTER_CONFIG.CORE_RADIUS * 1.25) 3)
                                + Math.pow (SCATTER_CONFIG.CORE_RADIUS * 1.25) 3)
                  <= SCATTER_CONFIG.OUTER_RADIUS).
    { apply cbrt_between;
        unfold Math.pow, SCATTER_CONFIG.OUTER_RADIUS, SCATTER_CONFIG.CORE_RADIUS; nra. }
    rewrite photo_scatter_distance; [lra|].
    unfold SCATTER_CONFIG.CORE_RADIUS in *. lra.
Qed.

Lemma photoSlot_placed_witness :
  idx (fst (photoSlot (acceptedFiles 20) 3 1.5 halves)) = 3%nat.
Proof.
  refine (proj1 (proj2 (photoSlot_placed 20 3 1.5 halves halves_valid _))).
  unfold acceptedFiles. simpl. lia.
Defined.

End FormationProperties2.

Section PhotoProperties.

Import Photo.

Lemma lerp_gap (a v : Vector3) (alpha : R) :
  0 <= alpha <= 1 ->
  Vector3.distanceTo (lerp a v alpha) v = (1 - alpha) * Vector3.distanceTo a v.
Proof.
  intros Ha. unfold Vector3.distanceTo, Vector3.length, Vector3.subVectors, lerp.
  cbn [Vector3.x Vector3.y Vector3.z].
  set (dx := Vector3.x a - Vector3.x v). set (dy := Vector3.y a - Vector3.y v).
  set (dz := Vector3.z a - Vector3.z v).
  replace (_ + _ + _) with (Rsqr (1 - alpha) * (dx * dx + dy * dy + dz * dz))
    by (unfold Rsqr, dx, dy, dz; ring).
  rewrite sqrt_mult; [|apply Rle_0_sqr|nra].
  rewrite sqrt_Rsqr; [reflexivity|lra].
Qed.

Lemma moves_S n m tgt : moves (S n) m tgt = move (moves n m tgt) tgt.
Proof. revert m. induction n as [|n IH]; intros m; [reflexivity|]. simpl in *. now rewrite IH. Qed.

(** X21. Each tick a photo closes 8 percent of its distance to the target, in
    position and in scale: after [n] ticks towards the same target,
    [0.92 ^ n] of the distance is left, so a photo never jumps. *)
Theorem photo_damping (n : nat) (m : Mesh) (tgt : Vector3 * Vector3) :
  Vector3.distanceTo (position (moves n m tgt)) (fst tgt)
  = 0.92 ^ n * Vector3.distanceTo (position m) (fst tgt) /\
  Vector3.distanceTo (scale (moves n m tgt)) (snd tgt)
  = 0.92 ^ n * Vector3.distanceTo (scale m) (snd tgt).
Proof.
  induction n as [|n [IHp IHs]]; [simpl; split; lra|].
  rewrite moves_S. unfold move. cbn [position scale].
  rewrite !lerp_gap, IHp, IHs by (unfold PHOTO_DAMP; lra).
  unfold PHOTO_DAMP. simpl. split; lra.
Qed.

(** X22. The target of a photo: in front of the camera at 2.5 times its base
    scale when it is the focused one and the camera is there; otherwise at
    its base scale, on the eased interpolation between its two formation
    positions, bobbing at most 0.08 up or down. *)
Theorem photo_target (p : Formation.PhotoSlot) (focusId : option nat)
        (focusPoint : option Vector3) (e time : R) :
  let q := Vector3.lerpVectors (Formation.treePos p) (Formation.scatterPos p) e in
  (forall w, focusPoint = Some w -> focusId = Some (Formation.idx p) ->
     target p focusId focusPoint e time
     = (w, Vector3.multiplyScalar (Formation.baseScale p) 2.5)) /\
  (focusPoint = None \/ focusId <> Some (Formation.idx p) ->
     snd (target p focusId focusPoint e time) = Formation.baseScale p /\
     Vector3.x (fst (target p focusId focusPoint e time)) = Vector3.x q /\
     Vector3.z (fst (target p focusId focusPoint e time)) = Vector3.z q /\
     Rabs (Vector3.y (fst (target p focusId focusPoint e time)) - Vector3.y q) <= 0.08).
Proof.
  cbn zeta. split.
  - intros w -> ->. unfold target. destruct (decide _) as [_|H]; [reflexivity|now elim H].
  - intros H.
    assert (E : target p focusId focusPoint e time =
                (Vector3.mk
                   (Vector3.x (Vector3.lerpVectors (Formation.treePos p)
                                 (Formation.scatterPos p) e))
                   (Vector3.y (Vector3.lerpVectors (Formation.treePos p)
                                 (Formation.scatterPos p) e)
                    + sin (time * 0.5 + INR (Formation.idx p)) * 0.08)
                   (Vector3.z (Vector3.lerpVectors (Formation.treePos p)
                                 (Formation.scatterPos p) e)),
                 Formation.baseScale p)).
    { unfold target. destruct focusPoint as [w|]; [|reflexivity].
      destruct (decide _) as [E|_]; [|reflexivity].
      destruct H as [H|H]; [discriminate|]. now elim H. }
    rewrite E. cbn [fst snd Vector3.x Vector3.y Vector3.z].
    split; [reflexivity|]. split; [reflexivity|]. split; [reflexivity|].
    pose proof (SIN_bound (time * 0.5 + INR (Formation.idx p))).
    apply Rabs_le. lra.
Qed.

Lemma photo_target_witness :
  target (Formation.mkPhotoSlot (Vector3.mk 0 0 0) (Vector3.mk 5 0.2 0) 3
            (Vector3.mk 0.65 0.65 1)) (Some 3%nat) (Some (Vector3.mk 0 1 18)) 0 0
  = (Vector3.mk 0 1 18, Vector3.multiplyScalar (Vector3.mk 0.65 0.65 1) 2.5).
Proof.
  apply (proj1 (photo_target (Formation.mkPhotoSlot (Vector3.mk 0 0 0) (Vector3.mk 5 0.2 0) 3
            (Vector3.mk 0.65 0.65 1)) (Some 3%nat) (Some (Vector3.mk 0 1 18)) 0 0));
    reflexivity.
Defined.

End PhotoProperties.

Section WishProperties.

Import Wish.

Lemma after_S n : after (S n) = next (after n).
Proof. reflexivity. Qed.

(** X23. The wish index runs through the five lines in order and starts over:
    after [n] intervals it is [n mod 5], so a line is always shown. *)
Theorem wish_index_cycles (n : nat) :
  after n = (n mod 5)%nat /\ is_Some (shown n) /\ after (n + 5) = after n.
Proof.
  assert (H : forall k, after k = (k mod 5)%nat).
  { induction k as [|k IH]; [reflexivity|].
    rewrite after_S, IH. unfold next. cbn [List.length WISH_LINES].
    replace (S k) with (k + 1)%nat by lia.
    now rewrite Nat.Div0.add_mod_idemp_l. }
  split; [apply H|]. split.
  - unfold shown. apply lookup_lt_is_Some_2. rewrite H. cbn [List.length WISH_LINES].
    apply Nat.mod_upper_bound. lia.
  - rewrite !H. replace (n + 5)%nat with (n + 1 * 5)%nat by lia.
    now rewrite Nat.Div0.mod_add.
Qed.

End WishProperties.

Section ShadingProperties.

Import BodyShading.

Lemma clamp_unit v : 0 <= clamp v 0.0 1.0 <= 1.
Proof.
  unfold clamp. split.
  - apply Rmin_glb; [|lra]. eapply Rle_trans; [|apply Rmax_r]. lra.
  - eapply Rle_trans; [apply Rmin_r|lra].
Qed.

Lemma clamp_monotone a b : a <= b -> clamp a 0.0 1.0 <= clamp b 0.0 1.0.
Proof.
  intros H. unfold clamp. apply Rle_min_compat_r. now apply Rle_max_compat_r.
Qed.

(** X24. The height factor of a particle is in [[0, 1]] and grows with its
    height; the size factor falls with it from 1.2 to 0.6, the colour is
    darkened to between half and all of the attribute, and a halo particle is
    drawn at 0.7 of the size of a core particle at the same place. *)
Theorem vertex_varyings (y y' : R) (aColor : Vector3) (uSizeScale depth : R) :
  0 <= height y <= 1 /\
  (y <= y' -> height y <= height y' /\
              sizeGradient (height y') <= sizeGradient (height y)) /\
  0.6 <= sizeGradient (height y) <= 1.2 /\
  (y <= -5 -> height y = 0) /\ (7 <= y -> height y = 1) /\
  vColor aColor (height y)
  = Vector3.multiplyScalar aColor (1 - height y / 2) /\
  pointSize uSizeScale depth (height y) 1.0
  = 0.7 * pointSize uSizeScale depth (height y) 0.0.
Proof.
  pose proof (clamp_unit ((y + 5.0) / 12.0)) as Hh. fold (height y) in Hh.
  split; [exact Hh|]. split; [|split; [|split; [|split; [|split]]]].
  - intros Hy.
    assert (Hm : height y <= height y') by (apply clamp_monotone; lra).
    split; [exact Hm|]. unfold sizeGradient, mix. lra.
  - unfold sizeGradient, mix. lra.
  - intros Hy. unfold height, clamp. rewrite Rmax_right by lra. rewrite Rmin_left by lra. lra.
  - intros Hy. unfold height, clamp. rewrite Rmax_left by lra. rewrite Rmin_right by lra. lra.
  - unfold vColor, mix. f_equal. lra.
  - unfold pointSize, outerScale.
    destruct (decide (1.0 > 0.5)) as [_|H]; [|lra].
    destruct (decide (0.0 > 0.5)) as [H|_]; [lra|]. lra.
Qed.

Lemma vertex_varyings_witness : height 1 <= height 2.
Proof.
  refine (proj1 (proj1 (proj2 (vertex_varyings 1 2 (Vector3.mk 0 0 0) 1 1)) _)). lra.
Defined.

(** X25. A fragment is drawn exactly when it is within 0.5 of the centre of its
    point; no colour channel exceeds 0.95; for a spark flag of 0 or 1 and a
    height factor in [[0, 1]] the alpha is between 0.35 and 0.98 times the
    opacity. *)
Theorem fragment_output (uOpacity uTime : R) (f : Fragment) :
  let d := sqrt ((fst (pointCoord f) - 0.5) * (fst (pointCoord f) - 0.5)
                 + (snd (pointCoord f) - 0.5) * (snd (pointCoord f) - 0.5)) in
  (fragment uOpacity uTime f = None <-> d > 0.5) /\
  (forall c a, fragment uOpacity uTime f = Some (c, a) ->
     Vector3.x c <= 0.95 /\ Vector3.y c <= 0.95 /\ Vector3.z c <= 0.95 /\
     a = uOpacity * (0.7 - 0.35 * vHeight f) * (1 + 0.4 * vSpark f) /\
     (0 <= uOpacity -> 0 <= vHeight f <= 1 -> vSpark f = 0 \/ vSpark f = 1 ->
      0.35 * uOpacity <= a <= 0.98 * uOpacity)).
Proof.
  cbn zeta. unfold fragment. destruct (decide _) as [Hd|Hd].
  - split; [tauto|]. intros c a H. discriminate.
  - split; [split; [discriminate|tauto]|].
    intros c a H. injection H as <- <-. cbn [Vector3.x Vector3.y Vector3.z].
    split; [apply Rmin_r|]. split; [apply Rmin_r|]. split; [apply Rmin_r|].
    unfold mix. split; [lra|]. intros Ho Hh [Hs|Hs]; rewrite Hs; nra.
Qed.

Lemma fragment_output_witness :
  match fragment 0.4 0 (mkFragment (0.5, 0.5) (Vector3.mk 0.1 0.6 0.2) 0 1 0) with
  | Some (c, a) => 0.35 * 0.4 <= a <= 0.98 * 0.4
  | None => True
  end.
Proof.
  destruct (fragment 0.4 0 (mkFragment (0.5, 0.5) (Vector3.mk 0.1 0.6 0.2) 0 1 0))
    as [[c a]|] eqn:E; [|exact I].
  destruct (proj2 (fragment_output 0.4 0
              (mkFragment (0.5, 0.5) (Vector3.mk 0.1 0.6 0.2) 0 1 0)) c a E)
    as (_ & _ & _ & _ & Hb).
  apply Hb; cbn [vHeight vSpark]; [lra|lra|now right].
Defined.

End ShadingProperties.

Section LayerProperties.

Import Bloom.
Open Scope Z_scope.

Lemma bloomLayer_value : bloomLayer = 2.
Proof. reflexivity. Qed.

Lemma land_two (mask : Z) : Z.land mask 2 = if Z.testbit mask 1 then 2 else 0.
Proof.
  apply Z.bits_inj'. intros i Hi. rewrite Z.land_spec.
  change 2 with (2 ^ 1) at 1. rewrite Z.pow2_bits_eqb by lia.
  destruct (Z.eqb_spec 1 i) as [<-|Hne].
  - rewrite andb_true_r. destruct (Z.testbit mask 1); reflexivity.
  - rewrite andb_false_r. destruct (Z.testbit mask 1).
    + change 2 with (2 ^ 1). rewrite Z.pow2_bits_eqb by lia.
      symmetry. now apply Z.eqb_neq.
    + symmetry. apply Z.bits_0.
Qed.

(** X26. An object is on the bloom layer exactly when bit 1 of its mask is set:
    a mesh with the default mask 1 is darkened, and one that had layer 1
    enabled, as the ribbon has, never is. *)
Theorem bloom_layer_test (mask : Z) :
  Layers.test mask bloomLayer = Z.testbit mask 1 /\
  Layers.test 1 bloomLayer = false /\
  (0 <= mask -> Layers.test (Layers.enable mask BLOOM_LAYER) bloomLayer = true).
Proof.
  assert (H : forall m, Layers.test m bloomLayer = Z.testbit m 1).
  { intros m. unfold Layers.test. rewrite bloomLayer_value, land_two.
    destruct (Z.testbit m 1); reflexivity. }
  split; [apply H|]. split; [reflexivity|].
  intros _. rewrite H. unfold Layers.enable, BLOOM_LAYER.
  rewrite Z.lor_spec. change (Z.land (Z.shiftl 1 1) (2 ^ 32 - 1)) with 2.
  change (Z.testbit 2 1) with true. apply orb_true_r.
Qed.

Lemma bloom_layer_test_witness :
  Layers.test (Layers.enable 1 BLOOM_LAYER) bloomLayer = true.
Proof. apply (proj2 (proj2 (bloom_layer_test 1))). lia. Defined.

End LayerProperties.

Section FrameSequence.

Import Bloom BloomFrames.
Context {Material : Type} (darkMaterial : Material).

(** X27. However many frames are rendered, each starts from the scene and the
    empty [materials] map that the first one started from: nothing of the
    substitution is carried over from one frame to the next, and entries
    for other uuids are neither used nor removed. *)
Theorem frames_leave_no_trace (n : nat) (scene : Object3D Material)
        (materials : gmap string Material) :
  NoDup (uuid <$> objects scene) ->
  (forall q, q ∈ objects scene -> materials !! uuid q = None) ->
  after darkMaterial n scene materials = (scene, materials) /\
  after darkMaterial n scene ∅ = (scene, ∅).
Proof.
  intros Hnd Hfree.
  assert (H : forall m, (forall q, q ∈ objects scene -> m !! uuid q = None) ->
                        after darkMaterial n scene m = (scene, m)).
  { intros m Hm. induction n as [|k IH]; [reflexivity|].
    change (after darkMaterial (S k) scene m)
      with (let st := after darkMaterial k scene m in
            let f := renderFrame darkMaterial (fst st) (snd st) in
            (sceneAfter f, materialsAfter f)).
    rewrite IH. cbn [fst snd]. cbn zeta.
    now rewrite renderFrame_roundtrip. }
  split; [now apply H|]. apply H. intros q _. apply lookup_empty.
Qed.

End FrameSequence.

Lemma frames_leave_no_trace_witness :
  BloomFrames.after "black"%string 3 Bloom.sampleScene ∅ = (Bloom.sampleScene, ∅).
Proof.
  refine (proj2 (frames_leave_no_trace "black"%string 3 Bloom.sampleScene ∅ _ _)).
  - apply (bool_decide_unpack _). vm_compute. exact I.
  - intros q _. apply lookup_empty.
Defined.

Section BodyProperties.

Import Body.

Lemma point_ok i g :
  Random.valid g ->
  pointOk (fst (point i g)) /\ Random.draws (snd (point i g)) = Random.draws g.
Proof.
  intros Hv. unfold point, Random.bind, Random.random, Random.ret.
  cbn [Random.draws Random.cursor fst snd].
  set (k := Random.cursor g).
  set (a := Random.draws g k). set (b := Random.draws g (S k)).
  set (c := Random.draws g (S (S k))). set (d := Random.draws g (S (S (S k)))).
  set (isCore := bool_decide _).
  set (g5 := Random.mkGen (Random.draws g) (S (S (S (S (S k)))))).
  assert (Ha : 0 <= a < 1) by apply Hv.
  assert (Hb : 0 <= b < 1) by apply Hv.
  assert (Hv5 : Random.valid g5) by (apply (valid_draws g); [reflexivity|exact Hv]).
  destruct (scatter_radius_given isCore g5 Hv5) as (Hflag & Hcore & _ & Hhalo).
  destruct (getIsotropicScatterPos_draws (Some isCore) g5) as [Hd _].
  destruct (getIsotropicScatterPos (Some isCore) g5) as [sp g6]. cbn [fst snd] in *.
  cbn [Random.draws Random.cursor fst snd]. split; [|exact Hd].
  assert (Hf : 0 <= Random.draws g6 (Random.cursor g6) < 1) by (rewrite Hd; apply Hv).
  assert (Hh : 0 <= Random.draws g6 (S (S (Random.cursor g6))) < 1)
    by (rewrite Hd; apply Hv).
  unfold pointOk.
  cbn [bodyPos bodyScatter bodyColors bodySpark bodySeed bodyHalo Vector3.y].
  set (s := sin _). assert (Hs : -1 <= s <= 1) by apply SIN_bound.
  assert (Ha2 : 0 <= Math.pow a 2 < 1) by (unfold Math.pow; nra).
  set (hBias := Math.pow a 2) in *.
  assert (Hr : 0 <= (1 - hBias) * Formation.treeBaseWidth * (0.86 + 0.14 * b)
                    * (0.90 + 0.10 * s)).
  { unfold Formation.treeBaseWidth.
    apply Rmult_le_pos; [apply Rmult_le_pos; [apply Rmult_le_pos|]|]; lra. }
  rewrite axisDistance_polar by exact Hr.
  unfold Formation.coneRadius, Formation.treeBottomY, Formation.treeHeight,
    Formation.treeBaseWidth in *.
  split; [lra|]. split.
  { replace (1 - (-5.0 + hBias * 12 - -5.0) / 12) with (1 - hBias) by lra.
    assert (0 <= (1 - hBias) * 4.2) by nra.
    assert (0 < 0.86 + 0.14 * b <= 1) by lra.
    assert (0 < 0.90 + 0.10 * s <= 1) by lra.
    assert ((1 - hBias) * 4.2 * (0.86 + 0.14 * b) <= (1 - hBias) * 4.2) by nra.
    assert (0 <= (1 - hBias) * 4.2 * (0.86 + 0.14 * b)) by nra.
    nra. }
  split; [reflexivity|]. split; [lra|]. split.
  { destruct (decide _); [right|left]; lra. }
  split; [exact Hh|].
  destruct (isHalo sp) eqn:E.
  - right. split; [lra|]. now apply Hhalo.
  - left. split; [lra|]. now apply Hcore.
Qed.

End BodyProperties.

Section BodyField.

Import Body.

Lemma buffer3_length (f : Point -> Vector3) (l : list Point) :
  List.length (buffer3 f l) = (3 * List.length l)%nat.
Proof.
  induction l as [|p l IH]; [reflexivity|].
  unfold buffer3 in *. cbn [flat_map List.length app]. rewrite IH. lia.
Qed.

(** X28. The particle field of a mode has [pointCount] points; each lies inside
    the tree cone with its colour, spark, seed and halo attributes in their
    ranges, and its halo attribute, which the vertex stage tests against
    [0.5], tells whether its scatter position is in the core or the shell. *)
Theorem points_field (perfMode : PerformanceMode) (g : Random.Gen) :
  Random.valid g ->
  List.length (fst (points perfMode g)) = pointCount perfMode /\
  Forall pointOk (fst (points perfMode g)) /\
  List.length (buffer3 bodyPos (fst (points perfMode g)))
  = (3 * pointCount perfMode)%nat.
Proof.
  intros Hv. unfold points.
  destruct (forLoop_Forall pointOk point point_ok
              (pointCount perfMode) 0%nat g Hv) as (Hall & Hlen & _).
  split; [exact Hlen|]. split; [exact Hall|].
  rewrite buffer3_length, Hlen. reflexivity.
Qed.

Lemma points_field_witness :
  List.length (fst (points Low halves)) = pointCount Low /\
  Forall pointOk (fst (points Low halves)) /\
  List.length (buffer3 bodyPos (fst (points Low halves))) = (3 * pointCount Low)%nat.
Proof. apply (points_field Low halves). apply halves_valid. Defined.

End BodyField.

Section ShaderBound.

Import BodyVertexShader.

Lemma length_le_sqr (v : Vector3) (c : R) :
  0 <= c ->
  Vector3.x v * Vector3.x v + Vector3.y v * Vector3.y v + Vector3.z v * Vector3.z v
  <= c * c ->
  Vector3.length v <= c.
Proof.
  intros Hc H. apply square_le_le; [exact Hc|].
  rewrite length_sqr. unfold Vector3.dot. exact H.
Qed.

Lemma glsl_normalize_le (v : Vector3) : Vector3.length (normalize v) <= 1.
Proof.
  destruct (decide (Vector3.length v = 0)) as [H0|H0].
  - apply length_le_sqr; [lra|]. unfold normalize. cbn [Vector3.x Vector3.y Vector3.z].
    rewrite H0. unfold Rdiv. rewrite Rinv_0. nra.
  - rewrite glsl_normalize_agrees by exact H0. apply length_normalize_le.
Qed.

Lemma length_scaled (d : Vector3) (k b : R) :
  Vector3.length d <= 1 -> -b <= k <= b ->
  Vector3.length (Vector3.multiplyScalar d k) <= b.
Proof.
  intros Hd Hk. apply length_le_sqr; [lra|].
  unfold Vector3.multiplyScalar. cbn [Vector3.x Vector3.y Vector3.z].
  pose proof (length_sqr d) as Hl. unfold Vector3.dot in Hl.
  pose proof (length_nonneg d) as Hp.
  assert (Hdd : Vector3.x d * Vector3.x d + Vector3.y d * Vector3.y d
                + Vector3.z d * Vector3.z d <= 1) by nra.
  assert (Hkk : k * k <= b * b) by nra.
  replace (Vector3.x d * k * (Vector3.x d * k) + Vector3.y d * k * (Vector3.y d * k)
           + Vector3.z d * k * (Vector3.z d * k))
    with ((Vector3.x d * Vector3.x d + Vector3.y d * Vector3.y d
           + Vector3.z d * Vector3.z d) * (k * k)) by ring.
  assert (0 <= k * k) by nra. nra.
Qed.

(** The breathing offset of lines 57-61, as a vector. *)
Lemma breathe_length (b : R) :
  -0.02 <= b <= 0.02 -> Vector3.length (Vector3.mk b 0 b) <= 0.02 * sqrt 2.
Proof.
  intros Hb. assert (Hs : sqrt 2 * sqrt 2 = 2) by (apply sqrt_sqrt; lra).
  assert (0 <= sqrt 2) by apply sqrt_pos.
  apply length_le_sqr; [nra|]. cbn [Vector3.x Vector3.y Vector3.z]. nra.
Qed.

(** X29. For a morph value in [[0,1]] the vertex stage moves a point no further
    than [0.02 * sqrt 2 + 0.6] from the eased interpolation of its tree and
    scatter positions if its halo attribute is above [0.5], and no further
    than [0.02 * sqrt 2 + 0.05] otherwise. *)
Theorem main_near_path (uMorph uTime : R) (a : Attributes) :
  0 <= uMorph <= 1 ->
  Vector3.distanceTo (main uMorph uTime a)
    (Vector3.lerpVectors (position a) (aScatterPosition a) (eased uMorph))
  <= 0.02 * sqrt 2 + (if decide (aHalo a > 0.5) then 0.6 else 0.05).
Proof.
  intros Hm. pose proof (eased_unit uMorph Hm) as He.
  unfold main. rewrite mix_lerpVectors, easeInOutCubic_eased.
  set (e := eased uMorph) in *.
  set (p := Vector3.lerpVectors (position a) (aScatterPosition a) e).
  set (b := if decide (uMorph < 0.99)
            then sin (uTime * 1.2 + Vector3.y p * 0.5) * 0.02 * (1.0 - e) else 0).
  assert (Hb : -0.02 <= b <= 0.02).
  { unfold b. destruct (decide _); [|lra].
    pose proof (SIN_bound (uTime * 1.2 + Vector3.y p * 0.5)). nra. }
  set (q := Vector3.mk (Vector3.x p + b) (Vector3.y p) (Vector3.z p + b)).
  assert (Hq : (if decide (uMorph < 0.99)
                then Vector3.mk
                       (Vector3.x p + sin (uTime * 1.2 + Vector3.y p * 0.5) * 0.02 * (1.0 - e))
                       (Vector3.y p)
                       (Vector3.z p + sin (uTime * 1.2 + Vector3.y p * 0.5) * 0.02 * (1.0 - e))
                else p) = q).
  { unfold q, b. destruct (decide _); [reflexivity|].
    destruct p. cbn [Vector3.x Vector3.y Vector3.z]. f_equal; ring. }
  cbn zeta. rewrite Hq.
  assert (Hsqrt : 0 <= sqrt 2) by apply sqrt_pos.
  assert (Hstep : forall d c, Vector3.length d <= c ->
            Vector3.distanceTo (Vector3.add q d) p <= 0.02 * sqrt 2 + c).
  { intros d c Hd. unfold Vector3.distanceTo.
    replace (Vector3.subVectors (Vector3.add q d) p)
      with (Vector3.add (Vector3.mk b 0 b) d).
    - pose proof (length_add_le (Vector3.mk b 0 b) d).
      pose proof (breathe_length b Hb). lra.
    - unfold q, Vector3.add, Vector3.subVectors.
      cbn [Vector3.x Vector3.y Vector3.z]. f_equal; ring. }
  assert (Hq0 : forall c, 0 <= c -> Vector3.distanceTo q p <= 0.02 * sqrt 2 + c).
  { intros c Hc. unfold Vector3.distanceTo.
    replace (Vector3.subVectors q p) with (Vector3.mk b 0 b).
    - pose proof (breathe_length b Hb). lra.
    - unfold q, Vector3.subVectors. cbn [Vector3.x Vector3.y Vector3.z]. f_equal; ring. }
  destruct (decide (uMorph > 0.01)) as [_|_].
  - destruct (decide (aHalo a > 0.5)) as [_|_].
    + apply Hstep.
      set (nx := sin (uTime * 0.4 + aSeed a * 12.0)).
      set (ny := cos (uTime * 0.3 + aSeed a * 25.0)).
      set (nz := sin (uTime * 0.2 + Vector3.x q)).
      assert (-1 <= nx <= 1) by apply SIN_bound.
      assert (-1 <= ny <= 1) by apply COS_bound.
      assert (-1 <= nz <= 1) by apply SIN_bound.
      apply length_le_sqr; [lra|].
      unfold Vector3.multiplyScalar. cbn [Vector3.x Vector3.y Vector3.z].
      assert (nx * nx <= 1) by nra. assert (ny * ny <= 1) by nra.
      assert (nz * nz <= 1) by nra. assert (0 <= e * e <= 1) by nra.
      replace (nx * 0.4 * e * (nx * 0.4 * e) + ny * 0.5 * 0.4 * e * (ny * 0.5 * 0.4 * e)
               + nz * 0.4 * e * (nz * 0.4 * e))
        with ((0.16 * (nx * nx) + 0.04 * (ny * ny) + 0.16 * (nz * nz)) * (e * e)) by lra.
      assert (0 <= 0.16 * (nx * nx) + 0.04 * (ny * ny) + 0.16 * (nz * nz) <= 0.36) by nra.
      nra.
    + apply Hstep.
      set (pulse := sin _).
      assert (-1 <= pulse <= 1) by apply SIN_bound.
      apply length_scaled.
      * destruct (decide (Vector3.length _ < 0.001)).
        -- apply length_le_sqr; [lra|]. cbn [Vector3.x Vector3.y Vector3.z]. lra.
        -- apply glsl_normalize_le.
      * nra.
  - destruct (decide (aHalo a > 0.5)); apply Hq0; lra.
Qed.

Lemma main_near_path_witness :
  Vector3.distanceTo
    (main 0.5 0 (attributesOf (Vector3.mk 0 0 0) (Vector3.mk 1 0 0) true 0))
    (Vector3.lerpVectors (Vector3.mk 0 0 0) (Vector3.mk 1 0 0) (eased 0.5))
  <= 0.02 * sqrt 2 + 0.6.
Proof.
  pose proof (main_near_path 0.5 0
                (attributesOf (Vector3.mk 0 0 0) (Vector3.mk 1 0 0) true 0)) as H.
  cbn [attributesOf position aScatterPosition aHalo] in H.
  destruct (decide (1.0 > 0.5)) as [_|Hn]; [|lra].
  apply H. lra.
Defined.

End ShaderBound.
